(** * EHR data-quality auditor: a shallow embedding of
    [src/ehr_data_quality_auditor.py] and the properties of its scoring
    pipeline.

    Numbers.  The program computes with Python/NumPy numbers.  They are
    modelled as exact rationals ([Q]) extended with the three IEEE special
    values that the program can produce by dividing by zero (NaN and the two
    infinities).  Rounding of binary floating point is not modelled: every
    finite result below is the exact rational value of the expression the
    source evaluates.  Equality of finite results is therefore [Qeq] ([==]).
    Where a property would not survive the machine's arithmetic, its
    statement keeps to numbers the machine computes with exactly: whole
    numbers up to [2^53] for the weights ([whole_weights], [weights_fit]),
    for which the sums of line 99 are also given on [int64] columns
    ([weighted_errors_int64]), and whole numbers up to [2^40] for the
    values a fence is computed from ([whole_numbers], [binary64_exact]).

    Data.  A [DataFrame] is the ordered list of its named columns, as
    pandas keeps it; a Python [dict] is the insertion-ordered list of its
    entries. *)

From Stdlib Require Import QArith Qround Qabs Lqa.
From Stdlib Require Import ZArith Lia.
From Stdlib Require Import List Bool String Ascii Permutation Sorted.
Import ListNotations.

Local Open Scope string_scope.
Local Open Scope Q_scope.

(* ================================================================== *)
(** ** Cells and floating-point special values *)

(** One cell of a frame.  [VNaN] is pandas' missing marker ([np.nan]);
    [VInf] only arises from a division by zero in a computed score. *)
Inductive cell : Type :=
| VNaN
| VNum (q : Q)
| VInf (negative : bool)
| VBool (b : bool)
| VStr (s : string).

Definition Qeqb (a b : Q) : bool := Qeq_bool a b.
Definition Qleb (a b : Q) : bool := Qle_bool a b.
Definition Qltb (a b : Q) : bool := negb (Qle_bool b a).

(** [a / b] on finite operands with the IEEE outcome for [b = 0]
    (NumPy and pandas do not raise on a zero divisor). *)
Definition fdiv (a b : Q) : cell :=
  if Qeqb b 0 then
    if Qeqb a 0 then VNaN else VInf (Qltb a 0)
  else VNum (a / b).

(** [x * k] for a finite, positive constant [k]. *)
Definition fscale (x : cell) (k : Q) : cell :=
  match x with
  | VNum q => VNum (q * k)
  | VInf s => VInf s
  | _ => VNaN
  end.

(** [k - x] for a finite constant [k]. *)
Definition fsub_from (k : Q) (x : cell) : cell :=
  match x with
  | VNum q => VNum (k - q)
  | VInf s => VInf (negb s)
  | _ => VNaN
  end.

(* ================================================================== *)
(** ** Strings *)

(** [s.endswith(suffix)] *)
Definition ends_with (suffix s : string) : bool :=
  let n := String.length s in
  let m := String.length suffix in
  (m <=? n)%nat && String.eqb (substring (n - m) m s) suffix.

(** [s.split('_')[0]] : the text before the first underscore. *)
Fixpoint before_underscore (s : string) : string :=
  match s with
  | EmptyString => EmptyString
  | String c rest =>
      if Ascii.eqb c "_"%char then EmptyString
      else String c (before_underscore rest)
  end.

(** ["; ".join(parts)] *)
Fixpoint join (sep : string) (parts : list string) : string :=
  match parts with
  | [] => ""
  | [p] => p
  | p :: rest => p ++ sep ++ join sep rest
  end.

Definition mem (s : string) (l : list string) : bool :=
  existsb (String.eqb s) l.

(* ================================================================== *)
(** ** Data frames *)

Definition Series := list cell.

Record DataFrame : Type := mkDF {
  nrows : nat;
  cols : list (string * Series)
}.

(** [df.columns] *)
Definition columns (df : DataFrame) : list string := map fst (cols df).

Fixpoint lookup {A} (k : string) (l : list (string * A)) : option A :=
  match l with
  | [] => None
  | (k', v) :: rest => if String.eqb k k' then Some v else lookup k rest
  end.

(** [df[col]]; [None] is pandas' [KeyError]. *)
Definition get_col (df : DataFrame) (col : string) : option Series :=
  lookup col (cols df).

Fixpoint assign {A} (k : string) (v : A) (l : list (string * A))
  : list (string * A) :=
  match l with
  | [] => [(k, v)]
  | (k', v') :: rest =>
      if String.eqb k k' then (k', v) :: rest
      else (k', v') :: assign k v rest
  end.

(** [df[col] = values]: overwrite in place, or append a new last column. *)
Definition set_col (df : DataFrame) (col : string) (values : Series)
  : DataFrame :=
  mkDF (nrows df) (assign col values (cols df)).

(** The cell of column [col] in record [i]. *)
Definition get_cell (df : DataFrame) (col : string) (i : nat) : option cell :=
  match get_col df col with
  | Some s => nth_error s i
  | None => None
  end.

(** Record [i] as pandas hands it to a row function ([axis=1]). *)
Definition row (df : DataFrame) (i : nat) : list (string * cell) :=
  map (fun c => (fst c, nth i (snd c) VNaN)) (cols df).

(** [df.apply(f, axis=1)] *)
Definition apply_rows (df : DataFrame) (f : list (string * cell) -> cell)
  : Series :=
  map (fun i => f (row df i)) (seq 0 (nrows df)).

(** Outcome of a call: the frame object is mutated in place, so its state
    survives an exception. *)
Inductive exn : Type := KeyError | ValueError | TypeError | OverflowError.

Inductive outcome (A : Type) : Type :=
| Returned (a : A)
| Raised (e : exn).
Arguments Returned {A} a.
Arguments Raised {A} e.

(* ================================================================== *)
(** ** Module 2: missing values ([missing_value_analysis]) *)

Definition default_missing_values : list string := [""; "N/A"; "Unknown"].

(** One cell under [df.replace(additional_missing_values, np.nan)]. *)
Definition replace_missing (markers : list string) (c : cell) : cell :=
  match c with
  | VStr s => if mem s markers then VNaN else c
  | _ => c
  end.

Definition replace_frame (markers : list string) (df : DataFrame)
  : DataFrame :=
  mkDF (nrows df)
       (map (fun c => (fst c, map (replace_missing markers) (snd c)))
            (cols df)).

(** [pd.isnull] *)
Definition isnull (c : cell) : bool :=
  match c with VNaN => true | _ => false end.

(** [value == 0], elementwise; a comparison with NaN or text is [False]. *)
Definition is_zero (c : cell) : bool :=
  match c with
  | VNum q => Qeqb q 0
  | VBool b => negb b
  | _ => false
  end.

Definition count_true (l : list bool) : nat :=
  List.length (filter (fun b => b) l).

(** The first loop: [missing_summary[col] = df[col].isnull().sum()]. *)
Definition null_counts (df : DataFrame) : list (string * nat) :=
  fold_left
    (fun summary c => assign (fst c) (count_true (map isnull (snd c))) summary)
    (cols df) [].

(** The second loop, over [zero_as_missing_cols]; the frame is threaded
    through and keeps the columns already added when [df[col]] raises. *)
Fixpoint flag_zeros (zero_cols : list string) (df : DataFrame)
  (summary : list (string * nat))
  : DataFrame * outcome (list (string * nat)) :=
  match zero_cols with
  | [] => (df, Returned summary)
  | col :: rest =>
      match get_col df col with
      | None => (df, Raised KeyError)
      | Some s =>
          let zeros := map is_zero s in
          flag_zeros rest
            (set_col df (col ++ "_Missing") (map VBool zeros))
            (assign (col ++ "_Zeros_as_Missing") (count_true zeros) summary)
      end
  end.

(** [len(df.columns) - sum(col.endswith('_Missing') for col in df.columns)] *)
Definition data_cols_count (df : DataFrame) : nat :=
  (List.length (columns df)
   - List.length (filter (ends_with "_Missing") (columns df)))%nat.

(** A boolean flag read back from a row and added up by [sum].  The cells
    read here were stored by [flag_zeros] and are booleans. *)
Definition flag_count (c : cell) : nat :=
  match c with VBool true => 1%nat | _ => 0%nat end.

(** [row.get(key, default)] *)
Definition row_get (r : list (string * cell)) (key : string) (default : cell)
  : cell :=
  match lookup key r with Some v => v | None => default end.

Definition Qnat (n : nat) : Q := inject_Z (Z.of_nat n).

(** The inner function [completeness(row)]. *)
Definition completeness (zero_cols : list string) (data_cols : nat)
  (r : list (string * cell)) : cell :=
  let missing := count_true (map (fun c => isnull (snd c)) r) in
  let zero_miss :=
    list_sum (map (fun col => flag_count (row_get r (col ++ "_Missing")
                                                  (VBool false)))
                  zero_cols) in
  let total_missing := (missing + zero_miss)%nat in
  fscale (fsub_from 1 (fdiv (Qnat total_missing) (Qnat data_cols))) 100.

(** [missing_df]: per key its [Missing_Count] and [Missing_%]. *)
Definition missing_table (df : DataFrame) (summary : list (string * nat))
  : list (string * (nat * cell)) :=
  map (fun e => (fst e, (snd e, fdiv (100 * Qnat (snd e)) (Qnat (nrows df)))))
      summary.

Definition missing_value_analysis (df : DataFrame)
  (zero_as_missing_cols : list string)
  (additional_missing_values : option (list string))
  : DataFrame * outcome (list (string * (nat * cell))) :=
  let markers :=
    match additional_missing_values with
    | None => default_missing_values
    | Some l => l
    end in
  let df := replace_frame markers df in
  match flag_zeros zero_as_missing_cols df (null_counts df) with
  | (df, Raised e) => (df, Raised e)
  | (df, Returned summary) =>
      let data_cols := data_cols_count df in
      let df :=
        set_col df "Completeness_Score (%)"
                (apply_rows df (completeness zero_as_missing_cols data_cols)) in
      (df, Returned (missing_table df summary))
  end.

(* ================================================================== *)
(** ** Module 6: scoring ([classify_errors_and_score]) *)

(** A Python [dict] from flag name to weight, in insertion order. *)
Definition dict := list (string * Q).

(** [d.setdefault(key, value)] *)
Definition setdefault (key : string) (value : Q) (d : dict) : dict :=
  match lookup key d with
  | Some _ => d
  | None => (d ++ [(key, value)])%list
  end.

(** [sum(d.values())] *)
Definition sum_values (d : dict) : Q :=
  fold_left (fun acc e => acc + snd e) d 0.

Definition flag_suffixes : list string :=
  ["_Missing"; "_Outlier"; "_RangeError"; "_FormatError"; "_AnomalyIF"].

(** [col.endswith((...))] with the tuple of suffixes. *)
Definition is_error_col (col : string) : bool :=
  existsb (fun suffix => ends_with suffix col) flag_suffixes.

Definition error_columns (df : DataFrame) : list string :=
  filter is_error_col (columns df).

(** Lines 93-97: the table the scores are computed with.  A supplied
    table is the caller's object and is completed in place. *)
Definition effective_weights (error_cols : list string)
  (error_weights : option dict) : dict :=
  match error_weights with
  | None => fold_left (fun d col => assign col 1 d) error_cols []
  | Some w => fold_left (fun d col => setdefault col 1 d) error_cols w
  end.

Definition Qtrunc (q : Q) : Z :=
  if Qleb 0 q then Qfloor q else Qceiling q.

(** [int(value)] as [astype(int)] applies it.  NaN and infinities cannot
    be converted; text raises too (a column read from CSV holds text only
    next to non-numeric text or a missing marker). *)
Definition int_of_cell (c : cell) : option Z :=
  match c with
  | VBool b => Some (if b then 1 else 0)%Z
  | VNum q => Some (Qtrunc q)
  | _ => None
  end.

Fixpoint astype_int (s : Series) : option (list Z) :=
  match s with
  | [] => Some []
  | c :: rest =>
      match int_of_cell c, astype_int rest with
      | Some z, Some zs => Some (z :: zs)
      | _, _ => None
      end
  end.

(** [acc + ints * weight], elementwise. *)
Definition add_scaled (acc : list Q) (ints : list Z) (weight : Q) : list Q :=
  map (fun p => fst p + inject_Z (snd p) * weight) (combine acc ints).

(** [sum(df[col].astype(int) * error_weights[col] for col in error_cols)],
    the running total starting from Python's [0]. *)
Fixpoint weighted_errors (df : DataFrame) (weights : dict)
  (error_cols : list string) (acc : list Q) : outcome (list Q) :=
  match error_cols with
  | [] => Returned acc
  | col :: rest =>
      match get_col df col with
      | None => Raised KeyError
      | Some s =>
          match astype_int s with
          | None => Raised ValueError
          | Some ints =>
              match lookup col weights with
              | None => Raised KeyError
              | Some weight =>
                  weighted_errors df weights rest (add_scaled acc ints weight)
              end
          end
      end
  end.

(** The number a cell contributes to [sum(axis=1)]. *)
Definition cell_number (c : cell) : Q :=
  match c with
  | VBool true => 1
  | VNum q => q
  | _ => 0
  end.

(** [df[error_cols].sum(axis=1)] for one record. *)
Definition total_errors (error_cols : list string) (r : list (string * cell))
  : Q :=
  fold_left (fun acc col => acc + cell_number (row_get r col (VBool false)))
            error_cols 0.

(** [100 - (weighted / total_weight * 100)] *)
Definition quality_score (total_weight weighted : Q) : cell :=
  fsub_from 100 (fscale (fdiv weighted total_weight) 100).

(** [df.reset_index(inplace=True)]: the old index [0..n-1] becomes the
    first column, named [index], or [level_0] when [index] is taken. *)
Definition reset_index (df : DataFrame) : outcome DataFrame :=
  let name := if mem "index" (columns df) then "level_0" else "index" in
  if mem name (columns df) then Raised ValueError
  else Returned
         (mkDF (nrows df)
               ((name, map (fun i => VNum (Qnat i)) (seq 0 (nrows df)))
                  :: cols df)).

(** [df.rename(columns={old: new}, inplace=True)] *)
Definition rename_column (old new : string) (df : DataFrame) : DataFrame :=
  mkDF (nrows df)
       (map (fun c => (if String.eqb (fst c) old then new else fst c, snd c))
            (cols df)).

(** Python truth value of a cell ([if row[col]:]). *)
Definition truthy (c : cell) : bool :=
  match c with
  | VBool b => b
  | VNum q => negb (Qeqb q 0)
  | VStr s => negb (String.eqb s "")
  | _ => true
  end.

(** The inner function [error_log(row)].  [str_of_value] stands for
    Python's [str()] of a cell value inside the f-string. *)
Definition error_log (str_of_value : cell -> string)
  (error_cols : list string) (r : list (string * cell)) : cell :=
  let errors :=
    map (fun col =>
           col ++ " ("
               ++ str_of_value (row_get r (before_underscore col) (VStr "N/A"))
               ++ ")")
        (filter (fun col => truthy (row_get r col (VBool false))) error_cols) in
  match errors with
  | [] => VStr "No Errors"
  | _ => VStr (join "; " errors)
  end.

(** State after a call of the scoring engine: the frame, the caller's
    weight table (when one was supplied) and what the call returned. *)
Record scoring_run : Type := mkRun {
  frame_after : DataFrame;
  weights_after : option dict;
  result : outcome (list string)
}.

Definition classify_errors_and_score (str_of_value : cell -> string)
  (df : DataFrame) (error_weights : option dict) : scoring_run :=
  let error_cols := error_columns df in
  let weights := effective_weights error_cols error_weights in
  let caller :=
    match error_weights with None => None | Some _ => Some weights end in
  match weighted_errors df weights error_cols (repeat 0 (nrows df)) with
  | Raised e => mkRun df caller (Raised e)
  | Returned weighted =>
      let df := set_col df "Weighted_Errors" (map VNum weighted) in
      let df :=
        set_col df "Total_Errors"
                (apply_rows df (fun r => VNum (total_errors error_cols r))) in
      let total_weight := sum_values weights in
      let df :=
        set_col df "Quality_Score (%)"
                (map (quality_score total_weight) weighted) in
      match reset_index df with
      | Raised e => mkRun df caller (Raised e)
      | Returned df =>
          let df := rename_column "index" "Row_Index" df in
          let df :=
            set_col df "Error_Log"
                    (apply_rows df (error_log str_of_value error_cols)) in
          mkRun df caller (Returned error_cols)
      end
  end.

(* ------------------------------------------------------------------ *)
(** *** Lines 99-102 on [int64] columns

    [weighted_errors] adds exact numbers.  A weight that the table gives
    as a whole number is a Python [int]; when every weight is one, the
    products of line 99 and their running total are [int64] columns, and
    NumPy adds and multiplies them modulo [2^64] without raising.  A
    Python [int] that no [int64] holds is refused with [OverflowError].
    The division of line 102 is a true division, by the Python number
    [total_weight]. *)

Definition int64_min : Z := (- 2 ^ 63)%Z.
Definition int64_max : Z := (2 ^ 63 - 1)%Z.

(** The [int64] that an integer result is stored as. *)
Definition wrap_int64 (z : Z) : Z :=
  ((z + 2 ^ 63) mod 2 ^ 64 - 2 ^ 63)%Z.

(** [acc + ints * weight], elementwise on [int64] columns. *)
Definition add_scaled_int64 (acc ints : list Z) (weight : Z) : list Z :=
  map (fun p => wrap_int64 (fst p + wrap_int64 (snd p * weight)))
      (combine acc ints).

(** Line 99 for a table of Python ints; the weight of an entry is the
    whole number [Qfloor weight]. *)
Fixpoint weighted_errors_int64 (df : DataFrame) (weights : dict)
  (error_cols : list string) (acc : list Z) : outcome (list Z) :=
  match error_cols with
  | [] => Returned acc
  | col :: rest =>
      match get_col df col with
      | None => Raised KeyError
      | Some s =>
          match astype_int s with
          | None => Raised ValueError
          | Some ints =>
              match lookup col weights with
              | None => Raised KeyError
              | Some weight =>
                  let w := Qfloor weight in
                  if (int64_min <=? w)%Z && (w <=? int64_max)%Z then
                    weighted_errors_int64 df weights rest
                      (add_scaled_int64 acc ints w)
                  else Raised OverflowError
              end
          end
      end
  end.

(** [Weighted_Errors] and [Quality_Score (%)] as lines 92-102 store them
    for a table of Python ints. *)
Definition scores_int64 (df : DataFrame) (error_weights : option dict)
  : outcome (list Z * list cell) :=
  let error_cols := error_columns df in
  let weights := effective_weights error_cols error_weights in
  match weighted_errors_int64 df weights error_cols
                              (repeat 0%Z (nrows df)) with
  | Raised e => Raised e
  | Returned weighted =>
      let total_weight := sum_values weights in
      Returned (weighted,
                map (fun x => quality_score total_weight (inject_Z x))
                    weighted)
  end.

(* ================================================================== *)
(** ** Module 3: univariate outliers ([detect_outliers_iqr]) *)

(** A [float64] column: a finite value, or [None] for NaN. *)
Definition float_series := list (option Q).

Fixpoint dropna (s : float_series) : list Q :=
  match s with
  | [] => []
  | None :: rest => dropna rest
  | Some v :: rest => v :: dropna rest
  end.

Fixpoint insert_sorted (x : Q) (l : list Q) : list Q :=
  match l with
  | [] => [x]
  | y :: rest => if Qleb x y then x :: l else y :: insert_sorted x rest
  end.

Definition sort_values (l : list Q) : list Q :=
  fold_right insert_sorted [] l.

(** [series.quantile(p)], pandas' default linear interpolation over the
    sorted non-missing values; NaN when there is none. *)
Definition quantile (s : float_series) (p : Q) : option Q :=
  let xs := sort_values (dropna s) in
  match xs with
  | [] => None
  | x0 :: _ =>
      let n := List.length xs in
      let h := p * Qnat (n - 1) in
      let lo := Z.to_nat (Qfloor h) in
      let hi := Nat.min (lo + 1) (n - 1) in
      let frac := h - Qnat lo in
      let a := nth lo xs x0 in
      let b := nth hi xs x0 in
      Some (a + frac * (b - a))
  end.

(** Arithmetic on [float64] values: NaN is absorbing. *)
Definition lift2 (f : Q -> Q -> Q) (a b : option Q) : option Q :=
  match a, b with
  | Some x, Some y => Some (f x y)
  | _, _ => None
  end.

(** [(left <= v) & (v <= right)]: a comparison with NaN is [False]. *)
Definition between (left right v : option Q) : bool :=
  match left, right, v with
  | Some l, Some r, Some x => Qleb l x && Qleb x r
  | _, _, _ => false
  end.

Definition detect_outliers_iqr (series : float_series) : list bool :=
  let Q1 := quantile series (1 # 4) in
  let Q3 := quantile series (3 # 4) in
  let IQR := lift2 Qminus Q3 Q1 in
  let lower := lift2 Qminus Q1 (lift2 Qmult (Some (3 # 2)) IQR) in
  let upper := lift2 Qplus Q3 (lift2 Qmult (Some (3 # 2)) IQR) in
  map (fun v => negb (between lower upper v)) series.

(** A column seen as [float64]; a column of text or of booleans is not
    one, and [quantile] raises [TypeError] on it. *)
Fixpoint as_floats (s : Series) : option float_series :=
  match s with
  | [] => Some []
  | c :: rest =>
      match c, as_floats rest with
      | VNaN, Some fs => Some (None :: fs)
      | VNum q, Some fs => Some (Some q :: fs)
      | _, _ => None
      end
  end.

Fixpoint outlier_detection (df : DataFrame) (cols : list string)
  : DataFrame * outcome unit :=
  match cols with
  | [] => (df, Returned tt)
  | col :: rest =>
      match get_col df col with
      | None => (df, Raised KeyError)
      | Some s =>
          match as_floats s with
          | None => (df, Raised TypeError)
          | Some fs =>
              outlier_detection
                (set_col df (col ++ "_Outlier")
                         (map VBool (detect_outliers_iqr fs)))
                rest
          end
      end
  end.

(* ================================================================== *)
(** ** Module 4: clinical ranges ([clinical_range_check]) *)

(** [left <= value <= right] for one cell of [df[col].between(low, high)];
    [None] is the [TypeError] of comparing text with a number. *)
Definition cell_between (low high : Q) (c : cell) : option bool :=
  match c with
  | VNaN => Some false
  | VNum v => Some (Qleb low v && Qleb v high)
  | VInf _ => Some false
  | VBool b =>
      let v := if b then 1 else 0 in Some (Qleb low v && Qleb v high)
  | VStr _ => None
  end.

(** [~df[col].between(low, high)] *)
Fixpoint range_errors (low high : Q) (s : Series) : option Series :=
  match s with
  | [] => Some []
  | c :: rest =>
      match cell_between low high c, range_errors low high rest with
      | Some b, Some flags => Some (VBool (negb b) :: flags)
      | _, _ => None
      end
  end.

(** The loop over [ranges.items()]; a field that the frame lacks is
    skipped. *)
Fixpoint clinical_range_check (df : DataFrame)
  (ranges : list (string * (Q * Q))) : DataFrame * outcome unit :=
  match ranges with
  | [] => (df, Returned tt)
  | (col, (low, high)) :: rest =>
      match get_col df col with
      | None => clinical_range_check df rest
      | Some s =>
          match range_errors low high s with
          | None => (df, Raised TypeError)
          | Some flags =>
              clinical_range_check (set_col df (col ++ "_RangeError") flags)
                                   rest
          end
      end
  end.

(* ================================================================== *)
(** ** Module 3b: isolation forest
       ([anomaly_detection_isolation_forest]) *)

(** scikit-learn's [IsolationForest] is no code of this repository; the
    model takes it as an interface.  The estimator draws its randomness
    from a NumPy generator: [fit_predict gen contamination X] returns the
    predictions ([1] or [-1] per record, or an exception) and the state in
    which it leaves the generator. *)
Record IsolationForest : Type := {
  generator : Type;
  seeded : Z -> generator;
  fit_predict :
    generator -> Q -> list float_series -> outcome (list Z) * generator
}.

(** [df[cols]] as numeric columns. *)
Fixpoint select_floats (df : DataFrame) (cols : list string)
  : outcome (list float_series) :=
  match cols with
  | [] => Returned []
  | col :: rest =>
      match get_col df col with
      | None => Raised KeyError
      | Some s =>
          match as_floats s, select_floats df rest with
          | _, Raised e => Raised e
          | None, _ => Raised TypeError
          | Some fs, Returned X => Returned (fs :: X)
          end
      end
  end.

(** [column.fillna(column.median())] *)
Definition fill_median (s : float_series) : float_series :=
  let median := quantile s (1 # 2) in
  map (fun v => match v with Some _ => v | None => median end) s.

Definition default_contamination : Q := 5 # 100.
Definition default_random_state : option Z := Some 42%Z.

(** [random_state] is an integer seed (42 unless the caller says
    otherwise), from which the estimator builds a generator of its own, or
    [None], for which it draws from NumPy's process-wide generator.  The
    state of that process-wide generator is threaded through the call. *)
Definition anomaly_detection_isolation_forest (sk : IsolationForest)
  (global : generator sk) (df : DataFrame) (cols : list string)
  (contamination : Q) (random_state : option Z)
  : DataFrame * generator sk * outcome unit :=
  match select_floats df cols with
  | Raised e => (df, global, Raised e)
  | Returned X =>
      let X := map fill_median X in
      let '(preds, global) :=
        match random_state with
        | Some seed =>
            (fst (fit_predict sk (seeded sk seed) contamination X), global)
        | None => fit_predict sk global contamination X
        end in
      match preds with
      | Raised e => (df, global, Raised e)
      | Returned preds =>
          (set_col df "Row_AnomalyIF"
                   (map (fun p => VBool (Z.eqb p (-1))) preds),
           global, Returned tt)
      end
  end.

(* ================================================================== *)
(** ** The detection stages of [main]

    Lines 192-194: the analyzer, the univariate detector and the
    isolation forest, on the frame that was loaded.  [main] passes the
    configured contamination and leaves [random_state] at its default. *)

Definition detection_stages (sk : IsolationForest) (global : generator sk)
  (df : DataFrame) (zero_missing_cols outlier_cols : list string)
  (contamination : Q) : DataFrame * generator sk * outcome unit :=
  match missing_value_analysis df zero_missing_cols None with
  | (df, Raised e) => (df, global, Raised e)
  | (df, Returned _) =>
      match outlier_detection df outlier_cols with
      | (df, Raised e) => (df, global, Raised e)
      | (df, Returned _) =>
          anomaly_detection_isolation_forest sk global df outlier_cols
            contamination default_random_state
      end
  end.

(* ================================================================== *)
(** ** Module 5: format validation ([pattern_and_format_checks]) *)

(** [isinstance(x, (int, float, np.integer)) and 0 <= x <= 120] for one
    cell of [Age], as [Series.apply] hands it over: a number of the column
    is a Python [int] or [float], NaN included, and a comparison with NaN
    is false; a Python [bool] is an [int], 0 or 1; text is no number. *)
Definition age_plausible (c : cell) : bool :=
  match c with
  | VNum x => Qleb 0 x && Qleb x 120
  | VBool _ => true
  | _ => false
  end.

Definition pattern_and_format_checks (df : DataFrame)
  : DataFrame * outcome unit :=
  match get_col df "Age" with
  | None => (df, Raised KeyError)
  | Some s =>
      (set_col df "Age_FormatError"
               (map (fun c => VBool (negb (age_plausible c))) s),
       Returned tt)
  end.

(* ================================================================== *)
(** ** [main]: the audit of a loaded frame

    Lines 186-197, between the loading of the data and the reports.  The
    configuration is the parsed [config.json]; a key it lacks is [None]
    and [config.get] supplies the default. *)

Record Config : Type := mkConfig {
  cfg_zero_as_missing_cols : option (list string);
  cfg_clinical_ranges : option (list (string * (Q * Q)));
  cfg_outlier_columns : option (list string);
  cfg_error_weights : option dict;
  cfg_contamination : option Q
}.

(** [config.get(key, default)] *)
Definition config_get {A} (entry : option A) (default : A) : A :=
  match entry with Some v => v | None => default end.

(** State after the audit: the frame, the weight table of the
    configuration (the scoring engine completes it), NumPy's process-wide
    generator, and the flag columns scoring returned or the exception. *)
Record audit_run (sk : IsolationForest) : Type := mkAudit {
  audited : DataFrame;
  audit_weights : dict;
  audit_generator : generator sk;
  audit_result : outcome (list string)
}.
Arguments mkAudit {sk}.
Arguments audited {sk}.
Arguments audit_weights {sk}.
Arguments audit_generator {sk}.
Arguments audit_result {sk}.

(** Lines 192-196: the five detectors in the order [main] runs them; a
    stage that raises ends the run with the frame as it then is. *)
Definition detectors (sk : IsolationForest) (global : generator sk)
  (df : DataFrame) (config : Config)
  : DataFrame * generator sk * outcome unit :=
  let zero_missing_cols := config_get (cfg_zero_as_missing_cols config) [] in
  let clinical_ranges := config_get (cfg_clinical_ranges config) [] in
  let outlier_cols := config_get (cfg_outlier_columns config) [] in
  let contamination :=
    config_get (cfg_contamination config) default_contamination in
  match detection_stages sk global df zero_missing_cols outlier_cols
                         contamination with
  | (df, global, Raised e) => (df, global, Raised e)
  | (df, global, Returned _) =>
      match clinical_range_check df clinical_ranges with
      | (df, Raised e) => (df, global, Raised e)
      | (df, Returned _) =>
          match pattern_and_format_checks df with
          | (df, Raised e) => (df, global, Raised e)
          | (df, Returned _) => (df, global, Returned tt)
          end
      end
  end.

(** Lines 186-197: the detectors, then the scoring engine with the weight
    table of the configuration. *)
Definition audit (str_of_value : cell -> string) (sk : IsolationForest)
  (global : generator sk) (df : DataFrame) (config : Config)
  : audit_run sk :=
  let error_weights := config_get (cfg_error_weights config) [] in
  match detectors sk global df config with
  | (df, global, Raised e) => mkAudit df error_weights global (Raised e)
  | (df, global, Returned _) =>
      let run :=
        classify_errors_and_score str_of_value df (Some error_weights) in
      mkAudit (frame_after run)
              (match weights_after run with
               | Some w => w
               | None => error_weights
               end)
              global (result run)
  end.

(* ================================================================== *)
(** ** Vocabulary of the statements *)

Definition is_bool (c : cell) : bool :=
  match c with VBool _ => true | _ => false end.

Fixpoint distinct (l : list string) : bool :=
  match l with
  | [] => true
  | x :: rest => negb (mem x rest) && distinct rest
  end.

Definition rectangularb (df : DataFrame) : bool :=
  forallb (fun c => Nat.eqb (List.length (snd c)) (nrows df)) (cols df).

(** Every column that carries a flag suffix holds booleans. *)
Definition flags_boolean (df : DataFrame) : bool :=
  forallb (fun c => negb (is_error_col (fst c)) || forallb is_bool (snd c))
          (cols df).

(** [reset_index] finds a free name for the old index. *)
Definition can_reset_index (df : DataFrame) : bool :=
  negb (mem "index" (columns df) && mem "level_0" (columns df)).

(** A frame as the detectors hand it to the scoring engine: distinct field
    names, one cell per record in every column, boolean flags. *)
Definition scorable (df : DataFrame) : bool :=
  distinct (columns df) && rectangularb df && flags_boolean df
  && can_reset_index df.

(** Whether flag [col] is true for record [i]. *)
Definition flag_true (df : DataFrame) (col : string) (i : nat) : bool :=
  match get_cell df col i with
  | Some (VBool true) => true
  | _ => false
  end.

(** The weight of a flag: its entry in the table, or 1. *)
Definition weight_of (w : dict) (col : string) : Q :=
  match lookup col w with Some x => x | None => 1 end.

Definition supplied (error_weights : option dict) : dict :=
  match error_weights with Some w => w | None => [] end.

Definition Qsum (l : list Q) : Q := fold_right Qplus 0 l.

(** [Weighted_Errors] of record [i] as the specification defines it. *)
Definition spec_weighted_errors (df : DataFrame) (w : dict) (i : nat) : Q :=
  Qsum (map (fun col => if flag_true df col i then weight_of w col else 0)
            (error_columns df)).

(** [total_weight] as the specification defines it: all values of the
    table, every flag field without an entry counting 1. *)
Definition spec_total_weight (df : DataFrame) (w : dict) : Q :=
  Qsum (map snd w)
  + Qnat (List.length
            (filter (fun col => negb (mem col (map fst w)))
                    (error_columns df))).

(** Number of flags that are true for record [i]. *)
Definition true_flags (df : DataFrame) (i : nat) : nat :=
  List.length (filter (fun col => flag_true df col i) (error_columns df)).

Definition nonnegative (w : dict) : bool :=
  forallb (fun e => Qleb 0 (snd e)) w.

(** [w] without its first entry for [k]. *)
Fixpoint remove_first {A} (k : string) (w : list (string * A))
  : list (string * A) :=
  match w with
  | [] => []
  | (k', v) :: rest =>
      if String.eqb k k' then rest else (k', v) :: remove_first k rest
  end.

(** The three detectors that add one flag column per configured field
    share one shape: for each key, read [df[field]], compute the flags and
    store them as [df[field + suffix]].  [derive] is that loop; a field the
    frame lacks is skipped or stops the loop, as [skip_absent] says, and a
    computation that fails stops it.  The boolean tells whether the loop
    ran to its end. *)
Fixpoint derive {K : Type} (key : K -> string) (suffix : string)
  (f : K -> Series -> option Series) (skip_absent : bool)
  (ks : list K) (df : DataFrame) : DataFrame * bool :=
  match ks with
  | [] => (df, true)
  | k :: rest =>
      match get_col df (key k) with
      | None =>
          if skip_absent then derive key suffix f skip_absent rest df
          else (df, false)
      | Some s =>
          match f k s with
          | None => (df, false)
          | Some flags =>
              derive key suffix f skip_absent rest
                     (set_col df (key k ++ suffix) flags)
          end
      end
  end.

Definition returned {A} (o : outcome A) : bool :=
  match o with Returned _ => true | Raised _ => false end.

(** *** Vocabulary of the missing-value analyzer *)

Definition missing_suffix : string := "_Missing".
Definition completeness_column : string := "Completeness_Score (%)".

Definition markers_of (additional_missing_values : option (list string))
  : list string :=
  match additional_missing_values with
  | None => default_missing_values
  | Some l => l
  end.

(** A cell that holds an explicit missing marker: NaN, or one of the
    placeholder texts. *)
Definition is_missing_marker (markers : list string) (c : cell) : bool :=
  match c with
  | VNaN => true
  | VStr s => mem s markers
  | _ => false
  end.

(** Number of explicit missing markers in record [i]. *)
Definition missing_markers (markers : list string) (df : DataFrame) (i : nat)
  : nat :=
  count_true (map (fun c => is_missing_marker markers (snd c)) (row df i)).

(** Whether field [z] of record [i] is zero. *)
Definition zero_at (df : DataFrame) (i : nat) (z : string) : bool :=
  match get_col df z with
  | Some s => is_zero (nth i s VNaN)
  | None => false
  end.

(** Number of zero-as-missing flags that are true for record [i]. *)
Definition zero_flags_true (df : DataFrame) (zero_cols : list string)
  (i : nat) : nat :=
  List.length (filter (zero_at df i) zero_cols).

(** The original data fields: the columns that are not derived
    [_Missing] flags. *)
Definition data_fields (df : DataFrame) : list string :=
  filter (fun name => negb (ends_with missing_suffix name)) (columns df).

(** A raw frame and a zero-as-missing configuration that fit: one cell
    per record in every column, every configured field a data field of the
    frame, and any [_Missing] flag column already there boolean. *)
Definition auditable (df : DataFrame) (zero_cols : list string) : bool :=
  rectangularb df
  && forallb (fun z => mem z (columns df)
                       && negb (ends_with missing_suffix z)) zero_cols
  && forallb (fun c => negb (ends_with missing_suffix (fst c))
                       || forallb is_bool (snd c)) (cols df).

(** The flags [flag_zeros] computes from one column. *)
Definition zero_flags (_ : string) (s : Series) : option Series :=
  Some (map VBool (map is_zero s)).

(** *** Vocabulary of the outlier and range detectors *)

Definition outlier_suffix : string := "_Outlier".
Definition range_suffix : string := "_RangeError".

(** The flags [outlier_detection] computes from one column. *)
Definition outlier_flags (_ : string) (s : Series) : option Series :=
  match as_floats s with
  | Some fs => Some (map VBool (detect_outliers_iqr fs))
  | None => None
  end.

(** The flags [clinical_range_check] computes for one entry of
    [ranges]. *)
Definition range_flags (entry : string * (Q * Q)) (s : Series)
  : option Series :=
  range_errors (fst (snd entry)) (snd (snd entry)) s.

Definition is_float (c : cell) : bool :=
  match c with VNaN | VNum _ => true | _ => false end.

Definition is_text (c : cell) : bool :=
  match c with VStr _ => true | _ => false end.

(** The configured fields are numeric columns of the frame, and none is
    itself an outlier flag. *)
Definition outlier_inputs (df : DataFrame) (cols : list string) : bool :=
  forallb (fun col =>
             negb (ends_with outlier_suffix col)
             && match get_col df col with
                | Some s => forallb is_float s
                | None => false
                end) cols.

(** [ranges] is a mapping (one entry per field), no field of it is itself
    a range flag, and the fields of it that the frame has hold no text. *)
Definition range_inputs (df : DataFrame) (ranges : list (string * (Q * Q)))
  : bool :=
  distinct (map fst ranges)
  && forallb (fun entry =>
                negb (ends_with range_suffix (fst entry))
                && match get_col df (fst entry) with
                   | Some s => forallb (fun c => negb (is_text c)) s
                   | None => true
                   end) ranges.

(** The Tukey fence of a numeric column. *)
Definition fence_lower (q1 q3 : Q) : Q := q1 - (3 # 2) * (q3 - q1).
Definition fence_upper (q1 q3 : Q) : Q := q3 + (3 # 2) * (q3 - q1).

(** *** Further vocabulary *)

Definition quality_column : string := "Quality_Score (%)".

Definition bookkeeping_names : list string :=
  ["index"; "level_0"; "Row_Index"; "Error_Log"].



(** Counting a property of the cells of record [i], column by column. *)
Definition count_cells (p : cell -> bool) (i : nat)
  (l : list (string * Series)) : nat :=
  List.length (filter (fun c => p (nth i (snd c) VNaN)) l).

(** *** Sample frames and tables *)

Definition plain_str (c : cell) : string :=
  match c with VStr s => s | _ => "?" end.

Definition sample_frame : DataFrame :=
  mkDF 2 [("Glucose", [VNum 0; VNum 100]);
          ("Glucose_Missing", [VBool true; VBool false]);
          ("Glucose_Outlier", [VBool false; VBool false])].

Definition two_flags : DataFrame :=
  mkDF 1 [("A_Outlier", [VBool true]); ("B_Outlier", [VBool false])].

Definition even_weights : dict := [("A_Outlier", 1); ("B_Outlier", 1)].



Definition null_weights : dict := [("A_Outlier", 0)].

Definition raw_sample : DataFrame :=
  mkDF 3 [("Glucose", [VNum 0; VNum 100; VStr "N/A"]);
          ("BMI", [VNum 31; VNaN; VNum 25]);
          ("BMI_Missing", [VBool false; VBool false; VBool false])].

Definition glucose_frame : DataFrame :=
  mkDF 5 [("Glucose", [VNum 90; VNum 100; VNaN; VNum 105; VNum 600]);
          ("BMI", [VNum 80; VNaN; VNum 25; VNum 30; VNum 22])].

(** *** Vocabulary of the quartile properties *)

(** The value read at position [h] of the sorted values [xs]: linear
    interpolation between the neighbours of [h], as [quantile] computes
    it. *)
Definition interpolate (xs : list Q) (x0 : Q) (h : Q) : Q :=
  let lo := Z.to_nat (Qfloor h) in
  let hi := Nat.min (lo + 1) (List.length xs - 1) in
  nth lo xs x0 + (h - Qnat lo) * (nth hi xs x0 - nth lo xs x0).

Definition glucose_values : float_series :=
  [Some 90; Some 100; None; Some 105; Some 600].

(** A cell that still holds one of the placeholder texts. *)
Definition is_placeholder (markers : list string) (c : cell) : bool :=
  match c with VStr s => mem s markers | _ => false end.

(** An estimator for the examples: it draws nothing, rejects an input
    without columns and otherwise calls every record normal. *)
Definition constant_forest : IsolationForest :=
  {| generator := unit;
     seeded := fun _ => tt;
     fit_predict := fun _ _ X =>
       match X with
       | [] => (Raised ValueError, tt)
       | x :: _ => (Returned (map (fun _ => 1%Z) x), tt)
       end |}.

(** *** Vocabulary of the error log *)




(** The columns the scoring engine writes or renames. *)
Definition scoring_names : list string :=
  ["Weighted_Errors"; "Total_Errors"; "Quality_Score (%)";
   "index"; "level_0"; "Row_Index"; "Error_Log"].

(** The positions [0 .. n-1]. *)
Definition positions (n : nat) : Series :=
  map (fun i => VNum (Qnat i)) (seq 0 n).

(** What the model asks of the estimator: when it returns, it returns
    one prediction for each of the [n] records it was given. *)
Definition predicts_each_record (sk : IsolationForest) (n : nat) : Prop :=
  forall (g g' : generator sk) (contamination : Q) (X : list float_series)
         (preds : list Z),
    fit_predict sk g contamination X = (Returned preds, g') ->
    Forall (fun x => List.length x = n) X ->
    List.length preds = n.


(** A raw frame with the [Age] field, and a configuration naming its
    fields. *)
Definition patients : DataFrame :=
  mkDF 3 [("Glucose", [VNum 0; VNum 100; VNum 600]);
          ("Age", [VNum 34; VNum 130; VNaN])].

Definition patients_config : Config :=
  mkConfig (Some ["Glucose"])
           (Some [("Glucose", (70, 200)); ("Insulin", (15, 276))])
           (Some ["Glucose"; "Age"])
           None None.

(** *** Numbers that the machine holds exactly *)

(** A whole number: what JSON and Python hold as an [int]. *)
Definition whole (q : Q) : bool := Qeqb (inject_Z (Qfloor q)) q.

(** Up to [2^53] every whole number is a binary64 value, and an [int64]
    holds it. *)
Definition exact_limit : Q := inject_Z (2 ^ 53).

Definition abs_table (w : dict) : dict :=
  map (fun e => (fst e, Qabs (snd e))) w.

(** The magnitudes of all weights, the entries of the table and the
    defaults of the flags without entry, add up to at most [2^53]. *)
Definition weights_fit (df : DataFrame) (w : dict) : bool :=
  Qleb (spec_total_weight df (abs_table w)) exact_limit.

(** A table of whole numbers within that limit. *)
Definition whole_weights (df : DataFrame) (w : dict) : bool :=
  forallb (fun e => whole (snd e)) w && weights_fit df w.

(** Three records under two flags, and a table of two huge weights. *)
Definition three_records : DataFrame :=
  mkDF 3 [("A_Outlier", [VBool true; VBool false; VBool true]);
          ("B_Outlier", [VBool false; VBool false; VBool true])].

Definition huge_weights : dict :=
  [("A_Outlier", inject_Z (2 ^ 62)); ("B_Outlier", inject_Z (2 ^ 62))].

(** The magnitudes of the whole weights of the flags [cs]. *)
Definition int_magnitudes (W : dict) (cs : list string) : Z :=
  fold_right Z.add 0%Z (map (fun c => Z.abs (Qfloor (weight_of W c))) cs).

(** One record whose only data field is zero. *)
Definition one_zero : DataFrame := mkDF 1 [("Glucose", [VNum 0])].

(** The kinds of flag, and a flag field of a frame: a column named
    [<Field>_<Kind>]. *)
Definition flag_kinds : list string :=
  ["Missing"; "Outlier"; "RangeError"; "FormatError"; "AnomalyIF"].

Definition flag_field (df : DataFrame) (col : string) : Prop :=
  In col (columns df) /\
  exists field kind, In kind flag_kinds /\ col = field ++ "_" ++ kind.




(* ================================================================== *)
(** ** Association lists and strings *)

Lemma mem_In (s : string) (l : list string) : mem s l = true <-> In s l.
Proof.
  unfold mem. rewrite existsb_exists. split.
  - intros [x [Hin Heq]]. apply String.eqb_eq in Heq. now subst.
  - intros Hin. exists s. split; [assumption | apply String.eqb_refl].
Qed.

Lemma mem_false_In (s : string) (l : list string) :
  mem s l = false <-> ~ In s l.
Proof.
  rewrite <- mem_In. destruct (mem s l); split; congruence.
Qed.

Lemma distinct_NoDup (l : list string) : distinct l = true <-> NoDup l.
Proof.
  induction l as [|x l IH]; simpl.
  - split; [constructor | reflexivity].
  - rewrite andb_true_iff, negb_true_iff, mem_false_In, IH.
    split.
    + intros [H1 H2]. now constructor.
    + intros H. inversion H; subst. now split.
Qed.

Section Assoc.
Context {A : Type}.
Implicit Types (l : list (string * A)) (k : string) (v : A).

Lemma lookup_assign_same k v l : lookup k (assign k v l) = Some v.
Proof.
  induction l as [|[k' v'] l IH]; simpl.
  - now rewrite String.eqb_refl.
  - destruct (String.eqb k k') eqn:E; simpl; rewrite E; auto.
Qed.

Lemma lookup_assign_other k k' v l :
  k <> k' -> lookup k (assign k' v l) = lookup k l.
Proof.
  intros Hne. induction l as [|[k'' v''] l IH]; simpl.
  - apply String.eqb_neq in Hne. now rewrite Hne.
  - destruct (String.eqb k' k'') eqn:E; simpl.
    + apply String.eqb_eq in E. subst k''.
      apply String.eqb_neq in Hne. now rewrite Hne.
    + destruct (String.eqb k k''); auto.
Qed.

Lemma lookup_None k l : lookup k l = None <-> ~ In k (map fst l).
Proof.
  induction l as [|[k' v'] l IH]; simpl.
  - tauto.
  - destruct (String.eqb k k') eqn:E.
    + apply String.eqb_eq in E. subst. split; [discriminate | tauto].
    + apply String.eqb_neq in E. rewrite IH. split.
      * intros H [H1 | H1]; [congruence | tauto].
      * tauto.
Qed.

Lemma lookup_Some_In k v l : lookup k l = Some v -> In (k, v) l.
Proof.
  induction l as [|[k' v'] l IH]; simpl; [discriminate |].
  destruct (String.eqb k k') eqn:E.
  - apply String.eqb_eq in E. subst. intros [= ->]. now left.
  - auto.
Qed.

Lemma lookup_mem k l :
  mem k (map fst l) = match lookup k l with Some _ => true | None => false end.
Proof.
  destruct (lookup k l) eqn:E.
  - apply mem_In. destruct (lookup_None k l) as [_ H].
    destruct (in_dec string_dec k (map fst l)) as [Hin | Hn]; auto.
    rewrite (H Hn) in E. discriminate.
  - apply mem_false_In. now apply lookup_None.
Qed.

Lemma lookup_app k l l' :
  lookup k (l ++ l') =
  match lookup k l with Some v => Some v | None => lookup k l' end.
Proof.
  induction l as [|[k' v'] l IH]; simpl; auto.
  destruct (String.eqb k k'); auto.
Qed.

Lemma mem_assign k k' v l :
  mem k (map fst (assign k' v l)) = String.eqb k k' || mem k (map fst l).
Proof.
  rewrite !lookup_mem.
  destruct (String.eqb k k') eqn:E.
  - apply String.eqb_eq in E. subst. now rewrite lookup_assign_same.
  - apply String.eqb_neq in E. now rewrite lookup_assign_other.
Qed.
End Assoc.

Lemma length_append (a b : string) :
  String.length (a ++ b) = (String.length a + String.length b)%nat.
Proof. induction a; simpl; auto. Qed.

Lemma substring_all (s : string) : substring 0 (String.length s) s = s.
Proof. induction s; simpl; congruence. Qed.

Lemma substring_skip (a b : string) (m : nat) :
  substring (String.length a) m (a ++ b) = substring 0 m b.
Proof. induction a; simpl; auto. Qed.

Lemma ends_with_append (suffix c : string) :
  ends_with suffix (c ++ suffix) = true.
Proof.
  unfold ends_with. rewrite length_append.
  replace (String.length c + String.length suffix - String.length suffix)%nat
    with (String.length c) by lia.
  rewrite substring_skip, substring_all, String.eqb_refl.
  rewrite andb_true_r. apply Nat.leb_le. lia.
Qed.

(* ================================================================== *)
(** ** The weight table *)

Lemma Qsum_app (l l' : list Q) : Qsum (l ++ l') == Qsum l + Qsum l'.
Proof.
  induction l as [|x l IH]; simpl; [ring | rewrite IH; ring].
Qed.

Lemma sum_values_from (d : dict) (a : Q) :
  fold_left (fun acc e => acc + snd e) d a == a + Qsum (map snd d).
Proof.
  revert a. induction d as [|e d IH]; intros a; simpl; [ring |].
  rewrite IH. ring.
Qed.

Lemma sum_values_Qsum (d : dict) : sum_values d == Qsum (map snd d).
Proof. unfold sum_values. rewrite sum_values_from. ring. Qed.

Lemma lookup_setdefault (k c : string) (v : Q) (d : dict) :
  lookup k (setdefault c v d) =
  match lookup k d with
  | Some x => Some x
  | None => if String.eqb k c then Some v else None
  end.
Proof.
  unfold setdefault. destruct (lookup c d) eqn:E.
  - destruct (lookup k d) eqn:E'; auto.
    destruct (String.eqb k c) eqn:Ek; auto.
    apply String.eqb_eq in Ek. congruence.
  - rewrite lookup_app. simpl. destruct (lookup k d); auto.
Qed.

Lemma lookup_defaults (k : string) (E : list string) (d : dict) :
  lookup k (fold_left (fun d col => setdefault col 1 d) E d) =
  match lookup k d with
  | Some x => Some x
  | None => if mem k E then Some 1 else None
  end.
Proof.
  revert d. induction E as [|c E IH]; intros d; simpl.
  - destruct (lookup k d); auto.
  - rewrite IH, lookup_setdefault.
    destruct (lookup k d); auto.
    destruct (String.eqb k c); auto.
Qed.

Lemma lookup_fresh_table (k : string) (E : list string) (d : dict) :
  lookup k (fold_left (fun d col => assign col 1 d) E d) =
  if mem k E then Some 1 else lookup k d.
Proof.
  revert d. induction E as [|c E IH]; intros d; simpl; auto.
  rewrite IH. destruct (String.eqb k c) eqn:Ek; simpl.
  - apply String.eqb_eq in Ek. subst.
    rewrite lookup_assign_same. now destruct (mem c E).
  - apply String.eqb_neq in Ek. now rewrite lookup_assign_other.
Qed.

(** The table in force has, for every flag field, the supplied weight or
    1, and otherwise exactly the supplied entries. *)
Lemma lookup_effective (k : string) (E : list string) (ew : option dict) :
  lookup k (effective_weights E ew) =
  if mem k E then Some (weight_of (supplied ew) k)
  else lookup k (supplied ew).
Proof.
  destruct ew as [w|]; simpl.
  - rewrite lookup_defaults. unfold weight_of.
    destruct (lookup k w), (mem k E); auto.
  - rewrite lookup_fresh_table. now destruct (mem k E).
Qed.

Lemma assign_absent (k : string) (v : Q) (d : dict) :
  lookup k d = None -> assign k v d = (d ++ [(k, v)])%list.
Proof.
  induction d as [|[k' v'] d IH]; simpl; auto.
  destruct (String.eqb k k'); [discriminate |].
  intros H. now rewrite IH.
Qed.

Lemma fresh_table_defaults (E : list string) (d : dict) :
  NoDup E -> (forall c, In c E -> lookup c d = None) ->
  fold_left (fun d col => assign col 1 d) E d =
  fold_left (fun d col => setdefault col 1 d) E d.
Proof.
  revert d. induction E as [|c E IH]; intros d Hnd Habs; simpl; auto.
  inversion Hnd as [|? ? Hc HE]; subst.
  assert (Hcd : lookup c d = None) by (apply Habs; now left).
  rewrite assign_absent by assumption.
  unfold setdefault at 2. rewrite Hcd.
  apply IH; auto.
  intros c' Hc'. rewrite lookup_app, Habs by (now right). simpl.
  destruct (String.eqb c' c) eqn:Ecc; auto.
  apply String.eqb_eq in Ecc. subst. contradiction.
Qed.

Lemma Qnat_S (n : nat) : Qnat (S n) == Qnat n + 1.
Proof.
  unfold Qnat. rewrite Nat2Z.inj_succ, <- Z.add_1_r, inject_Z_plus. ring.
Qed.

Lemma sum_defaults (E : list string) (d : dict) :
  NoDup E ->
  Qsum (map snd (fold_left (fun d col => setdefault col 1 d) E d)) ==
  Qsum (map snd d)
  + Qnat (List.length (filter (fun col => negb (mem col (map fst d))) E)).
Proof.
  revert d. induction E as [|c E IH]; intros d Hnd; simpl.
  - unfold Qnat. simpl. ring.
  - inversion Hnd as [|? ? Hc HE]; subst.
    rewrite IH by assumption.
    assert (Hf : forall d' : dict, (forall k, k <> c ->
                  mem k (map fst d') = mem k (map fst d)) ->
              filter (fun col => negb (mem col (map fst d'))) E =
              filter (fun col => negb (mem col (map fst d))) E).
    { intros d' Hd'. apply filter_ext_in. intros k Hk.
      rewrite Hd'; auto. intros ->. contradiction. }
    unfold setdefault. rewrite (lookup_mem c d).
    destruct (lookup c d) eqn:Ec; simpl.
    + reflexivity.
    + rewrite Hf.
      * rewrite map_app, Qsum_app, Qnat_S. simpl. ring.
      * intros k Hk. rewrite map_app. simpl.
        unfold mem. rewrite existsb_app. simpl.
        apply String.eqb_neq in Hk. rewrite Hk.
        now rewrite !orb_false_r.
Qed.

(** [total_weight] of the source is the specification's. *)
Lemma total_weight_spec (df : DataFrame) (ew : option dict) :
  NoDup (error_columns df) ->
  sum_values (effective_weights (error_columns df) ew) ==
  spec_total_weight df (supplied ew).
Proof.
  intros Hnd. rewrite sum_values_Qsum. unfold spec_total_weight.
  destruct ew as [w|]; simpl.
  - now apply sum_defaults.
  - rewrite fresh_table_defaults; auto. now apply sum_defaults.
Qed.

(* ================================================================== *)
(** ** Frames: reading columns, rows and cells *)

Lemma In_columns_get (df : DataFrame) (col : string) :
  In col (columns df) ->
  exists s, get_col df col = Some s /\ In (col, s) (cols df).
Proof.
  intros Hin. unfold get_col.
  destruct (lookup col (cols df)) as [s|] eqn:E.
  - exists s. split; auto. now apply lookup_Some_In.
  - apply lookup_None in E. contradiction.
Qed.

Lemma error_columns_In (df : DataFrame) (col : string) :
  In col (error_columns df) <->
  In col (columns df) /\ is_error_col col = true.
Proof. unfold error_columns. apply filter_In. Qed.

Lemma NoDup_error_columns (df : DataFrame) :
  NoDup (columns df) -> NoDup (error_columns df).
Proof. intros H. unfold error_columns. now apply NoDup_filter. Qed.

Lemma rectangular_length (df : DataFrame) (col : string) (s : Series) :
  rectangularb df = true -> In (col, s) (cols df) ->
  List.length s = nrows df.
Proof.
  unfold rectangularb. rewrite forallb_forall. intros H Hin.
  apply Nat.eqb_eq. exact (H _ Hin).
Qed.

Lemma flags_boolean_series (df : DataFrame) (col : string) (s : Series) :
  flags_boolean df = true -> is_error_col col = true ->
  In (col, s) (cols df) -> forallb is_bool s = true.
Proof.
  unfold flags_boolean. rewrite forallb_forall. intros H He Hin.
  specialize (H _ Hin). simpl in H. rewrite He in H. exact H.
Qed.

Lemma lookup_row (df : DataFrame) (k : string) (i : nat) :
  lookup k (row df i) =
  match get_col df k with
  | Some s => Some (nth i s VNaN)
  | None => None
  end.
Proof.
  unfold row, get_col. induction (cols df) as [|[k' s] l IH]; simpl; auto.
  destruct (String.eqb k k'); auto.
Qed.

Lemma nth_error_nth_default {A} (l : list A) (i : nat) (d : A) :
  (i < List.length l)%nat -> nth_error l i = Some (nth i l d).
Proof.
  revert i. induction l as [|x l IH]; intros [|i] H; simpl in *;
    try lia; auto. apply IH. lia.
Qed.

Lemma forallb_nth {A} (p : A -> bool) (l : list A) (i : nat) (d : A) :
  forallb p l = true -> (i < List.length l)%nat -> p (nth i l d) = true.
Proof.
  intros H Hi. rewrite forallb_forall in H. apply H. now apply nth_In.
Qed.

(** A flag cell of a scorable frame is a boolean, and [flag_true] reads
    it. *)
Lemma flag_cell (df : DataFrame) (col : string) (i : nat) :
  scorable df = true -> In col (error_columns df) -> (i < nrows df)%nat ->
  exists s, get_col df col = Some s /\ List.length s = nrows df /\
            forallb is_bool s = true /\
            nth i s VNaN = VBool (flag_true df col i).
Proof.
  unfold scorable. rewrite !andb_true_iff.
  intros [[[_ Hrect] Hflags] _] Hin Hi.
  apply error_columns_In in Hin. destruct Hin as [Hin He].
  destruct (In_columns_get df col Hin) as [s [Hs Hins]].
  exists s. pose proof (rectangular_length df col s Hrect Hins) as Hlen.
  pose proof (flags_boolean_series df col s Hflags He Hins) as Hb.
  repeat split; auto.
  unfold flag_true, get_cell. rewrite Hs.
  rewrite (nth_error_nth_default s i VNaN) by lia.
  pose proof (forallb_nth is_bool s i VNaN Hb ltac:(lia)) as Hc.
  destruct (nth i s VNaN) as [| | |[|]|]; simpl in Hc; congruence.
Qed.

(* ================================================================== *)
(** ** [Weighted_Errors] *)

Lemma astype_int_bool (s : Series) :
  forallb is_bool s = true ->
  exists zs, astype_int s = Some zs /\ List.length zs = List.length s /\
    forall i, (i < List.length s)%nat ->
      nth i zs 0%Z =
      match nth i s VNaN with VBool true => 1%Z | _ => 0%Z end.
Proof.
  induction s as [|c s IH]; simpl.
  - intros _. exists []. repeat split; auto. intros i Hi. lia.
  - rewrite andb_true_iff. intros [Hc Hs].
    destruct (IH Hs) as [zs [Hzs [Hlen Hnth]]].
    destruct c as [| | |b|]; simpl in Hc; try discriminate.
    simpl. rewrite Hzs. eexists. split; [reflexivity |].
    split; [simpl; congruence |].
    intros [|i] Hi; simpl.
    + now destruct b.
    + apply Hnth. lia.
Qed.

Lemma add_scaled_length (acc : list Q) (ints : list Z) (w : Q) :
  List.length acc = List.length ints ->
  List.length (add_scaled acc ints w) = List.length acc.
Proof.
  intros H. unfold add_scaled.
  rewrite length_map, length_combine. lia.
Qed.

Lemma add_scaled_nth (acc : list Q) (ints : list Z) (w : Q) (i : nat) :
  List.length acc = List.length ints -> (i < List.length acc)%nat ->
  nth i (add_scaled acc ints w) 0 = nth i acc 0 + inject_Z (nth i ints 0%Z) * w.
Proof.
  intros Hlen Hi. unfold add_scaled.
  set (f := fun p : Q * Z => fst p + inject_Z (snd p) * w).
  rewrite (nth_indep _ 0 (f (0, 0%Z)))
    by (rewrite length_map, length_combine; lia).
  rewrite map_nth, combine_nth by assumption. reflexivity.
Qed.

Lemma weighted_errors_spec (df : DataFrame) (W : dict) :
  scorable df = true ->
  forall (cs : list string) (acc : list Q),
    (forall c, In c cs -> In c (error_columns df)) ->
    (forall c, In c cs -> lookup c W <> None) ->
    List.length acc = nrows df ->
    exists we,
      weighted_errors df W cs acc = Returned we /\
      List.length we = nrows df /\
      forall i, (i < nrows df)%nat ->
        nth i we 0 ==
        nth i acc 0
        + Qsum (map (fun col =>
                       if flag_true df col i then weight_of W col else 0) cs).
Proof.
  intros Hsc. induction cs as [|c cs IH]; intros acc Hin HW Hacc; simpl.
  - exists acc. repeat split; auto. intros i _. ring.
  - assert (Hc : In c (error_columns df)) by (apply Hin; now left).
    pose proof Hsc as Hsc'. unfold scorable in Hsc'.
    rewrite !andb_true_iff in Hsc'. destruct Hsc' as [[[_ Hrect] Hflags] _].
    pose proof Hc as Hc'. apply error_columns_In in Hc'.
    destruct Hc' as [Hcin Hce].
    destruct (In_columns_get df c Hcin) as [s [Hs Hins]].
    pose proof (rectangular_length df c s Hrect Hins) as Hlen.
    pose proof (flags_boolean_series df c s Hflags Hce Hins) as Hb.
    destruct (astype_int_bool s Hb) as [zs [Hzs [Hzl Hzn]]].
    rewrite Hs, Hzs.
    destruct (lookup c W) as [wc|] eqn:Ew;
      [| exfalso; apply (HW c); [now left | assumption]].
    destruct (IH (add_scaled acc zs wc)) as [we [Hwe [Hwl Hwn]]].
    + intros c' Hc'. apply Hin. now right.
    + intros c' Hc'. apply HW. now right.
    + rewrite add_scaled_length; lia.
    + exists we. repeat split; auto.
      intros i Hi. rewrite Hwn by assumption.
      rewrite add_scaled_nth by lia.
      rewrite Hzn by lia.
      destruct (flag_cell df c i Hsc Hc Hi) as [s' [Hs' [_ [_ Hcell]]]].
      assert (s' = s) by congruence. subst s'. rewrite Hcell.
      unfold weight_of at 2. rewrite Ew.
      destruct (flag_true df c i); simpl; ring.
Qed.

(* ================================================================== *)
(** ** The frame the scoring engine leaves *)

Lemma get_set_col_same (df : DataFrame) (col : string) (v : Series) :
  get_col (set_col df col v) col = Some v.
Proof. apply lookup_assign_same. Qed.

Lemma get_set_col_other (df : DataFrame) (col k : string) (v : Series) :
  k <> col -> get_col (set_col df col v) k = get_col df k.
Proof. apply lookup_assign_other. Qed.

Lemma lookup_rename (k old new : string) (l : list (string * Series)) :
  k <> old -> k <> new ->
  lookup k (map (fun c => (if String.eqb (fst c) old then new else fst c,
                           snd c)) l) = lookup k l.
Proof.
  intros Ho Hn. induction l as [|[k' s] l IH]; simpl; auto.
  destruct (String.eqb k' old) eqn:E.
  - apply String.eqb_eq in E. subst k'.
    apply String.eqb_neq in Ho, Hn. now rewrite Ho, Hn.
  - destruct (String.eqb k k'); auto.
Qed.

Lemma reset_index_returns (df : DataFrame) :
  can_reset_index df = true ->
  exists name, (name = "index" \/ name = "level_0") /\
    reset_index df =
    Returned (mkDF (nrows df)
                   ((name, map (fun i => VNum (Qnat i)) (seq 0 (nrows df)))
                      :: cols df)).
Proof.
  unfold can_reset_index, reset_index. intros H.
  destruct (mem "index" (columns df)) eqn:E1.
  - destruct (mem "level_0" (columns df)) eqn:E2; [discriminate |].
    exists "level_0". auto.
  - rewrite E1. exists "index". auto.
Qed.

Lemma can_reset_set_col (df : DataFrame) (col : string) (v : Series) :
  col <> "index" -> col <> "level_0" ->
  can_reset_index (set_col df col v) = can_reset_index df.
Proof.
  intros H1 H2. unfold can_reset_index, columns, set_col. simpl.
  rewrite !mem_assign.
  apply not_eq_sym in H1, H2. apply String.eqb_neq in H1, H2.
  now rewrite H1, H2.
Qed.

Lemma mem_cons_false (k x : string) (l : list string) :
  mem k (x :: l) = false -> k <> x /\ mem k l = false.
Proof.
  unfold mem. simpl. rewrite orb_false_iff. intros [H1 H2].
  apply String.eqb_neq in H1. auto.
Qed.

Lemma get_col_after_index (df : DataFrame) (name k : string)
  (rng log : Series) :
  name = "index" \/ name = "level_0" ->
  mem k bookkeeping_names = false ->
  get_col (set_col (rename_column "index" "Row_Index"
                      (mkDF (nrows df) ((name, rng) :: cols df)))
                   "Error_Log" log) k
  = get_col df k.
Proof.
  intros Hname Hk. unfold bookkeeping_names in Hk.
  apply mem_cons_false in Hk. destruct Hk as [H1 Hk].
  apply mem_cons_false in Hk. destruct Hk as [H2 Hk].
  apply mem_cons_false in Hk. destruct Hk as [H3 Hk].
  apply mem_cons_false in Hk. destruct Hk as [H4 _].
  rewrite get_set_col_other by assumption.
  unfold get_col, rename_column. cbn [cols map fst snd lookup].
  rewrite lookup_rename by assumption.
  apply String.eqb_neq in H1, H2, H3.
  destruct Hname as [-> | ->]; cbn; [now rewrite H3 | now rewrite H2].
Qed.

Lemma error_col_not_scoring_name (k : string) :
  is_error_col k = true ->
  mem k bookkeeping_names = false /\
  k <> "Weighted_Errors" /\ k <> "Total_Errors" /\ k <> "Quality_Score (%)".
Proof.
  intros H. repeat split.
  - destruct (mem k bookkeeping_names) eqn:E; auto.
    apply mem_In in E. simpl in E.
    repeat (destruct E as [<- | E]; [discriminate H |]). contradiction.
  - intros ->. discriminate H.
  - intros ->. discriminate H.
  - intros ->. discriminate H.
Qed.

(** What a call on a scorable frame leaves behind. *)
Lemma classify_returns (str_of_value : cell -> string) (df : DataFrame)
  (ew : option dict) :
  scorable df = true ->
  let E := error_columns df in
  let W := effective_weights E ew in
  let run := classify_errors_and_score str_of_value df ew in
  exists we df4,
    List.length we = nrows df /\
    (forall i, (i < nrows df)%nat ->
       nth i we 0 == spec_weighted_errors df (supplied ew) i) /\
    result run = Returned E /\
    nrows df4 = nrows df /\
    (forall k, is_error_col k = true -> get_col df4 k = get_col df k) /\
    (forall k, is_error_col k = true ->
       get_col (frame_after run) k = get_col df k) /\
    get_col (frame_after run) "Weighted_Errors" = Some (map VNum we) /\
    get_col (frame_after run) "Total_Errors" =
      Some (apply_rows (set_col df "Weighted_Errors" (map VNum we))
              (fun r => VNum (total_errors E r))) /\
    get_col (frame_after run) "Quality_Score (%)" =
      Some (map (quality_score (sum_values W)) we) /\
    get_col (frame_after run) "Error_Log" =
      Some (apply_rows df4 (error_log str_of_value E)).
Proof.
  intros Hsc E W run.
  destruct (weighted_errors_spec df W Hsc E (repeat 0 (nrows df)))
    as [we [Hwe [Hlen Hnth]]].
  - auto.
  - intros c Hc. unfold W. rewrite lookup_effective.
    fold E. destruct (mem c E) eqn:Em; [discriminate |].
    apply mem_false_In in Em. contradiction.
  - apply repeat_length.
  - unfold run, classify_errors_and_score. fold E. fold W. rewrite Hwe.
    set (df1 := set_col df "Weighted_Errors" (map VNum we)).
    set (df2 := set_col df1 "Total_Errors" _).
    set (df3 := set_col df2 "Quality_Score (%)" _).
    assert (Hreset : can_reset_index df3 = true).
    { unfold df3, df2, df1.
      rewrite !can_reset_set_col by discriminate.
      unfold scorable in Hsc. rewrite !andb_true_iff in Hsc. tauto. }
    destruct (reset_index_returns df3 Hreset) as [name [Hname Hri]].
    rewrite Hri. cbn [result frame_after].
    set (rng := map (fun i => VNum (Qnat i)) (seq 0 (nrows df3))).
    set (df4 := rename_column "index" "Row_Index"
                  (mkDF (nrows df3) ((name, rng) :: cols df3))).
    assert (H4 : forall k log, mem k bookkeeping_names = false ->
               get_col (set_col df4 "Error_Log" log) k = get_col df3 k).
    { intros k log Hk. unfold df4. now apply get_col_after_index. }
    assert (H4' : forall k, k <> "index" -> k <> "Row_Index" ->
               k <> "level_0" -> get_col df4 k = get_col df3 k).
    { intros k Hk1 Hk2 Hk3. unfold df4, get_col, rename_column.
      cbn [cols map fst snd lookup].
      rewrite lookup_rename by assumption.
      apply String.eqb_neq in Hk1, Hk2, Hk3.
      destruct Hname as [-> | ->]; cbn; [now rewrite Hk2 | now rewrite Hk3]. }
    assert (H3 : forall k, is_error_col k = true ->
               get_col df3 k = get_col df k).
    { intros k Hk. destruct (error_col_not_scoring_name k Hk)
        as [_ [Ha [Hb Hc]]].
      unfold df3, df2, df1. now rewrite !get_set_col_other. }
    exists we, df4. split; [assumption |]. split.
    { intros i Hi. rewrite Hnth by assumption.
      assert (Hr : nth i (repeat 0 (nrows df)) 0 = 0)
        by (apply nth_repeat).
      rewrite Hr. unfold spec_weighted_errors. fold E.
      assert (Hm : map (fun col => if flag_true df col i
                                   then weight_of W col else 0) E =
                   map (fun col => if flag_true df col i
                                   then weight_of (supplied ew) col else 0) E).
      { apply map_ext_in. intros c Hc.
        destruct (flag_true df c i); auto.
        unfold weight_of at 1. unfold W. rewrite lookup_effective.
        apply mem_In in Hc. fold E. now rewrite Hc. }
      rewrite Hm. ring. }
    split; [reflexivity |].
    split; [reflexivity |].
    split.
    { intros k Hk. destruct (error_col_not_scoring_name k Hk) as [Hm _].
      unfold bookkeeping_names in Hm.
      apply mem_cons_false in Hm. destruct Hm as [M1 Hm].
      apply mem_cons_false in Hm. destruct Hm as [M2 Hm].
      apply mem_cons_false in Hm. destruct Hm as [M3 _].
      rewrite H4' by assumption. now apply H3. }
    split.
    { intros k Hk. destruct (error_col_not_scoring_name k Hk) as [Hm _].
      rewrite H4 by assumption. now apply H3. }
    split.
    { rewrite H4 by reflexivity. unfold df3, df2.
      rewrite !get_set_col_other by discriminate.
      apply get_set_col_same. }
    split.
    { rewrite H4 by reflexivity. unfold df3.
      rewrite get_set_col_other by discriminate.
      apply get_set_col_same. }
    split.
    { rewrite H4 by reflexivity. apply get_set_col_same. }
    apply get_set_col_same.
Qed.

Lemma get_cell_map (df : DataFrame) (col : string) (f : Q -> cell)
  (l : list Q) (i : nat) :
  get_col df col = Some (map f l) -> (i < List.length l)%nat ->
  get_cell df col i = Some (f (nth i l 0)).
Proof.
  intros H Hi. unfold get_cell. rewrite H.
  rewrite nth_error_map, (nth_error_nth_default l i 0) by assumption.
  reflexivity.
Qed.

Lemma get_cell_apply_rows (df df' : DataFrame) (col : string)
  (f : list (string * cell) -> cell) (i : nat) :
  get_col df col = Some (apply_rows df' f) -> (i < nrows df')%nat ->
  get_cell df col i = Some (f (row df' i)).
Proof.
  intros H Hi. unfold get_cell. rewrite H. unfold apply_rows.
  rewrite nth_error_map, (nth_error_nth_default _ i 0%nat)
    by (rewrite length_seq; assumption).
  rewrite seq_nth by assumption. reflexivity.
Qed.

(** A flag read from a row of any frame that still has the flag columns
    of [df]. *)
Lemma row_flag (df df' : DataFrame) (col : string) (i : nat) :
  scorable df = true -> In col (error_columns df) -> (i < nrows df)%nat ->
  get_col df' col = get_col df col ->
  row_get (row df' i) col (VBool false) = VBool (flag_true df col i).
Proof.
  intros Hsc Hin Hi Hsame.
  destruct (flag_cell df col i Hsc Hin Hi) as [s [Hs [_ [_ Hcell]]]].
  unfold row_get. rewrite lookup_row, Hsame, Hs. exact Hcell.
Qed.

Lemma total_errors_count (df df' : DataFrame) (i : nat) :
  scorable df = true -> (i < nrows df)%nat ->
  (forall k, is_error_col k = true -> get_col df' k = get_col df k) ->
  total_errors (error_columns df) (row df' i) == Qnat (true_flags df i).
Proof.
  intros Hsc Hi Hsame. unfold total_errors, true_flags.
  assert (G : forall cs acc,
             (forall c, In c cs -> In c (error_columns df)) ->
             fold_left
               (fun a col => a + cell_number (row_get (row df' i) col
                                                      (VBool false)))
               cs acc ==
             acc + Qnat (List.length
                           (filter (fun col => flag_true df col i) cs))).
  { induction cs as [|c cs IH]; intros acc Hcs; simpl.
    - unfold Qnat. simpl. ring.
    - rewrite IH by (intros c' Hc'; apply Hcs; now right).
      assert (Hc : In c (error_columns df)) by (apply Hcs; now left).
      rewrite (row_flag df df' c i Hsc Hc Hi).
      + destruct (flag_true df c i); simpl.
        * rewrite Qnat_S. ring.
        * ring.
      + apply Hsame. now apply error_columns_In in Hc. }
  rewrite G by auto. ring.
Qed.

Lemma total_errors_same_flags (df df' : DataFrame) (i : nat) :
  (forall k, is_error_col k = true -> get_col df' k = get_col df k) ->
  total_errors (error_columns df) (row df' i)
  = total_errors (error_columns df) (row df i).
Proof.
  intros Hsame. unfold total_errors.
  assert (G : forall cs acc,
             (forall c, In c cs -> is_error_col c = true) ->
             fold_left
               (fun a col => a + cell_number (row_get (row df' i) col
                                                      (VBool false)))
               cs acc =
             fold_left
               (fun a col => a + cell_number (row_get (row df i) col
                                                      (VBool false)))
               cs acc).
  { induction cs as [|c cs IH]; intros acc Hcs; simpl; auto.
    rewrite IH by (intros c' Hc'; apply Hcs; now right).
    unfold row_get. rewrite !lookup_row, Hsame; auto.
    apply Hcs. now left. }
  apply G. intros c Hc. now apply error_columns_In in Hc.
Qed.

(** The cell of [Total_Errors]: the sum over the flags of the frame as it
    was handed in. *)
Lemma total_errors_cell (str_of_value : cell -> string) (df : DataFrame)
  (ew : option dict) (i : nat) :
  scorable df = true -> (i < nrows df)%nat ->
  get_cell (frame_after (classify_errors_and_score str_of_value df ew))
           "Total_Errors" i
  = Some (VNum (total_errors (error_columns df) (row df i))).
Proof.
  intros Hsc Hi.
  destruct (classify_returns str_of_value df ew Hsc)
    as [we [df4 [_ [_ [_ [_ [_ [_ [_ [Hte _]]]]]]]]]].
  cbv zeta in Hte.
  rewrite (get_cell_apply_rows _ _ _ _ i Hte) by (simpl; exact Hi).
  do 2 f_equal. apply total_errors_same_flags.
  intros k Hk. destruct (error_col_not_scoring_name k Hk) as [_ [Ha _]].
  now apply get_set_col_other.
Qed.


Lemma quality_score_finite (T x : Q) :
  ~ T == 0 -> quality_score T x = VNum (100 - x / T * 100).
Proof.
  intros HT. unfold quality_score, fdiv, Qeqb.
  destruct (Qeq_bool T 0) eqn:E; [apply Qeq_bool_eq in E; contradiction |].
  reflexivity.
Qed.

Lemma scorable_NoDup (df : DataFrame) :
  scorable df = true -> NoDup (error_columns df).
Proof.
  unfold scorable. rewrite !andb_true_iff. intros [[[H _] _] _].
  apply NoDup_error_columns. now apply distinct_NoDup.
Qed.

(* ------------------------------------------------------------------ *)
(** *** Bounds on [Weighted_Errors] *)

Lemma lookup_remove_first {A} (k c : string) (w : list (string * A)) :
  c <> k -> lookup c (remove_first k w) = lookup c w.
Proof.
  intros Hne. induction w as [|[k' v] w IH]; simpl; auto.
  destruct (String.eqb k k') eqn:E; simpl.
  - apply String.eqb_eq in E. subst k'.
    apply String.eqb_neq in Hne. now rewrite Hne.
  - destruct (String.eqb c k'); auto.
Qed.

Lemma Qsum_remove_first (k : string) (w : dict) :
  Qsum (map snd w) ==
  match lookup k w with Some v => v | None => 0 end
  + Qsum (map snd (remove_first k w)).
Proof.
  induction w as [|[k' v] w IH]; simpl; [ring |].
  destruct (String.eqb k k'); simpl; [ring | rewrite IH; ring].
Qed.

Lemma nonnegative_remove_first (k : string) (w : dict) :
  nonnegative w = true -> nonnegative (remove_first k w) = true.
Proof.
  unfold nonnegative. induction w as [|[k' v] w IH]; simpl; auto.
  rewrite andb_true_iff. intros [Hv Hw].
  destruct (String.eqb k k'); simpl; auto.
  now rewrite Hv, IH.
Qed.

Lemma nonnegative_lookup (k : string) (w : dict) (v : Q) :
  nonnegative w = true -> lookup k w = Some v -> 0 <= v.
Proof.
  unfold nonnegative. rewrite forallb_forall. intros H Hl.
  apply lookup_Some_In in Hl. specialize (H _ Hl).
  now apply Qle_bool_iff in H.
Qed.

Lemma weight_of_nonneg (w : dict) (k : string) :
  nonnegative w = true -> 0 <= weight_of w k.
Proof.
  intros H. unfold weight_of. destruct (lookup k w) eqn:E.
  - eapply nonnegative_lookup; eauto.
  - lra.
Qed.

Lemma Qnat_nonneg (n : nat) : 0 <= Qnat n.
Proof.
  unfold Qnat. change 0 with (inject_Z 0). rewrite <- Zle_Qle. lia.
Qed.

Lemma weighted_le_total (f : string -> bool) (E : list string) :
  NoDup E -> forall w : dict, nonnegative w = true ->
  Qsum (map (fun c => if f c then weight_of w c else 0) E) <=
  Qsum (map snd w)
  + Qnat (List.length (filter (fun c => negb (mem c (map fst w))) E)).
Proof.
  induction 1 as [|c E Hc Hnd IH]; intros w Hw; simpl.
  - pose proof (Qnat_nonneg 0).
    assert (0 <= Qsum (map snd w)).
    { clear -Hw. unfold nonnegative in Hw.
      induction w as [|[k v] w IH]; simpl in *; [lra |].
      rewrite andb_true_iff in Hw. destruct Hw as [Hv Hw].
      apply Qle_bool_iff in Hv. specialize (IH Hw). lra. }
    lra.
  - set (w' := remove_first c w).
    assert (Hsame : map (fun c0 => if f c0 then weight_of w c0 else 0) E =
                    map (fun c0 => if f c0 then weight_of w' c0 else 0) E).
    { apply map_ext_in. intros k Hk. destruct (f k); auto.
      unfold weight_of, w'. rewrite lookup_remove_first; auto.
      intros ->. contradiction. }
    assert (Habs : filter (fun c0 => negb (mem c0 (map fst w))) E =
                   filter (fun c0 => negb (mem c0 (map fst w'))) E).
    { apply filter_ext_in. intros k Hk. rewrite !lookup_mem.
      unfold w'. rewrite lookup_remove_first; auto.
      intros ->. contradiction. }
    rewrite Hsame, Habs.
    specialize (IH w' (nonnegative_remove_first c w Hw)).
    pose proof (Qsum_remove_first c w) as Hsum. fold w' in Hsum.
    pose proof (weight_of_nonneg w c Hw) as Hwc.
    rewrite (lookup_mem c w). unfold weight_of in *.
    destruct (lookup c w) as [v|] eqn:El; simpl.
    + destruct (f c); lra.
    + rewrite Qnat_S. destruct (f c); lra.
Qed.

Lemma weighted_nonneg (f : string -> bool) (E : list string) (w : dict) :
  nonnegative w = true ->
  0 <= Qsum (map (fun c => if f c then weight_of w c else 0) E).
Proof.
  intros Hw. induction E as [|c E IH]; simpl; [lra |].
  pose proof (weight_of_nonneg w c Hw). destruct (f c); lra.
Qed.


Lemma spec_weighted_bounds (df : DataFrame) (w : dict) (i : nat) :
  NoDup (error_columns df) -> nonnegative w = true ->
  0 <= spec_weighted_errors df w i <= spec_total_weight df w.
Proof.
  intros Hnd Hw. unfold spec_weighted_errors, spec_total_weight. split.
  - now apply weighted_nonneg.
  - now apply weighted_le_total.
Qed.

Lemma score_in_range (x T : Q) :
  0 < T -> 0 <= x <= T ->
  0 <= 100 - x / T * 100 <= 100.
Proof.
  intros HT [H0 H1].
  assert (Hlo : 0 <= x / T).
  { apply Qle_shift_div_l; [assumption | lra]. }
  assert (Hhi : x / T <= 1).
  { apply Qle_shift_div_r; [assumption | lra]. }
  split; lra.
Qed.

(* ================================================================== *)
(** ** Properties of the scoring engine *)

(** The cells of [Weighted_Errors] and of the score column. *)
Lemma weighted_cell (str_of_value : cell -> string) (df : DataFrame)
  (ew : option dict) (i : nat) :
  scorable df = true -> (i < nrows df)%nat ->
  let run := classify_errors_and_score str_of_value df ew in
  exists x,
    get_cell (frame_after run) "Weighted_Errors" i = Some (VNum x) /\
    x == spec_weighted_errors df (supplied ew) i /\
    get_cell (frame_after run) quality_column i =
      Some (quality_score
              (sum_values (effective_weights (error_columns df) ew)) x).
Proof.
  intros Hsc Hi run.
  destruct (classify_returns str_of_value df ew Hsc)
    as [we [df4 [Hlen [Hwe [_ [_ [_ [_ [Hw [_ [Hqs _]]]]]]]]]]].
  fold run in Hw, Hqs. exists (nth i we 0). repeat split.
  - apply (get_cell_map _ _ _ _ i Hw). lia.
  - now apply Hwe.
  - apply (get_cell_map _ _ _ _ i Hqs). lia.
Qed.

(** The value stored in the score column. *)
Lemma quality_cell_value (str_of_value : cell -> string)
  (df : DataFrame) (error_weights : option dict) (i : nat) :
  scorable df = true ->
  (i < nrows df)%nat ->
  0 < spec_total_weight df (supplied error_weights) ->
  let run := classify_errors_and_score str_of_value df error_weights in
  result run = Returned (error_columns df) /\
  exists q,
    get_cell (frame_after run) quality_column i = Some (VNum q) /\
    q == 100 * (1 - spec_weighted_errors df (supplied error_weights) i
                     / spec_total_weight df (supplied error_weights)).
Proof.
  intros Hsc Hi HT run.
  destruct (classify_returns str_of_value df error_weights Hsc)
    as [we [df4 [Hlen [Hwe [Hres [_ [_ [_ [_ [_ [Hqs _]]]]]]]]]]].
  fold run in Hres, Hqs. split; [assumption |].
  pose proof (total_weight_spec df error_weights (scorable_NoDup df Hsc))
    as Htot.
  set (T := sum_values (effective_weights (error_columns df) error_weights))
    in *.
  assert (HT0 : ~ T == 0) by (rewrite Htot; lra).
  exists (100 - nth i we 0 / T * 100). split.
  - unfold quality_column.
    rewrite (get_cell_map _ _ _ _ i Hqs) by lia.
    now rewrite quality_score_finite.
  - rewrite (Hwe i Hi), Htot. field. lra.
Qed.

(* ------------------------------------------------------------------ *)
(** *** The [int64] columns *)

Lemma wrap_int64_small (z : Z) :
  (int64_min <= z <= int64_max)%Z -> wrap_int64 z = z.
Proof.
  unfold int64_min, int64_max, wrap_int64. intros H.
  rewrite Z.mod_small by lia. lia.
Qed.

Lemma add_scaled_int64_length (acc ints : list Z) (w : Z) :
  List.length acc = List.length ints ->
  List.length (add_scaled_int64 acc ints w) = List.length acc.
Proof.
  intros H. unfold add_scaled_int64.
  rewrite length_map, length_combine. lia.
Qed.

Lemma add_scaled_int64_nth (acc ints : list Z) (w : Z) (i : nat) :
  List.length acc = List.length ints -> (i < List.length acc)%nat ->
  nth i (add_scaled_int64 acc ints w) 0%Z
  = wrap_int64 (nth i acc 0%Z + wrap_int64 (nth i ints 0%Z * w)).
Proof.
  intros Hlen Hi. unfold add_scaled_int64.
  set (f := fun p : Z * Z => wrap_int64 (fst p + wrap_int64 (snd p * w))).
  rewrite (nth_indep _ 0%Z (f (0%Z, 0%Z)))
    by (rewrite length_map, length_combine; lia).
  rewrite map_nth, combine_nth by assumption. reflexivity.
Qed.

Lemma int_magnitudes_nonneg (W : dict) (cs : list string) :
  (0 <= int_magnitudes W cs)%Z.
Proof.
  unfold int_magnitudes. induction cs as [|c cs IH]; simpl; lia.
Qed.

(** While the magnitudes of the weights still to come fit, no addition
    wraps: the [int64] total is the sum of the whole weights. *)
Lemma weighted_errors_int64_spec (df : DataFrame) (W : dict) :
  scorable df = true ->
  forall (cs : list string) (acc : list Z) (A : Z),
    (forall c, In c cs -> In c (error_columns df)) ->
    (forall c, In c cs -> lookup c W <> None) ->
    List.length acc = nrows df ->
    (forall i, (i < nrows df)%nat -> (Z.abs (nth i acc 0) <= A)%Z) ->
    (0 <= A)%Z ->
    (A + int_magnitudes W cs <= int64_max)%Z ->
    exists zs,
      weighted_errors_int64 df W cs acc = Returned zs /\
      List.length zs = nrows df /\
      forall i, (i < nrows df)%nat ->
        nth i zs 0%Z =
        (nth i acc 0
         + fold_right Z.add 0
             (map (fun col => if flag_true df col i
                              then Qfloor (weight_of W col) else 0) cs))%Z.
Proof.
  intros Hsc. induction cs as [|c cs IH];
    intros acc A Hin HW Hacc HA HA0 Hfit; simpl.
  - exists acc. repeat split; auto. intros i _. lia.
  - assert (Hc : In c (error_columns df)) by (apply Hin; now left).
    pose proof Hsc as Hsc'. unfold scorable in Hsc'.
    rewrite !andb_true_iff in Hsc'. destruct Hsc' as [[[_ Hrect] Hflags] _].
    pose proof Hc as Hc'. apply error_columns_In in Hc'.
    destruct Hc' as [Hcin Hce].
    destruct (In_columns_get df c Hcin) as [s [Hs Hins]].
    pose proof (rectangular_length df c s Hrect Hins) as Hlen.
    pose proof (flags_boolean_series df c s Hflags Hce Hins) as Hb.
    destruct (astype_int_bool s Hb) as [ints [Hints [Hzl Hzn]]].
    rewrite Hs, Hints.
    destruct (lookup c W) as [wc|] eqn:Ew;
      [| exfalso; apply (HW c); [now left | assumption]].
    assert (Hwc : weight_of W c = wc) by (unfold weight_of; now rewrite Ew).
    pose proof (int_magnitudes_nonneg W cs) as Hrest.
    unfold int_magnitudes in Hfit. simpl in Hfit. rewrite Hwc in Hfit.
    fold (int_magnitudes W cs) in Hfit.
    assert (Hb1 : (int64_min <= Qfloor wc <= int64_max)%Z)
      by (unfold int64_min, int64_max in *; lia).
    cbv zeta.
    replace ((int64_min <=? Qfloor wc)%Z && (Qfloor wc <=? int64_max)%Z)
      with true
      by (symmetry; apply andb_true_iff; split; apply Z.leb_le; lia).
    assert (Hstep : forall i, (i < nrows df)%nat ->
              nth i (add_scaled_int64 acc ints (Qfloor wc)) 0%Z
              = (nth i acc 0
                 + (if flag_true df c i then Qfloor wc else 0))%Z).
    { intros i Hi. rewrite add_scaled_int64_nth by lia.
      rewrite Hzn by lia.
      destruct (flag_cell df c i Hsc Hc Hi) as [s' [Hs' [_ [_ Hcell]]]].
      assert (s' = s) by congruence. subst s'. rewrite Hcell.
      specialize (HA i Hi).
      destruct (flag_true df c i).
      - rewrite Z.mul_1_l, (wrap_int64_small (Qfloor wc)) by assumption.
        apply wrap_int64_small. unfold int64_min, int64_max in *. lia.
      - rewrite Z.mul_0_l, (wrap_int64_small 0)
          by (unfold int64_min, int64_max; lia).
        apply wrap_int64_small. unfold int64_min, int64_max in *. lia. }
    destruct (IH (add_scaled_int64 acc ints (Qfloor wc))
                 (A + Z.abs (Qfloor wc))%Z)
      as [zs [Hzs [Hzsl Hzsn]]].
    + intros c' Hc'. apply Hin. now right.
    + intros c' Hc'. apply HW. now right.
    + rewrite add_scaled_int64_length; lia.
    + intros i Hi. rewrite Hstep by assumption. specialize (HA i Hi).
      destruct (flag_true df c i); lia.
    + lia.
    + lia.
    + exists zs. repeat split; auto.
      intros i Hi. rewrite Hzsn, Hstep by assumption. rewrite Hwc. lia.
Qed.

Lemma whole_floor (q : Q) : whole q = true -> inject_Z (Qfloor q) == q.
Proof. unfold whole, Qeqb. apply Qeq_bool_iff. Qed.

Lemma lookup_abs_table (k : string) (w : dict) :
  lookup k (abs_table w) = option_map Qabs (lookup k w).
Proof.
  unfold abs_table. induction w as [|[k' v] w IH]; simpl; auto.
  destruct (String.eqb k k'); auto.
Qed.

Lemma weight_of_abs (w : dict) (k : string) :
  weight_of (abs_table w) k == Qabs (weight_of w k).
Proof.
  unfold weight_of. rewrite lookup_abs_table.
  destruct (lookup k w); simpl; reflexivity.
Qed.

Lemma nonnegative_abs_table (w : dict) : nonnegative (abs_table w) = true.
Proof.
  unfold nonnegative, abs_table. rewrite forallb_forall.
  intros e He. apply in_map_iff in He. destruct He as [e0 [<- _]]. simpl.
  apply Qle_bool_iff. apply Qabs_nonneg.
Qed.

Lemma whole_weight_of (w : dict) (k : string) :
  forallb (fun e => whole (snd e)) w = true -> whole (weight_of w k) = true.
Proof.
  intros H. unfold weight_of. destruct (lookup k w) as [v|] eqn:E.
  - apply lookup_Some_In in E. rewrite forallb_forall in H.
    exact (H _ E).
  - reflexivity.
Qed.

Lemma Qabs_inject_Z (z : Z) : Qabs (inject_Z z) == inject_Z (Z.abs z).
Proof. unfold Qabs, inject_Z. simpl. reflexivity. Qed.

Lemma int_magnitudes_sum (w : dict) (E : list string) :
  forallb (fun e => whole (snd e)) w = true ->
  inject_Z (int_magnitudes w E) ==
  Qsum (map (fun c => weight_of (abs_table w) c) E).
Proof.
  intros Hwhole. unfold int_magnitudes.
  induction E as [|c E IH]; simpl; [reflexivity |].
  rewrite inject_Z_plus, IH, weight_of_abs.
  pose proof (whole_floor (weight_of w c) (whole_weight_of w c Hwhole))
    as Hc.
  rewrite <- Hc at 2. rewrite Qabs_inject_Z. reflexivity.
Qed.

(** Within the limit the magnitudes of the whole weights of the flags
    stay far below what an [int64] holds. *)
Lemma int_magnitudes_fit (df : DataFrame) (w : dict) :
  NoDup (error_columns df) ->
  whole_weights df w = true ->
  (int_magnitudes w (error_columns df) <= 2 ^ 53)%Z.
Proof.
  intros Hnd Hw. unfold whole_weights in Hw. rewrite andb_true_iff in Hw.
  destruct Hw as [Hwhole Hfit].
  unfold weights_fit, Qleb in Hfit. apply Qle_bool_iff in Hfit.
  pose proof (weighted_le_total (fun _ => true) (error_columns df) Hnd
                (abs_table w) (nonnegative_abs_table w)) as Hle.
  fold (spec_total_weight df (abs_table w)) in Hle.
  pose proof (int_magnitudes_sum w (error_columns df) Hwhole) as Hsum.
  unfold exact_limit in Hfit.
  rewrite Zle_Qle, Hsum.
  eapply Qle_trans; [exact Hle | exact Hfit].
Qed.

Lemma int_sum_inject (df : DataFrame) (W w : dict) (i : nat)
  (E : list string) :
  (forall c, In c E -> weight_of W c = weight_of w c) ->
  forallb (fun e => whole (snd e)) w = true ->
  inject_Z (fold_right Z.add 0%Z
              (map (fun col => if flag_true df col i
                               then Qfloor (weight_of W col) else 0%Z) E))
  == Qsum (map (fun col => if flag_true df col i
                           then weight_of w col else 0) E).
Proof.
  intros Hwo Hwhole. induction E as [|c E IH]; simpl; [reflexivity |].
  rewrite inject_Z_plus, IH by (intros c' Hc'; apply Hwo; now right).
  rewrite Hwo by now left.
  destruct (flag_true df c i); [| reflexivity].
  now rewrite whole_floor by now apply whole_weight_of.
Qed.

(** Under a table of whole numbers within the limit the [int64] columns
    hold what the exact sum gives. *)
Lemma scores_int64_cell (df : DataFrame) (ew : option dict) (i : nat) :
  scorable df = true -> (i < nrows df)%nat ->
  whole_weights df (supplied ew) = true ->
  exists we qs x,
    scores_int64 df ew = Returned (we, qs) /\
    nth_error we i = Some x /\
    inject_Z x == spec_weighted_errors df (supplied ew) i /\
    nth_error qs i
    = Some (quality_score
              (sum_values (effective_weights (error_columns df) ew))
              (inject_Z x)).
Proof.
  intros Hsc Hi Hw.
  pose proof (scorable_NoDup df Hsc) as Hnd.
  pose proof (int_magnitudes_fit df (supplied ew) Hnd Hw) as Hfit.
  unfold whole_weights in Hw. rewrite andb_true_iff in Hw.
  destruct Hw as [Hwhole _].
  set (E := error_columns df). set (W := effective_weights E ew).
  assert (HW : forall c, In c E -> lookup c W = Some (weight_of (supplied ew) c)).
  { intros c Hc. unfold W. rewrite lookup_effective.
    apply mem_In in Hc. now rewrite Hc. }
  assert (Hwo : forall c, In c E -> weight_of W c = weight_of (supplied ew) c).
  { intros c Hc. unfold weight_of at 1. now rewrite (HW c Hc). }
  assert (Hmag : int_magnitudes W E = int_magnitudes (supplied ew) E).
  { unfold int_magnitudes. f_equal. apply map_ext_in.
    intros c Hc. now rewrite Hwo. }
  destruct (weighted_errors_int64_spec df W Hsc E (repeat 0%Z (nrows df)) 0%Z)
    as [zs [Hzs [Hlen Hnth]]].
  - auto.
  - intros c Hc. rewrite (HW c Hc). discriminate.
  - apply repeat_length.
  - intros k Hk. rewrite nth_repeat. simpl. lia.
  - lia.
  - rewrite Hmag. fold E in Hfit. unfold int64_max. lia.
  - unfold scores_int64. fold E. fold W. rewrite Hzs.
    exists zs, (map (fun x => quality_score (sum_values W) (inject_Z x)) zs),
           (nth i zs 0%Z).
    split; [reflexivity |]. split.
    + apply nth_error_nth'. lia.
    + split.
      * rewrite (Hnth i Hi), nth_repeat, Z.add_0_l.
        unfold spec_weighted_errors. fold E.
        now apply int_sum_inject.
      * rewrite nth_error_map, (nth_error_nth' zs 0%Z) by lia. reflexivity.
Qed.

(** C3.  For a frame with its flag fields and a weight table of positive
    total weight whose magnitudes add up to at most [2^53], the call
    returns, and the [Quality_Score] of every record is
    [100 * (1 - Weighted_Errors / total_weight)], where [Weighted_Errors]
    adds the weight of every flag that is true, [total_weight] is the sum
    of the table's values, and a flag field without an entry weighs 1.
    When the weights are whole numbers, Python ints, the [int64] columns
    hold these very numbers: no addition wraps. *)
Theorem quality_score_formula (str_of_value : cell -> string)
  (df : DataFrame) (error_weights : option dict) (i : nat) :
  scorable df = true ->
  (i < nrows df)%nat ->
  0 < spec_total_weight df (supplied error_weights) ->
  weights_fit df (supplied error_weights) = true ->
  let run := classify_errors_and_score str_of_value df error_weights in
  let W := spec_weighted_errors df (supplied error_weights) i in
  let T := spec_total_weight df (supplied error_weights) in
  result run = Returned (error_columns df) /\
  (exists q,
     get_cell (frame_after run) quality_column i = Some (VNum q) /\
     q == 100 * (1 - W / T)) /\
  (forallb (fun e => whole (snd e)) (supplied error_weights) = true ->
   exists we qs x q,
     scores_int64 df error_weights = Returned (we, qs) /\
     nth_error we i = Some x /\ inject_Z x == W /\
     nth_error qs i = Some (VNum q) /\
     q == 100 * (1 - W / T)).
Proof.
  intros Hsc Hi HT Hfit. cbv zeta.
  destruct (quality_cell_value str_of_value df error_weights i Hsc Hi HT)
    as [Hres Hq].
  split; [exact Hres |]. split; [exact Hq |].
  intros Hwhole.
  destruct (scores_int64_cell df error_weights i Hsc Hi) as
    [we [qs [x [Hs [Hx [Hxv Hqs]]]]]].
  { unfold whole_weights. now rewrite Hwhole, Hfit. }
  pose proof (total_weight_spec df error_weights (scorable_NoDup df Hsc))
    as Htot.
  rewrite quality_score_finite in Hqs by (rewrite Htot; lra).
  exists we, qs, x. eexists.
  repeat (split; [eassumption |]).
  rewrite Hxv, Htot. field. lra.
Qed.

Lemma quality_score_formula_witness :
  let run := classify_errors_and_score plain_str sample_frame None in
  let W := spec_weighted_errors sample_frame (supplied None) 0 in
  let T := spec_total_weight sample_frame (supplied None) in
  result run = Returned (error_columns sample_frame) /\
  (exists q,
     get_cell (frame_after run) quality_column 0 = Some (VNum q) /\
     q == 100 * (1 - W / T)) /\
  (forallb (fun e => whole (snd e)) (supplied None) = true ->
   exists we qs x q,
     scores_int64 sample_frame None = Returned (we, qs) /\
     nth_error we 0 = Some x /\ inject_Z x == W /\
     nth_error qs 0 = Some (VNum q) /\
     q == 100 * (1 - W / T)).
Proof.
  apply (quality_score_formula plain_str sample_frame None 0).
  - reflexivity.
  - simpl; lia.
  - vm_compute; reflexivity.
  - vm_compute; reflexivity.
Defined.

(** Two flags of weight [2^62] each: the total weight is [2^63], beyond
    the limit, and for the record with both flags the [int64] sum wraps
    to [-2^63].  Its score comes out as 200, where the formula gives 0. *)
Lemma huge_weights_wrap :
  scorable three_records = true /\
  0 < spec_total_weight three_records huge_weights /\
  weights_fit three_records huge_weights = false /\
  forallb (fun e => whole (snd e)) huge_weights = true /\
  spec_weighted_errors three_records huge_weights 2 == inject_Z (2 ^ 63) /\
  exists we qs q,
    scores_int64 three_records (Some huge_weights) = Returned (we, qs) /\
    nth_error we 2 = Some (- 2 ^ 63)%Z /\
    nth_error qs 2 = Some (VNum q) /\
    q == 200 /\
    ~ q == 100 * (1 - spec_weighted_errors three_records huge_weights 2
                      / spec_total_weight three_records huge_weights).
Proof.
  split; [reflexivity |]. split; [vm_compute; reflexivity |].
  split; [reflexivity |].
  split; [reflexivity |]. split; [vm_compute; reflexivity |].
  eexists. eexists. eexists.
  split; [vm_compute; reflexivity |].
  split; [reflexivity |]. split; [reflexivity |].
  split; [vm_compute; reflexivity |].
  vm_compute. discriminate.
Qed.




(* ------------------------------------------------------------------ *)
(** *** A weight that never applies *)







(* ------------------------------------------------------------------ *)
(** *** Zero total weight *)





(* ------------------------------------------------------------------ *)
(** *** The caller's table *)

Lemma weights_after_call (str_of_value : cell -> string) (df : DataFrame)
  (ew : option dict) :
  weights_after (classify_errors_and_score str_of_value df ew) =
  match ew with
  | Some _ => Some (effective_weights (error_columns df) ew)
  | None => None
  end.
Proof.
  unfold classify_errors_and_score.
  destruct (weighted_errors _ _ _ _); [| reflexivity].
  destruct (reset_index _); reflexivity.
Qed.

Lemma defaults_extend (E : list string) (w : dict) :
  exists added,
    fold_left (fun d col => setdefault col 1 d) E w = (w ++ added)%list /\
    Forall (fun e => In (fst e) E /\ snd e = 1 /\ lookup (fst e) w = None)
           added.
Proof.
  revert w. induction E as [|c E IH]; intros w; simpl.
  - exists []. now rewrite app_nil_r.
  - destruct (IH (setdefault c 1 w)) as [added [Heq Hall]].
    unfold setdefault in *. destruct (lookup c w) eqn:Ec.
    + exists added. split; [assumption |].
      eapply Forall_impl; [| exact Hall]. simpl. intuition.
    + exists ((c, 1) :: added). split.
      * rewrite Heq, <- app_assoc. reflexivity.
      * constructor; [simpl; auto |].
        eapply Forall_impl; [| exact Hall]. simpl.
        intros [k v] [H1 [H2 H3]]. simpl in *. repeat split; auto.
        rewrite lookup_app in H3. destruct (lookup k w); [discriminate | auto].
Qed.

Lemma substring_split (s : string) (k : nat) :
  (k <= String.length s)%nat ->
  s = substring 0 k s ++ substring k (String.length s - k) s.
Proof.
  revert k. induction s as [|c s IH]; intros [|k] Hk; simpl in *;
    try lia; try reflexivity.
  - now rewrite substring_all.
  - f_equal. apply IH. lia.
Qed.

Lemma ends_with_suffix (suffix s : string) :
  ends_with suffix s = true -> exists field, s = field ++ suffix.
Proof.
  unfold ends_with. rewrite andb_true_iff. intros [Hle Heq].
  apply Nat.leb_le in Hle. apply String.eqb_eq in Heq.
  exists (substring 0 (String.length s - String.length suffix) s).
  rewrite (substring_split s (String.length s - String.length suffix))
    at 1 by lia.
  f_equal.
  replace (String.length s - (String.length s - String.length suffix))%nat
    with (String.length suffix) by lia.
  exact Heq.
Qed.

(** The flag fields of a frame are what the scoring engine enumerates. *)
Lemma flag_field_listed (df : DataFrame) (col : string) :
  flag_field df col <-> In col (error_columns df).
Proof.
  rewrite error_columns_In. unfold flag_field, is_error_col, flag_suffixes.
  split.
  - intros [Hin [field [kind [Hk ->]]]]. split; [exact Hin |].
    simpl in Hk.
    destruct Hk as [<- | [<- | [<- | [<- | [<- | []]]]]];
      cbn [existsb]; rewrite ?(ends_with_append _ field), ?orb_true_r;
      try reflexivity.
    all: rewrite ends_with_append; reflexivity.
  - intros [Hin He]. split; [exact Hin |].
    cbn [existsb] in He. rewrite !orb_true_iff in He.
    destruct He as [H | [H | [H | [H | [H | H]]]]]; try discriminate;
      apply ends_with_suffix in H; destruct H as [field ->];
      exists field.
    + exists "Missing". split; [simpl; auto | reflexivity].
    + exists "Outlier". split; [simpl; auto 6 | reflexivity].
    + exists "RangeError". split; [simpl; auto 6 | reflexivity].
    + exists "FormatError". split; [simpl; auto 6 | reflexivity].
    + exists "AnomalyIF". split; [simpl; auto 6 | reflexivity].
Qed.

(** C10.  A weight table that the caller supplies is completed in place.
    After the call, whether it returned or raised, the caller's mapping
    is the one supplied followed by the entries added; every flag field
    of the frame, that is every column named [<Field>_<Kind>], has its
    entry: the supplied one, or an added entry of weight 1.  Only flag
    fields without a supplied entry are added, and the supplied entries
    are as they were.  Without a supplied table the caller has no
    mapping to observe. *)
Theorem supplied_table_is_completed (str_of_value : cell -> string)
  (df : DataFrame) (w : dict) :
  weights_after (classify_errors_and_score str_of_value df None) = None /\
  exists w' added,
    weights_after (classify_errors_and_score str_of_value df (Some w))
      = Some w' /\
    w' = (w ++ added)%list /\
    (forall col, flag_field df col ->
       lookup col w' = Some (weight_of w col) /\
       (lookup col w = None -> In (col, 1) added)) /\
    Forall (fun e => flag_field df (fst e) /\ snd e = 1
                     /\ lookup (fst e) w = None) added /\
    (forall k v, lookup k w = Some v -> lookup k w' = Some v) /\
    (forall k, ~ flag_field df k -> lookup k w' = lookup k w).
Proof.
  split; [apply weights_after_call |].
  destruct (defaults_extend (error_columns df) w) as [added [Heq Hall]].
  exists (effective_weights (error_columns df) (Some w)), added.
  split; [apply weights_after_call |].
  split; [exact Heq |].
  assert (Hflag : forall col, flag_field df col ->
            lookup col (effective_weights (error_columns df) (Some w))
            = Some (weight_of w col)).
  { intros col Hcol. apply flag_field_listed in Hcol.
    rewrite lookup_effective. apply mem_In in Hcol. now rewrite Hcol. }
  split; [| split; [| split]].
  - intros col Hcol. split; [now apply Hflag |].
    intros Hnone. specialize (Hflag col Hcol).
    change (effective_weights (error_columns df) (Some w))
      with (fold_left (fun d c => setdefault c 1 d) (error_columns df) w)
      in Hflag.
    rewrite Heq, lookup_app, Hnone in Hflag.
    unfold weight_of in Hflag. rewrite Hnone in Hflag.
    now apply lookup_Some_In.
  - eapply Forall_impl; [| exact Hall]. simpl.
    intros e [H1 H2]. split; [now apply flag_field_listed | exact H2].
  - intros k v Hk. rewrite lookup_effective. simpl.
    destruct (mem k (error_columns df)); auto.
    unfold weight_of. now rewrite Hk.
  - intros k Hk. rewrite lookup_effective.
    rewrite flag_field_listed in Hk.
    apply mem_false_In in Hk. now rewrite Hk.
Qed.

Lemma supplied_table_is_completed_witness :
  flag_field two_flags "B_Outlier" /\
  weights_after
    (classify_errors_and_score plain_str two_flags (Some null_weights))
  = Some [("A_Outlier", 0); ("B_Outlier", 1)] /\
  exists w' added,
    weights_after
      (classify_errors_and_score plain_str two_flags (Some null_weights))
      = Some w' /\
    w' = (null_weights ++ added)%list /\
    In ("B_Outlier", 1) added /\
    lookup "A_Outlier" w' = Some 0.
Proof.
  assert (Hflag : flag_field two_flags "B_Outlier").
  { split; [simpl; auto |].
    exists "B", "Outlier". split; [simpl; auto | reflexivity]. }
  split; [exact Hflag |]. split; [reflexivity |].
  destruct (supplied_table_is_completed plain_str two_flags null_weights)
    as [_ [w' [added [Hafter [Heq [Hcol [_ [Hkeep _]]]]]]]].
  exists w', added. split; [exact Hafter |]. split; [exact Heq |].
  split.
  - apply (Hcol "B_Outlier" Hflag). reflexivity.
  - apply Hkeep. reflexivity.
Defined.

(* ================================================================== *)
(** ** Loops that add one flag column per field *)

Lemma append_cancel_r (a b s : string) : a ++ s = b ++ s -> a = b.
Proof.
  revert b. induction a as [|x a IH]; intros [|y b] H; simpl in *; auto.
  - exfalso. apply (f_equal String.length) in H. simpl in H.
    rewrite length_append in H. lia.
  - exfalso. apply (f_equal String.length) in H. simpl in H.
    rewrite length_append in H. lia.
  - injection H as -> H. f_equal. now apply IH.
Qed.

Lemma assign_keeps_others {A} (p : string -> bool) (k : string) (v : A)
  (l : list (string * A)) :
  p k = false ->
  filter (fun c => p (fst c)) (assign k v l) = filter (fun c => p (fst c)) l.
Proof.
  intros Hk. induction l as [|[k' v'] l IH]; simpl.
  - now rewrite Hk.
  - destruct (String.eqb k k') eqn:E; simpl.
    + apply String.eqb_eq in E. subst k'. now rewrite Hk.
    + rewrite IH. reflexivity.
Qed.

Lemma assign_Forall {A} (P : string * A -> Prop) (k : string) (v : A)
  (l : list (string * A)) :
  Forall P l -> (forall k', P (k', v)) -> Forall P (assign k v l).
Proof.
  intros Hl Hv. induction l as [|[k' v'] l IH]; simpl.
  - constructor; auto.
  - inversion Hl; subst. destruct (String.eqb k k'); constructor; auto.
Qed.

Section Derive.
Context {K : Type} (key : K -> string) (suffix : string)
        (f : K -> Series -> option Series) (skip_absent : bool).

Local Abbreviation run := (derive key suffix f skip_absent).

Lemma derive_nrows (ks : list K) (df : DataFrame) :
  nrows (fst (run ks df)) = nrows df.
Proof.
  revert df. induction ks as [|k ks IH]; intros df; simpl; auto.
  destruct (get_col df (key k)) as [s|].
  - destruct (f k s); simpl; auto. now rewrite IH.
  - destruct skip_absent; simpl; auto.
Qed.

(** Only the columns [field + suffix] of the configured fields are
    written. *)
Lemma derive_other_columns (ks : list K) (df : DataFrame) (name : string) :
  (forall k, In k ks -> name <> key k ++ suffix) ->
  get_col (fst (run ks df)) name = get_col df name.
Proof.
  revert df. induction ks as [|k ks IH]; intros df Hname; simpl; auto.
  assert (Hrest : forall k', In k' ks -> name <> key k' ++ suffix)
    by (intros k' Hk'; apply Hname; now right).
  destruct (get_col df (key k)) as [s|].
  - destruct (f k s) as [v|]; simpl; auto.
    rewrite IH by assumption.
    apply get_set_col_other. apply Hname. now left.
  - destruct skip_absent; simpl; auto.
Qed.

(** The columns that do not carry the suffix stay as they are, in their
    order. *)
Lemma derive_data_columns (ks : list K) (df : DataFrame) :
  filter (fun c => negb (ends_with suffix (fst c))) (cols (fst (run ks df)))
  = filter (fun c => negb (ends_with suffix (fst c))) (cols df).
Proof.
  revert df. induction ks as [|k ks IH]; intros df; simpl; auto.
  destruct (get_col df (key k)) as [s|].
  - destruct (f k s) as [v|]; simpl; auto.
    rewrite IH. unfold set_col. simpl.
    apply (assign_keeps_others (fun n => negb (ends_with suffix n))).
    now rewrite ends_with_append.
  - destruct skip_absent; simpl; auto.
Qed.

(** A property of all computed flag columns holds of every column of the
    result that carries the suffix, if it held of those of the frame. *)
Lemma derive_flag_columns (P : Series -> Prop) (ks : list K)
  (df : DataFrame) :
  (forall k s v, f k s = Some v -> P v) ->
  Forall (fun c => ends_with suffix (fst c) = true -> P (snd c)) (cols df) ->
  Forall (fun c => ends_with suffix (fst c) = true -> P (snd c))
         (cols (fst (run ks df))).
Proof.
  intros Hf. revert df. induction ks as [|k ks IH]; intros df Hdf;
    simpl; auto.
  destruct (get_col df (key k)) as [s|].
  - destruct (f k s) as [v|] eqn:Ef; simpl; auto.
    apply IH. unfold set_col. simpl.
    apply assign_Forall; auto. intros k' _. simpl. eauto.
  - destruct skip_absent; simpl; auto.
Qed.

Lemma derive_all_columns (P : Series -> Prop) (ks : list K)
  (df : DataFrame) :
  (forall k s v, P s -> f k s = Some v -> P v) ->
  Forall (fun c => P (snd c)) (cols df) ->
  Forall (fun c => P (snd c)) (cols (fst (run ks df))).
Proof.
  intros Hf. revert df. induction ks as [|k ks IH]; intros df Hdf;
    simpl; auto.
  destruct (get_col df (key k)) as [s|] eqn:Es.
  - destruct (f k s) as [v|] eqn:Ef; simpl; auto.
    apply IH. unfold set_col. simpl.
    apply assign_Forall; auto. intros k'. simpl.
    apply (Hf k s v); auto.
    apply lookup_Some_In in Es. rewrite Forall_forall in Hdf.
    exact (Hdf _ Es).
  - destruct skip_absent; simpl; auto.
Qed.

(** When no configured field carries the suffix itself and every flag
    computation succeeds, the loop runs to its end and the column
    [field + suffix] holds the flags computed from the field as the frame
    had it before the loop. *)
Lemma derive_flags (ks : list K) (df : DataFrame) :
  (forall k, In k ks -> ends_with suffix (key k) = false) ->
  (forall k, In k ks ->
     match get_col df (key k) with
     | Some s => f k s <> None
     | None => skip_absent = true
     end) ->
  snd (run ks df) = true /\
  forall k s, In k ks -> get_col df (key k) = Some s ->
    (forall k', In k' ks -> key k' = key k -> f k' s = f k s) ->
    get_col (fst (run ks df)) (key k ++ suffix) = f k s.
Proof.
  revert df. induction ks as [|k0 ks IH]; intros df Hsuf Hok.
  - simpl. split; [reflexivity | intros k s []].
  - assert (Hsuf' : forall k, In k ks -> ends_with suffix (key k) = false)
      by (intros k Hk; apply Hsuf; now right).
    assert (Hdiff : forall k k', In k (k0 :: ks) ->
               key k <> key k' ++ suffix).
    { intros k k' Hk Heq. specialize (Hsuf k Hk).
      rewrite Heq, ends_with_append in Hsuf. discriminate. }
    pose proof (Hok k0 (or_introl eq_refl)) as H0.
    simpl. destruct (get_col df (key k0)) as [s0|] eqn:E0.
    + destruct (f k0 s0) as [v0|] eqn:Ef0; [| congruence].
      set (df1 := set_col df (key k0 ++ suffix) v0).
      assert (Hsame : forall k, In k (k0 :: ks) ->
                 get_col df1 (key k) = get_col df (key k)).
      { intros k Hk. apply get_set_col_other. now apply Hdiff. }
      destruct (IH df1 Hsuf') as [Hrun Hval].
      { intros k Hk. rewrite Hsame by (now right). apply Hok. now right. }
      split; [exact Hrun |].
      intros k s Hk Hs Huniq.
      destruct (in_dec string_dec (key k) (map key ks)) as [Hin | Hnin].
      * apply in_map_iff in Hin. destruct Hin as [k' [Hkk' Hk']].
        rewrite <- Hkk'. rewrite (Hval k' s Hk').
        -- apply Huniq; [now right | assumption].
        -- rewrite Hsame by (now right). now rewrite Hkk'.
        -- intros k'' Hk'' Heq.
           rewrite (Huniq k'') by (try (now right); congruence).
           symmetry. apply Huniq; [now right | assumption].
      * destruct Hk as [<- | Hk];
          [| exfalso; apply Hnin; now apply in_map].
        rewrite derive_other_columns.
        -- unfold df1. rewrite get_set_col_same. congruence.
        -- intros k' Hk' Heq. apply append_cancel_r in Heq.
           apply Hnin. rewrite Heq. now apply in_map.
    + assert (Hstep : (if skip_absent then run ks df else (df, false))
                      = run ks df) by (now rewrite H0).
      rewrite Hstep. destruct (IH df Hsuf') as [Hrun Hval].
      { intros k Hk. apply Hok. now right. }
      split; [exact Hrun |].
      intros k s Hk Hs Huniq.
      destruct Hk as [<- | Hk]; [congruence |].
      apply Hval; auto.
Qed.
End Derive.

(* ================================================================== *)
(** ** The missing-value analyzer *)

Lemma flag_zeros_derive (zs : list string) (df : DataFrame)
  (summary : list (string * nat)) :
  fst (flag_zeros zs df summary)
    = fst (derive (fun z => z) missing_suffix zero_flags false zs df) /\
  returned (snd (flag_zeros zs df summary))
    = snd (derive (fun z => z) missing_suffix zero_flags false zs df).
Proof.
  revert df summary. induction zs as [|z zs IH]; intros df summary; simpl.
  - auto.
  - destruct (get_col df z) as [s|]; simpl; auto.
Qed.

(** Once the loop has run to its end, the flag column of every configured
    field holds booleans: the cells [completeness] adds up. *)
Lemma flag_zeros_boolean (zs : list string) (df df' : DataFrame)
  (summary out : list (string * nat)) (z : string) :
  flag_zeros zs df summary = (df', Returned out) -> In z zs ->
  exists flags, get_col df' (z ++ missing_suffix) = Some (map VBool flags).
Proof.
  revert df summary. induction zs as [|z0 zs IH]; intros df summary Hrun Hz.
  - destruct Hz.
  - simpl in Hrun. destruct (get_col df z0) as [s|] eqn:Es;
      [| discriminate].
    destruct (in_dec string_dec z zs) as [Hin | Hnin].
    + eapply IH; eauto.
    + destruct Hz as [-> | Hz]; [| contradiction].
      exists (map is_zero s).
      pose proof (flag_zeros_derive zs
                    (set_col df (z ++ "_Missing") (map VBool (map is_zero s)))
                    (assign (z ++ "_Zeros_as_Missing")
                            (count_true (map is_zero s)) summary))
        as [Hfst _].
      rewrite Hrun in Hfst. simpl in Hfst. rewrite Hfst.
      rewrite derive_other_columns.
      * apply get_set_col_same.
      * intros k Hk Heq. apply append_cancel_r in Heq. congruence.
Qed.

Lemma replace_frame_get (markers : list string) (df : DataFrame)
  (k : string) :
  get_col (replace_frame markers df) k =
  match get_col df k with
  | Some s => Some (map (replace_missing markers) s)
  | None => None
  end.
Proof.
  unfold get_col, replace_frame. simpl.
  induction (cols df) as [|[k' s] l IH]; simpl; auto.
  destruct (String.eqb k k'); auto.
Qed.

Lemma isnull_replace (markers : list string) (c : cell) :
  isnull (replace_missing markers c) = is_missing_marker markers c.
Proof.
  destruct c; simpl; auto. destruct (mem s markers); reflexivity.
Qed.

Lemma is_zero_replace (markers : list string) (c : cell) :
  is_zero (replace_missing markers c) = is_zero c.
Proof.
  destruct c; simpl; auto. destruct (mem s markers); reflexivity.
Qed.

Lemma is_bool_replace (markers : list string) (c : cell) :
  is_bool (replace_missing markers c) = is_bool c.
Proof.
  destruct c; simpl; auto. destruct (mem s markers); reflexivity.
Qed.

Lemma nth_replace (markers : list string) (s : Series) (i : nat) :
  nth i (map (replace_missing markers) s) VNaN
  = replace_missing markers (nth i s VNaN).
Proof. apply (map_nth (replace_missing markers) s VNaN i). Qed.

Lemma filter_length_complement {A} (p : A -> bool) (l : list A) :
  (List.length l - List.length (filter p l))%nat
  = List.length (filter (fun x => negb (p x)) l).
Proof.
  induction l as [|x l IH]; cbn [filter List.length]; auto.
  pose proof (filter_length_le p l).
  destruct (p x); cbn [negb List.length]; lia.
Qed.

Lemma filter_map_fst {A} (p : string -> bool) (l : list (string * A)) :
  filter p (map fst l) = map fst (filter (fun c => p (fst c)) l).
Proof.
  induction l as [|[k v] l IH]; simpl; auto.
  destruct (p k); simpl; now rewrite IH.
Qed.

Lemma lookup_filter {A} (p : string -> bool) (k : string)
  (l : list (string * A)) :
  p k = true -> lookup k (filter (fun c => p (fst c)) l) = lookup k l.
Proof.
  intros Hk. induction l as [|[k' v] l IH]; simpl; auto.
  destruct (p k') eqn:Ep; simpl.
  - destruct (String.eqb k k'); auto.
  - destruct (String.eqb k k') eqn:E; auto.
    apply String.eqb_eq in E. congruence.
Qed.

Lemma count_true_filter {A} (p : A -> bool) (l : list A) :
  count_true (map p l) = List.length (filter p l).
Proof.
  unfold count_true. induction l as [|x l IH]; simpl; auto.
  destruct (p x); simpl; auto.
Qed.

Lemma count_row (p : cell -> bool) (df : DataFrame) (i : nat) :
  count_true (map (fun c => p (snd c)) (row df i))
  = count_cells p i (cols df).
Proof.
  unfold row, count_cells. rewrite map_map. simpl.
  apply (count_true_filter (fun c => p (nth i (snd c) VNaN))).
Qed.

Lemma count_cells_split (p : cell -> bool) (q : string -> bool) (i : nat)
  (l : list (string * Series)) :
  count_cells p i l
  = (count_cells p i (filter (fun c => negb (q (fst c))) l)
     + count_cells p i (filter (fun c => q (fst c)) l))%nat.
Proof.
  unfold count_cells. induction l as [|[k s] l IH]; simpl; auto.
  destruct (q k); simpl; destruct (p (nth i s VNaN)); simpl; lia.
Qed.

Lemma count_cells_none (p : cell -> bool) (i : nat)
  (l : list (string * Series)) :
  (forall c, In c l -> p (nth i (snd c) VNaN) = false) ->
  count_cells p i l = 0%nat.
Proof.
  intros H. unfold count_cells.
  induction l as [|[k s] l IH]; simpl; auto.
  pose proof (H (k, s) (or_introl eq_refl)) as Hc. simpl in Hc.
  rewrite Hc. apply IH. intros c' Hc'. apply H. now right.
Qed.

(** The flag columns of a frame hold no missing marker in record [i]. *)
Lemma flag_columns_unmarked (p : cell -> bool) (i n : nat)
  (l : list (string * Series)) :
  (forall b, p (VBool b) = false) ->
  (i < n)%nat ->
  Forall (fun c => List.length (snd c) = n) l ->
  Forall (fun c => ends_with missing_suffix (fst c) = true ->
                   forallb is_bool (snd c) = true) l ->
  count_cells p i (filter (fun c => ends_with missing_suffix (fst c)) l)
  = 0%nat.
Proof.
  intros Hp Hi Hlen Hbool. apply count_cells_none.
  intros c Hc. apply filter_In in Hc. destruct Hc as [Hin Hsuf].
  rewrite Forall_forall in Hlen, Hbool.
  specialize (Hlen c Hin). specialize (Hbool c Hin Hsuf).
  cbv beta in Hlen, Hbool.
  assert (Hx : (i < List.length (snd c))%nat) by (unfold Series in *; lia).
  pose proof (forallb_nth is_bool (snd c) i VNaN Hbool Hx) as Hc.
  destruct (nth i (snd c) VNaN); simpl in Hc; try discriminate. apply Hp.
Qed.

Lemma count_cells_replace (markers : list string) (q : string -> bool)
  (i : nat) (l : list (string * Series)) :
  count_cells isnull i
    (filter (fun c => q (fst c))
       (map (fun c => (fst c, map (replace_missing markers) (snd c))) l))
  = count_cells (is_missing_marker markers) i (filter (fun c => q (fst c)) l).
Proof.
  unfold count_cells. induction l as [|[k s] l IH]; simpl; auto.
  destruct (q k); simpl; auto.
  rewrite nth_replace, isnull_replace.
  destruct (is_missing_marker markers (nth i s VNaN)); simpl; auto.
Qed.

(** What the analyzer leaves: the frame after the zero-as-missing loop,
    with the completeness column added. *)
Lemma analysis_returns (df : DataFrame) (zs : list string)
  (amv : option (list string)) :
  auditable df zs = true ->
  let df0 := replace_frame (markers_of amv) df in
  exists df' table,
    missing_value_analysis df zs amv =
      (set_col df' completeness_column
               (apply_rows df' (completeness zs (data_cols_count df'))),
       Returned table) /\
    nrows df' = nrows df /\
    Forall (fun c => List.length (snd c) = nrows df) (cols df') /\
    Forall (fun c => ends_with missing_suffix (fst c) = true ->
                     forallb is_bool (snd c) = true) (cols df') /\
    filter (fun c => negb (ends_with missing_suffix (fst c))) (cols df')
      = filter (fun c => negb (ends_with missing_suffix (fst c))) (cols df0) /\
    forall z, In z zs ->
      exists s, get_col df z = Some s /\ List.length s = nrows df /\
        get_col df' (z ++ missing_suffix)
          = Some (map VBool (map is_zero s)).
Proof.
  unfold auditable. rewrite !andb_true_iff. intros [[Hrect Hzs] Hflags].
  unfold missing_value_analysis. fold (markers_of amv).
  set (df0 := replace_frame (markers_of amv) df).
  rewrite forallb_forall in Hzs.
  assert (Hrect0 : Forall (fun c => List.length (snd c) = nrows df)
                          (cols df0)).
  { unfold rectangularb in Hrect. rewrite forallb_forall in Hrect.
    apply Forall_forall. intros c Hc. unfold df0, replace_frame in Hc.
    simpl in Hc. apply in_map_iff in Hc. destruct Hc as [c0 [<- Hc0]].
    simpl. rewrite length_map. apply Nat.eqb_eq. now apply Hrect. }
  assert (Hflags0 : Forall (fun c => ends_with missing_suffix (fst c) = true ->
                                     forallb is_bool (snd c) = true)
                           (cols df0)).
  { rewrite forallb_forall in Hflags.
    apply Forall_forall. intros c Hc Hsuf. unfold df0, replace_frame in Hc.
    simpl in Hc. apply in_map_iff in Hc. destruct Hc as [c0 [<- Hc0]].
    simpl in *. specialize (Hflags c0 Hc0). rewrite Hsuf in Hflags.
    simpl in Hflags. rewrite forallb_forall in Hflags.
    apply forallb_forall. intros x Hx. apply in_map_iff in Hx.
    destruct Hx as [x0 [<- Hx0]]. rewrite is_bool_replace. now apply Hflags. }
  assert (Hcols : forall z, In z zs ->
            ends_with missing_suffix z = false /\
            exists s, get_col df z = Some s /\ List.length s = nrows df /\
              get_col df0 z = Some (map (replace_missing (markers_of amv)) s)).
  { intros z Hz. specialize (Hzs z Hz). rewrite andb_true_iff in Hzs.
    destruct Hzs as [Hmem Hsuf]. apply negb_true_iff in Hsuf.
    split; [assumption |]. apply mem_In in Hmem.
    destruct (In_columns_get df z Hmem) as [s [Hs Hin]].
    exists s. split; [assumption |]. split.
    - eapply rectangular_length; eauto.
    - unfold df0. now rewrite replace_frame_get, Hs. }
  destruct (flag_zeros_derive zs df0 (null_counts df0)) as [Hfst Hsnd].
  set (D := derive (fun z => z) missing_suffix zero_flags false zs df0)
    in *.
  destruct (derive_flags (fun z => z) missing_suffix zero_flags false zs df0)
    as [Hrun Hval].
  { intros z Hz. now apply Hcols. }
  { intros z Hz. destruct (Hcols z Hz) as [_ [s [_ [_ Hs0]]]].
    rewrite Hs0. discriminate. }
  fold D in Hrun, Hval.
  destruct (flag_zeros zs df0 (null_counts df0)) as [df' [summary | e]];
    simpl in Hfst, Hsnd; [| congruence].
  exists df'. eexists. split; [reflexivity |].
  rewrite Hfst. unfold D.
  split; [exact (derive_nrows (fun z => z) missing_suffix zero_flags false
                  zs df0) |].
  split.
  { apply (derive_all_columns (fun z => z) missing_suffix zero_flags false
             (fun s => List.length s = nrows df)); auto.
    intros k s v Hs [= <-]. now rewrite !length_map. }
  split.
  { apply (derive_flag_columns (fun z => z) missing_suffix zero_flags false
             (fun s => forallb is_bool s = true)); auto.
    intros k s v [= <-]. apply forallb_forall. intros x Hx.
    apply in_map_iff in Hx. destruct Hx as [b [<- _]]. reflexivity. }
  split; [apply derive_data_columns |].
  intros z Hz. destruct (Hcols z Hz) as [_ [s [Hs [Hlen Hs0]]]].
  exists s. split; [assumption |]. split; [assumption |].
  fold D. rewrite (Hval z _ Hz Hs0) by (intros; subst; reflexivity).
  unfold zero_flags. do 2 f_equal. rewrite map_map.
  apply map_ext. intros c. apply is_zero_replace.
Qed.

Lemma filter_replace (markers : list string) (q : string -> bool)
  (l : list (string * Series)) :
  filter (fun c => q (fst c))
         (map (fun c => (fst c, map (replace_missing markers) (snd c))) l)
  = map (fun c => (fst c, map (replace_missing markers) (snd c)))
        (filter (fun c => q (fst c)) l).
Proof.
  induction l as [|[k s] l IH]; simpl; auto.
  destruct (q k); simpl; now rewrite IH.
Qed.

Lemma nth_flags (p : cell -> bool) (s : Series) (i : nat) :
  (i < List.length s)%nat ->
  nth i (map VBool (map p s)) VNaN = VBool (p (nth i s VNaN)).
Proof.
  intros Hi. rewrite map_map.
  rewrite (nth_indep _ VNaN (VBool (p VNaN))) by (now rewrite length_map).
  apply (map_nth (fun c => VBool (p c))).
Qed.

Lemma markers_in_data_fields (markers : list string) (df : DataFrame)
  (zs : list string) (i : nat) :
  auditable df zs = true -> (i < nrows df)%nat ->
  missing_markers markers df i
  = count_cells (is_missing_marker markers) i
      (filter (fun c => negb (ends_with missing_suffix (fst c))) (cols df)).
Proof.
  unfold auditable. rewrite !andb_true_iff. intros [[Hrect _] Hflags] Hi.
  unfold missing_markers. rewrite count_row.
  rewrite (count_cells_split _ (ends_with missing_suffix)).
  rewrite (flag_columns_unmarked _ i (nrows df)); auto.
  - unfold rectangularb in Hrect. rewrite forallb_forall in Hrect.
    apply Forall_forall. intros c Hc. apply Nat.eqb_eq. now apply Hrect.
  - rewrite forallb_forall in Hflags.
    apply Forall_forall. intros c Hc Hsuf. specialize (Hflags c Hc).
    rewrite Hsuf in Hflags. exact Hflags.
Qed.

(** The cell of the completeness column. *)
Lemma completeness_cell (df : DataFrame) (zs : list string)
  (amv : option (list string)) (i : nat) :
  auditable df zs = true -> (i < nrows df)%nat ->
  returned (snd (missing_value_analysis df zs amv)) = true /\
  get_cell (fst (missing_value_analysis df zs amv)) completeness_column i
  = Some (fscale
            (fsub_from 1
               (fdiv (Qnat (missing_markers (markers_of amv) df i
                            + zero_flags_true df zs i))
                     (Qnat (List.length (data_fields df)))))
            100).
Proof.
  intros Haud Hi.
  destruct (analysis_returns df zs amv Haud)
    as [df' [table [Hrun [Hn [Hlen [Hbool [Hdata Hz]]]]]]].
  rewrite Hrun. simpl fst. simpl snd. split; [reflexivity |].
  rewrite (get_cell_apply_rows _ df' _ _ i (get_set_col_same _ _ _))
    by lia.
  unfold completeness. do 4 f_equal.
  - (* the numerator *)
    rewrite count_row.
    rewrite (count_cells_split _ (ends_with missing_suffix)).
    rewrite (flag_columns_unmarked _ i (nrows df)); auto.
    rewrite Hdata. unfold replace_frame. cbn [cols].
    rewrite (count_cells_replace (markers_of amv)
               (fun n => negb (ends_with missing_suffix n))).
    rewrite (markers_in_data_fields _ df zs i Haud Hi).
    rewrite Nat.add_0_r. unfold zero_flags_true.
    { assert (G : forall l, (forall z, In z l -> In z zs) ->
                list_sum (map (fun col =>
                            flag_count (row_get (row df' i)
                                          (col ++ "_Missing") (VBool false)))
                          l)
                = List.length (filter (zero_at df i) l)).
      { induction l as [|z l IH]; intros Hl; simpl; auto.
        rewrite IH by (intros z' Hz'; apply Hl; now right).
        destruct (Hz z (Hl z (or_introl eq_refl))) as [s [Hs [Hsl Hcol]]].
        unfold row_get. rewrite lookup_row.
        change (z ++ "_Missing") with (z ++ missing_suffix).
        rewrite Hcol, nth_flags by lia.
        unfold zero_at. rewrite Hs.
        destruct (is_zero (nth i s VNaN)); reflexivity. }
      rewrite G by auto. reflexivity. }
  - (* the denominator *)
    unfold data_cols_count, data_fields.
    rewrite filter_length_complement.
    change (ends_with "_Missing") with (ends_with missing_suffix).
    unfold columns.
    rewrite !(filter_map_fst (fun n => negb (ends_with missing_suffix n))).
    rewrite !length_map, Hdata.
    unfold replace_frame. cbn [cols].
    rewrite (filter_replace (markers_of amv)
               (fun n => negb (ends_with missing_suffix n))).
    now rewrite length_map.
Qed.

Lemma Qnat_pos (n : nat) : (0 < n)%nat -> 0 < Qnat n.
Proof.
  intros H. unfold Qnat. change 0 with (inject_Z 0).
  rewrite <- Zlt_Qlt. lia.
Qed.

(** C7.  For every record, the analyzer returns and stores as
    [Completeness_Score] the value [100 * (1 - (m + z) / D)], where [m]
    counts the explicit missing markers of the record, [z] the
    zero-as-missing flags that are true for it, and [D] the original data
    fields, the [_Missing] flag fields already there left out. *)
Theorem completeness_formula (df : DataFrame) (zero_as_missing_cols : list string)
  (additional_missing_values : option (list string)) (i : nat) :
  auditable df zero_as_missing_cols = true ->
  (i < nrows df)%nat ->
  (0 < List.length (data_fields df))%nat ->
  let run :=
    missing_value_analysis df zero_as_missing_cols additional_missing_values in
  returned (snd run) = true /\
  exists q,
    get_cell (fst run) completeness_column i = Some (VNum q) /\
    q == 100 * (1 - Qnat (missing_markers
                            (markers_of additional_missing_values) df i
                          + zero_flags_true df zero_as_missing_cols i)
                    / Qnat (List.length (data_fields df))).
Proof.
  intros Haud Hi HD. cbv zeta.
  destruct (completeness_cell df zero_as_missing_cols
              additional_missing_values i Haud Hi) as [Hret Hcell].
  split; [exact Hret |].
  pose proof (Qnat_pos _ HD) as HDq.
  rewrite Hcell. unfold fdiv, Qeqb.
  destruct (Qeq_bool (Qnat (List.length (data_fields df))) 0) eqn:E.
  - apply Qeq_bool_eq in E. lra.
  - simpl. eexists. split; [reflexivity |]. field. lra.
Qed.

(* ------------------------------------------------------------------ *)
(** *** Bounds on the completeness score *)

Lemma length_remove_first {A} (k : string) (v : A) (L : list (string * A)) :
  lookup k L = Some v ->
  List.length L = S (List.length (remove_first k L)).
Proof.
  induction L as [|[k' v'] L IH]; simpl; [discriminate |].
  destruct (String.eqb k k'); simpl; auto.
Qed.

Lemma count_cells_remove_first (p : cell -> bool) (i : nat) (k : string)
  (s : Series) (L : list (string * Series)) :
  lookup k L = Some s ->
  count_cells p i L
  = ((if p (nth i s VNaN) then 1 else 0)
     + count_cells p i (remove_first k L))%nat.
Proof.
  unfold count_cells.
  induction L as [|[k' s'] L IH]; simpl; [discriminate |].
  destruct (String.eqb k k'); simpl.
  - intros [= ->]. destruct (p (nth i s VNaN)); reflexivity.
  - intros H. specialize (IH H).
    destruct (p (nth i s' VNaN)), (p (nth i s VNaN)); simpl in *; lia.
Qed.

Lemma marker_not_zero (markers : list string) (c : cell) :
  is_missing_marker markers c = true -> is_zero c = false.
Proof. destruct c; simpl; auto; discriminate. Qed.

(** A cell is counted once at most: as a missing marker or as a zero. *)
Lemma marked_or_zero (markers : list string) (i : nat) (zs : list string) :
  NoDup zs -> forall L : list (string * Series),
  (count_cells (is_missing_marker markers) i L
   + List.length
       (filter (fun z => match lookup z L with
                         | Some s => is_zero (nth i s VNaN)
                         | None => false
                         end) zs)
   <= List.length L)%nat.
Proof.
  induction 1 as [|z0 zs Hz0 Hnd IH]; intros L.
  - simpl. unfold count_cells.
    pose proof (filter_length_le
                  (fun c : string * Series =>
                     is_missing_marker markers (nth i (snd c) VNaN)) L).
    unfold Series in *. lia.
  - cbn [filter]. destruct (lookup z0 L) as [s0|] eqn:E0.
    + set (L' := remove_first z0 L).
      assert (Hsame :
        filter (fun z => match lookup z L with
                         | Some s => is_zero (nth i s VNaN)
                         | None => false
                         end) zs =
        filter (fun z => match lookup z L' with
                         | Some s => is_zero (nth i s VNaN)
                         | None => false
                         end) zs).
      { apply filter_ext_in. intros z Hz. unfold L'.
        rewrite lookup_remove_first; auto. intros ->. contradiction. }
      rewrite Hsame.
      rewrite (count_cells_remove_first _ i z0 s0 L E0).
      rewrite (length_remove_first z0 s0 L E0). fold L'.
      specialize (IH L').
      pose proof (marker_not_zero markers (nth i s0 VNaN)) as Hex.
      destruct (is_missing_marker markers (nth i s0 VNaN)).
      * rewrite Hex by reflexivity. lia.
      * destruct (is_zero (nth i s0 VNaN)); cbn [List.length]; lia.
    + apply IH.
Qed.

Lemma missing_le_fields (df : DataFrame) (zs : list string)
  (markers : list string) (i : nat) :
  auditable df zs = true -> NoDup zs -> (i < nrows df)%nat ->
  (missing_markers markers df i + zero_flags_true df zs i
   <= List.length (data_fields df))%nat.
Proof.
  intros Haud Hnd Hi.
  rewrite (markers_in_data_fields markers df zs i Haud Hi).
  unfold zero_flags_true, data_fields, columns.
  rewrite (filter_map_fst (fun n => negb (ends_with missing_suffix n))).
  rewrite length_map.
  set (L := filter (fun c => negb (ends_with missing_suffix (fst c)))
                   (cols df)).
  assert (Hz : filter (zero_at df i) zs =
               filter (fun z => match lookup z L with
                                | Some s => is_zero (nth i s VNaN)
                                | None => false
                                end) zs).
  { apply filter_ext_in. intros z Hz. unfold zero_at, get_col, L.
    rewrite (lookup_filter (fun n => negb (ends_with missing_suffix n))).
    - reflexivity.
    - unfold auditable in Haud. rewrite !andb_true_iff in Haud.
      destruct Haud as [[_ Hzs] _]. rewrite forallb_forall in Hzs.
      specialize (Hzs z Hz). rewrite andb_true_iff in Hzs. tauto. }
  rewrite Hz. now apply marked_or_zero.
Qed.

Lemma completeness_in_range (n D : nat) :
  (n <= D)%nat -> (0 < D)%nat ->
  0 <= 100 * (1 - Qnat n / Qnat D) <= 100.
Proof.
  intros Hn HD.
  assert (H0 : 0 <= Qnat n) by apply Qnat_nonneg.
  assert (H1 : Qnat n <= Qnat D).
  { unfold Qnat. rewrite <- Zle_Qle. lia. }
  pose proof (Qnat_pos D HD) as HDq.
  pose proof (score_in_range (Qnat n) (Qnat D) HDq (conj H0 H1)) as [Ha Hb].
  split; lra.
Qed.

Lemma abs_table_nonneg (w : dict) :
  nonnegative w = true -> abs_table w = w.
Proof.
  unfold nonnegative, abs_table. induction w as [|[k [n d]] w IH]; simpl.
  - reflexivity.
  - rewrite andb_true_iff. intros [Hv Hw]. rewrite (IH Hw).
    apply Qle_bool_iff in Hv. unfold Qle in Hv. simpl in Hv.
    unfold Qabs. rewrite Z.abs_eq by lia. reflexivity.
Qed.

(** Under non-negative whole weights within the limit the score is in
    range, and [Weighted_Errors] is a whole number between 0 and the
    total weight that the [int64] column holds as it is. *)
Lemma whole_score_in_range (str_of_value : cell -> string)
  (df : DataFrame) (error_weights : option dict) (j : nat) :
  scorable df = true ->
  nonnegative (supplied error_weights) = true ->
  whole_weights df (supplied error_weights) = true ->
  0 < spec_total_weight df (supplied error_weights) ->
  (j < nrows df)%nat ->
  exists q,
    get_cell (frame_after
                (classify_errors_and_score str_of_value df error_weights))
             quality_column j = Some (VNum q) /\
    0 <= q <= 100 /\
    exists we qs x q',
      scores_int64 df error_weights = Returned (we, qs) /\
      nth_error we j = Some x /\
      (0 <= x)%Z /\
      inject_Z x <= spec_total_weight df (supplied error_weights) /\
      spec_total_weight df (supplied error_weights) <= exact_limit /\
      nth_error qs j = Some (VNum q') /\ q' == q.
Proof.
  intros Hsc Hnn Hwhole HT Hj.
  destruct (quality_cell_value str_of_value df error_weights j Hsc Hj HT)
    as [_ [q [Hq Hval]]].
  exists q. split; [exact Hq |].
  pose proof (spec_weighted_bounds df (supplied error_weights) j
                (scorable_NoDup df Hsc) Hnn) as Hb.
  pose proof (score_in_range _ _ HT Hb) as Hr.
  split; [rewrite Hval; lra |].
  destruct (scores_int64_cell df error_weights j Hsc Hj Hwhole)
    as [we [qs [x [Hs [Hx [Hxv Hqs]]]]]].
  pose proof (total_weight_spec df error_weights (scorable_NoDup df Hsc))
    as Htot.
  rewrite quality_score_finite in Hqs by (rewrite Htot; lra).
  exists we, qs, x. eexists.
  split; [exact Hs |]. split; [exact Hx |].
  split; [rewrite Zle_Qle, Hxv; apply Hb |].
  split; [rewrite Hxv; apply Hb |].
  split.
  - unfold whole_weights in Hwhole. rewrite andb_true_iff in Hwhole.
    destruct Hwhole as [_ Hfit]. unfold weights_fit, Qleb in Hfit.
    apply Qle_bool_iff in Hfit.
    now rewrite (abs_table_nonneg _ Hnn) in Hfit.
  - split; [exact Hqs |].
    rewrite Hval, Hxv, Htot. field. lra.
Qed.

(** C5.  Both derived scores are in range where the frame and the tables
    fit the data model.  The [Completeness_Score] lies between 0 and 100
    for a raw frame with a data field, one cell per record in each
    column and booleans in any [_Missing] column already there, when the
    zero-as-missing fields are distinct data fields of it.  The
    [Quality_Score] lies between 0 and 100 for a frame with its flag
    fields under a table of non-negative whole weights with positive
    total, at most [2^53]: [Weighted_Errors] is then a whole number
    between 0 and [total_weight] that the [int64] column holds as it
    is. *)
Theorem scores_in_range (str_of_value : cell -> string)
  (raw : DataFrame) (zero_as_missing_cols : list string)
  (additional_missing_values : option (list string)) (i : nat)
  (df : DataFrame) (error_weights : option dict) (j : nat) :
  auditable raw zero_as_missing_cols = true ->
  distinct zero_as_missing_cols = true ->
  (0 < List.length (data_fields raw))%nat ->
  (i < nrows raw)%nat ->
  scorable df = true ->
  nonnegative (supplied error_weights) = true ->
  whole_weights df (supplied error_weights) = true ->
  0 < spec_total_weight df (supplied error_weights) ->
  (j < nrows df)%nat ->
  (exists c,
     get_cell (fst (missing_value_analysis raw zero_as_missing_cols
                      additional_missing_values))
              completeness_column i = Some (VNum c) /\
     0 <= c <= 100) /\
  (exists q,
     get_cell (frame_after
                 (classify_errors_and_score str_of_value df error_weights))
              quality_column j = Some (VNum q) /\
     0 <= q <= 100 /\
     exists we qs x q',
       scores_int64 df error_weights = Returned (we, qs) /\
       nth_error we j = Some x /\
       (0 <= x)%Z /\
       inject_Z x <= spec_total_weight df (supplied error_weights) /\
       spec_total_weight df (supplied error_weights) <= exact_limit /\
       nth_error qs j = Some (VNum q') /\ q' == q).
Proof.
  intros Haud Hnd HD Hi Hsc Hnn Hwhole HT Hj. split.
  - destruct (completeness_cell raw zero_as_missing_cols
                additional_missing_values i Haud Hi) as [_ Hcell].
    apply distinct_NoDup in Hnd.
    pose proof (missing_le_fields raw zero_as_missing_cols
                  (markers_of additional_missing_values) i Haud Hnd Hi)
      as Hle.
    pose proof (completeness_in_range _ _ Hle HD) as Hrange.
    pose proof (Qnat_pos _ HD) as HDq.
    rewrite Hcell. unfold fdiv, Qeqb.
    destruct (Qeq_bool (Qnat (List.length (data_fields raw))) 0) eqn:E.
    + apply Qeq_bool_eq in E. lra.
    + simpl. eexists. split; [reflexivity |]. lra.
  - now apply whole_score_in_range.
Qed.

Lemma completeness_formula_witness :
  let run := missing_value_analysis raw_sample ["Glucose"] None in
  returned (snd run) = true /\
  exists q,
    get_cell (fst run) completeness_column 2 = Some (VNum q) /\
    q == 100 * (1 - Qnat (missing_markers (markers_of None) raw_sample 2
                          + zero_flags_true raw_sample ["Glucose"] 2)
                    / Qnat (List.length (data_fields raw_sample))).
Proof.
  apply (completeness_formula raw_sample ["Glucose"] None 2).
  - reflexivity.
  - simpl; lia.
  - simpl; lia.
Defined.

Lemma scores_in_range_witness :
  (exists c,
     get_cell (fst (missing_value_analysis raw_sample ["Glucose"] None))
              completeness_column 0 = Some (VNum c) /\
     0 <= c <= 100) /\
  (exists q,
     get_cell (frame_after
                 (classify_errors_and_score plain_str sample_frame
                    (Some even_weights)))
              quality_column 0 = Some (VNum q) /\
     0 <= q <= 100 /\
     exists we qs x q',
       scores_int64 sample_frame (Some even_weights) = Returned (we, qs) /\
       nth_error we 0 = Some x /\
       (0 <= x)%Z /\
       inject_Z x <= spec_total_weight sample_frame
                       (supplied (Some even_weights)) /\
       spec_total_weight sample_frame (supplied (Some even_weights))
         <= exact_limit /\
       nth_error qs 0 = Some (VNum q') /\ q' == q).
Proof.
  apply (scores_in_range plain_str raw_sample ["Glucose"] None 0
           sample_frame (Some even_weights) 0).
  - reflexivity.
  - reflexivity.
  - simpl; lia.
  - simpl; lia.
  - reflexivity.
  - reflexivity.
  - vm_compute; reflexivity.
  - vm_compute; reflexivity.
  - simpl; lia.
Defined.

(** A zero-as-missing field listed twice is counted twice: the one data
    field of the record is zero, and its completeness is -100. *)
Lemma repeated_field_leaves_range :
  let run := missing_value_analysis one_zero ["Glucose"; "Glucose"] None in
  returned (snd run) = true /\
  exists c,
    get_cell (fst run) completeness_column 0 = Some (VNum c) /\
    c == -100 /\ ~ (0 <= c <= 100).
Proof.
  cbv zeta. split; [reflexivity |].
  eexists. split; [vm_compute; reflexivity |].
  split; [reflexivity |].
  intros [H _]. vm_compute in H. apply H. reflexivity.
Qed.

(* ================================================================== *)
(** ** The univariate outlier detector and the range validator *)

Lemma insert_sorted_cons (x : Q) (l : list Q) :
  exists y l', insert_sorted x l = y :: l'.
Proof.
  destruct l as [|z l]; simpl; [eauto |].
  destruct (Qleb x z); eauto.
Qed.

Lemma sort_values_cons (x : Q) (l : list Q) :
  exists y l', sort_values (x :: l) = y :: l'.
Proof. simpl. apply insert_sorted_cons. Qed.

(** A column with a value has its quartiles. *)
Lemma quantile_defined (fs : float_series) (p : Q) (i : nat) (v : Q) :
  nth_error fs i = Some (Some v) -> exists q, quantile fs p = Some q.
Proof.
  intros H.
  assert (Hne : exists x l, dropna fs = x :: l).
  { revert i H. induction fs as [|[a|] fs IH]; intros [|i] H; simpl in *;
      try discriminate; eauto. }
  destruct Hne as [x [l Hd]]. unfold quantile. rewrite Hd.
  destruct (sort_values_cons x l) as [y [l' Hs]]. rewrite Hs.
  eauto.
Qed.

Lemma detect_outliers_nth (fs : float_series) (i : nat) (x : option Q) :
  nth_error fs i = Some x ->
  nth_error (detect_outliers_iqr fs) i =
  Some (negb (between
                (lift2 Qminus (quantile fs (1 # 4))
                   (lift2 Qmult (Some (3 # 2))
                      (lift2 Qminus (quantile fs (3 # 4))
                                    (quantile fs (1 # 4)))))
                (lift2 Qplus (quantile fs (3 # 4))
                   (lift2 Qmult (Some (3 # 2))
                      (lift2 Qminus (quantile fs (3 # 4))
                                    (quantile fs (1 # 4)))))
                x)).
Proof.
  intros H. unfold detect_outliers_iqr. rewrite nth_error_map, H.
  reflexivity.
Qed.

Lemma as_floats_nth (s : Series) (fs : float_series) (i : nat) :
  as_floats s = Some fs ->
  nth_error fs i =
  match nth_error s i with
  | Some (VNum v) => Some (Some v)
  | Some _ => Some None
  | None => None
  end.
Proof.
  revert fs i. induction s as [|c s IH]; intros fs i H; simpl in H.
  - injection H as <-. now destruct i.
  - destruct c; try discriminate;
      destruct (as_floats s) as [fs'|] eqn:E; try discriminate;
      injection H as <-; destruct i as [|i]; simpl; auto.
Qed.

Lemma as_floats_float (s : Series) :
  forallb is_float s = true -> exists fs, as_floats s = Some fs.
Proof.
  induction s as [|c s IH]; simpl; [eauto |].
  rewrite andb_true_iff. intros [Hc Hs].
  destruct (IH Hs) as [fs Hfs]. rewrite Hfs.
  destruct c; simpl in Hc; try discriminate; eauto.
Qed.

Lemma nth_error_flags (l : list bool) (i : nat) :
  nth_error (map VBool l) i =
  match nth_error l i with Some b => Some (VBool b) | None => None end.
Proof. rewrite nth_error_map. now destruct (nth_error l i). Qed.

Lemma outlier_detection_derive (cols : list string) (df : DataFrame) :
  fst (outlier_detection df cols)
    = fst (derive (fun c => c) outlier_suffix outlier_flags false cols df) /\
  returned (snd (outlier_detection df cols))
    = snd (derive (fun c => c) outlier_suffix outlier_flags false cols df).
Proof.
  revert df. induction cols as [|c cols IH]; intros df; simpl.
  - auto.
  - destruct (get_col df c) as [s|]; simpl; auto.
    unfold outlier_flags at 1 3.
    destruct (as_floats s); simpl; auto.
Qed.

(** The outlier flags of a configured field, read from the frame the
    detector leaves. *)
Lemma outlier_column (df : DataFrame) (cols : list string) (col : string) :
  outlier_inputs df cols = true -> In col cols ->
  returned (snd (outlier_detection df cols)) = true /\
  exists s fs,
    get_col df col = Some s /\ as_floats s = Some fs /\
    get_col (fst (outlier_detection df cols)) (col ++ outlier_suffix)
      = Some (map VBool (detect_outliers_iqr fs)).
Proof.
  unfold outlier_inputs. rewrite forallb_forall. intros Hin Hcol.
  assert (Hc : forall c, In c cols ->
            ends_with outlier_suffix c = false /\
            exists s fs, get_col df c = Some s /\ as_floats s = Some fs).
  { intros c Hc. specialize (Hin c Hc). rewrite andb_true_iff in Hin.
    destruct Hin as [Hs Hf]. apply negb_true_iff in Hs.
    split; [assumption |].
    destruct (get_col df c) as [s|]; [| discriminate].
    destruct (as_floats_float s Hf) as [fs Hfs]. eauto. }
  destruct (outlier_detection_derive cols df) as [Hfst Hsnd].
  destruct (derive_flags (fun c => c) outlier_suffix outlier_flags false
              cols df) as [Hrun Hval].
  { intros c Hk. now apply Hc. }
  { intros c Hk. destruct (Hc c Hk) as [_ [s [fs [Hs Hfs]]]].
    rewrite Hs. unfold outlier_flags. rewrite Hfs. discriminate. }
  rewrite Hfst, Hsnd. split; [exact Hrun |].
  destruct (Hc col Hcol) as [_ [s [fs [Hs Hfs]]]].
  exists s, fs. split; [assumption |]. split; [assumption |].
  rewrite (Hval col s Hcol Hs) by (intros; subst; reflexivity).
  unfold outlier_flags. now rewrite Hfs.
Qed.

Lemma Qleb_true (a b : Q) : Qleb a b = true <-> a <= b.
Proof. apply Qle_bool_iff. Qed.

Lemma Qleb_false (a b : Q) : Qleb a b = false <-> b < a.
Proof.
  unfold Qleb. split.
  - intros H. apply Qnot_le_lt. intros Hle.
    apply Qle_bool_iff in Hle. congruence.
  - intros H. destruct (Qle_bool a b) eqn:E; auto.
    apply Qle_bool_iff in E. lra.
Qed.

Lemma clinical_range_check_derive (ranges : list (string * (Q * Q)))
  (df : DataFrame) :
  fst (clinical_range_check df ranges)
    = fst (derive fst range_suffix range_flags true ranges df) /\
  returned (snd (clinical_range_check df ranges))
    = snd (derive fst range_suffix range_flags true ranges df).
Proof.
  revert df. induction ranges as [|[col [low high]] ranges IH]; intros df;
    simpl.
  - auto.
  - destruct (get_col df col) as [s|]; simpl; auto.
    unfold range_flags at 1 3. simpl.
    destruct (range_errors low high s); simpl; auto.
Qed.

Lemma range_errors_defined (low high : Q) (s : Series) :
  forallb (fun c => negb (is_text c)) s = true ->
  exists flags, range_errors low high s = Some flags.
Proof.
  induction s as [|c s IH]; simpl; [eauto |].
  rewrite andb_true_iff. intros [Hc Hs].
  destruct (IH Hs) as [flags Hflags]. rewrite Hflags.
  destruct c; simpl in *; try discriminate; eauto.
Qed.

Lemma range_errors_nth (low high : Q) (s flags : Series) (i : nat) :
  range_errors low high s = Some flags ->
  nth_error flags i =
  match nth_error s i with
  | Some c =>
      match cell_between low high c with
      | Some b => Some (VBool (negb b))
      | None => None
      end
  | None => None
  end.
Proof.
  revert flags i. induction s as [|c s IH]; intros flags i H; simpl in H.
  - injection H as <-. now destruct i.
  - destruct (cell_between low high c) as [b|] eqn:Eb; [| discriminate].
    destruct (range_errors low high s) as [fl|] eqn:E; [| discriminate].
    injection H as <-. destruct i as [|i]; simpl.
    + now rewrite Eb.
    + now apply IH.
Qed.

Lemma distinct_keys_unique {A} (l : list (string * A)) (e e' : string * A) :
  NoDup (map fst l) -> In e l -> In e' l -> fst e' = fst e -> e' = e.
Proof.
  induction l as [|x l IH]; simpl; [tauto |].
  intros Hnd He He' Hk. inversion Hnd as [|? ? Hx Hl]; subst.
  destruct He as [-> | He], He' as [-> | He']; auto.
  - exfalso. apply Hx. rewrite <- Hk. now apply in_map.
  - exfalso. apply Hx. rewrite Hk. now apply in_map.
Qed.

(** The range flags of a checked field, read from the frame the validator
    leaves. *)
Lemma range_column (df : DataFrame) (ranges : list (string * (Q * Q)))
  (col : string) (low high : Q) (s : Series) :
  range_inputs df ranges = true -> In (col, (low, high)) ranges ->
  get_col df col = Some s ->
  returned (snd (clinical_range_check df ranges)) = true /\
  exists flags,
    range_errors low high s = Some flags /\
    get_col (fst (clinical_range_check df ranges)) (col ++ range_suffix)
      = Some flags.
Proof.
  unfold range_inputs. rewrite andb_true_iff, forallb_forall.
  intros [Hnd Hin] Hcol Hs. apply distinct_NoDup in Hnd.
  destruct (clinical_range_check_derive ranges df) as [Hfst Hsnd].
  destruct (derive_flags fst range_suffix range_flags true ranges df)
    as [Hrun Hval].
  { intros e He. specialize (Hin e He). rewrite andb_true_iff in Hin.
    destruct Hin as [H _]. now apply negb_true_iff in H. }
  { intros e He. specialize (Hin e He). rewrite andb_true_iff in Hin.
    destruct Hin as [_ H].
    destruct (get_col df (fst e)) as [s'|]; [| reflexivity].
    destruct (range_errors_defined (fst (snd e)) (snd (snd e)) s' H)
      as [flags Hflags].
    unfold range_flags. rewrite Hflags. discriminate. }
  rewrite Hfst, Hsnd. split; [exact Hrun |].
  specialize (Hin _ Hcol). rewrite andb_true_iff in Hin.
  destruct Hin as [_ Htext]. simpl in Htext. rewrite Hs in Htext.
  destruct (range_errors_defined low high s Htext) as [flags Hflags].
  exists flags. split; [assumption |].
  rewrite <- Hflags.
  apply (Hval (col, (low, high)) s Hcol Hs).
  intros e' He' Hk.
  now rewrite (distinct_keys_unique ranges (col, (low, high)) e' Hnd Hcol He').
Qed.

(** C9.  A missing value fails both checks: for a record whose value in
    a configured field is NaN the outlier detector sets [<Field>_Outlier]
    to true, and for a record whose value in a field of [ranges] is NaN
    the range validator sets [<Field>_RangeError] to true; the negated
    inclusive comparison is true of NaN. *)
Theorem missing_value_fails_checks (df : DataFrame) (cols : list string)
  (col : string) (i : nat) (ranges : list (string * (Q * Q)))
  (field : string) (low high : Q) (j : nat) :
  outlier_inputs df cols = true ->
  In col cols ->
  get_cell df col i = Some VNaN ->
  range_inputs df ranges = true ->
  In (field, (low, high)) ranges ->
  get_cell df field j = Some VNaN ->
  (returned (snd (outlier_detection df cols)) = true /\
   get_cell (fst (outlier_detection df cols)) (col ++ outlier_suffix) i
     = Some (VBool true)) /\
  (returned (snd (clinical_range_check df ranges)) = true /\
   get_cell (fst (clinical_range_check df ranges)) (field ++ range_suffix) j
     = Some (VBool true)).
Proof.
  intros Hout Hcol Hcell Hrange Hfield Hcell'. split.
  - destruct (outlier_column df cols col Hout Hcol)
      as [Hret [s [fs [Hs [Hfs Hflags]]]]].
    split; [exact Hret |].
    unfold get_cell in Hcell. rewrite Hs in Hcell.
    pose proof (as_floats_nth s fs i Hfs) as Hnth. rewrite Hcell in Hnth.
    unfold get_cell. rewrite Hflags, nth_error_flags.
    rewrite (detect_outliers_nth fs i None Hnth).
    unfold between.
    destruct (lift2 Qminus _ _); [destruct (lift2 Qplus _ _) |]; reflexivity.
  - unfold get_cell in Hcell'.
    destruct (get_col df field) as [s|] eqn:Hs; [| discriminate].
    destruct (range_column df ranges field low high s Hrange Hfield Hs)
      as [Hret [flags [Hflags Hget]]].
    split; [exact Hret |].
    unfold get_cell. rewrite Hget.
    rewrite (range_errors_nth low high s flags j Hflags), Hcell'.
    reflexivity.
Qed.

Lemma missing_value_fails_checks_witness :
  (returned (snd (outlier_detection glucose_frame ["Glucose"; "BMI"])) = true
   /\
   get_cell (fst (outlier_detection glucose_frame ["Glucose"; "BMI"]))
            ("Glucose" ++ outlier_suffix) 2 = Some (VBool true)) /\
  (returned (snd (clinical_range_check glucose_frame
                    [("BMI", (10, 60)); ("Insulin", (0, 900))])) = true /\
   get_cell (fst (clinical_range_check glucose_frame
                    [("BMI", (10, 60)); ("Insulin", (0, 900))]))
            ("BMI" ++ range_suffix) 1 = Some (VBool true)).
Proof.
  apply (missing_value_fails_checks glucose_frame ["Glucose"; "BMI"]
           "Glucose" 2 [("BMI", (10, 60)); ("Insulin", (0, 900))]
           "BMI" 10 60 1).
  - reflexivity.
  - simpl; auto.
  - reflexivity.
  - reflexivity.
  - simpl; auto.
  - reflexivity.
Defined.

(* ================================================================== *)
(** ** The multivariate anomaly detector *)

(** The seeded detector does not read the process-wide generator. *)
Lemma seeded_detection (sk : IsolationForest) (global : generator sk)
  (df : DataFrame) (cols : list string) (contamination : Q) (seed : Z) :
  exists frame result,
    (forall g : generator sk,
       anomaly_detection_isolation_forest sk g df cols contamination
         (Some seed) = (frame, g, result)).
Proof.
  unfold anomaly_detection_isolation_forest.
  destruct (select_floats df cols) as [X | e].
  - destruct (fst (fit_predict sk (seeded sk seed) contamination
                     (map fill_median X))) as [preds | e];
      eexists; eexists; intros g; reflexivity.
  - eexists; eexists; intros g; reflexivity.
Qed.

(* ================================================================== *)
(** ** Sorting the values of a column *)

Lemma insert_sorted_perm (x : Q) (l : list Q) :
  Permutation (x :: l) (insert_sorted x l).
Proof.
  induction l as [|y l IH]; simpl; auto.
  destruct (Qleb x y); auto.
  eapply perm_trans; [apply perm_swap |]. now constructor.
Qed.

(** The sorted values are the non-missing values, each as often. *)
Lemma sort_values_perm (l : list Q) : Permutation l (sort_values l).
Proof.
  induction l as [|x l IH]; simpl; auto.
  eapply perm_trans; [| apply insert_sorted_perm]. now constructor.
Qed.

Lemma insert_sorted_sorted (x : Q) (l : list Q) :
  Sorted Qle l -> Sorted Qle (insert_sorted x l).
Proof.
  induction 1 as [|y l Hs IH Hhd]; simpl.
  - repeat constructor.
  - destruct (Qleb x y) eqn:E.
    + apply Qleb_true in E. repeat constructor; auto.
    + apply Qleb_false in E. constructor; auto.
      destruct l as [|z l]; simpl in *.
      * repeat constructor. lra.
      * destruct (Qleb x z); constructor; try lra.
        now inversion Hhd.
Qed.

Lemma sort_values_sorted (l : list Q) : Sorted Qle (sort_values l).
Proof.
  induction l as [|x l IH]; simpl; [constructor |].
  now apply insert_sorted_sorted.
Qed.

(* ================================================================== *)
(** ** Quartiles *)

Lemma sorted_nth_le (xs : list Q) (d : Q) (i j : nat) :
  Sorted Qle xs -> (i <= j)%nat -> (j < List.length xs)%nat ->
  nth i xs d <= nth j xs d.
Proof.
  intros Hs. apply Sorted_StronglySorted in Hs;
    [| intros a b c Hab Hbc; eapply Qle_trans; eauto].
  revert i j. induction Hs as [|x xs Hs IH Hall]; intros i j Hij Hj.
  - simpl in Hj. lia.
  - destruct i as [|i], j as [|j]; simpl in *; try lia.
    + apply Qle_refl.
    + rewrite Forall_forall in Hall. apply Hall. apply nth_In. lia.
    + apply IH; lia.
Qed.

Lemma Qnat_to_nat (z : Z) : (0 <= z)%Z -> Qnat (Z.to_nat z) = inject_Z z.
Proof. intros H. unfold Qnat. now rewrite Z2Nat.id. Qed.

Lemma Qnat_le (a b : nat) : (a <= b)%nat -> Qnat a <= Qnat b.
Proof. intros H. unfold Qnat. rewrite <- Zle_Qle. lia. Qed.

(** The position a quantile is read at: for [0 <= h <= n - 1] the index
    [floor h] is in range and the fraction [h - floor h] is in [0, 1). *)
Lemma position_bounds (h : Q) (n : nat) :
  0 <= h -> h <= Qnat (n - 1) ->
  (Z.to_nat (Qfloor h) <= n - 1)%nat /\
  0 <= h - Qnat (Z.to_nat (Qfloor h)) /\
  h - Qnat (Z.to_nat (Qfloor h)) < 1.
Proof.
  intros H0 Hn.
  assert (Hf0 : (0 <= Qfloor h)%Z).
  { change 0%Z with (Qfloor 0). now apply Qfloor_resp_le. }
  assert (Hfn : (Qfloor h <= Z.of_nat (n - 1))%Z).
  { rewrite <- (Qfloor_Z (Z.of_nat (n - 1))). now apply Qfloor_resp_le. }
  rewrite Qnat_to_nat by assumption.
  pose proof (Qfloor_le h) as Hle. pose proof (Qlt_floor h) as Hlt.
  rewrite inject_Z_plus in Hlt. change (inject_Z 1) with 1 in Hlt.
  repeat split; try lra. lia.
Qed.

(** [quantile] on its sorted values. *)
Lemma quantile_sorted (s : float_series) (p : Q) (x0 : Q) (rest : list Q) :
  sort_values (dropna s) = x0 :: rest ->
  quantile s p =
  Some (interpolate (x0 :: rest) x0 (p * Qnat (List.length rest))).
Proof.
  intros H. unfold quantile. rewrite H. unfold interpolate.
  cbn [List.length]. rewrite Nat.sub_succ, Nat.sub_0_r. reflexivity.
Qed.

Lemma interpolate_between (xs : list Q) (d h : Q) :
  Sorted Qle xs -> 0 <= h -> h <= Qnat (List.length xs - 1) ->
  (0 < List.length xs)%nat ->
  let lo := Z.to_nat (Qfloor h) in
  let hi := Nat.min (lo + 1) (List.length xs - 1) in
  (lo <= hi)%nat /\ (hi < List.length xs)%nat /\
  nth lo xs d <= interpolate xs d h /\ interpolate xs d h <= nth hi xs d.
Proof.
  intros Hs H0 Hn Hlen lo hi.
  destruct (position_bounds h (List.length xs) H0 Hn) as [Hlo [Hf0 Hf1]].
  fold lo in Hlo, Hf0, Hf1.
  assert (Hlh : (lo <= hi)%nat) by (unfold hi; lia).
  assert (Hhi : (hi < List.length xs)%nat) by (unfold hi; lia).
  pose proof (sorted_nth_le xs d lo hi Hs Hlh Hhi) as Hab.
  repeat split; auto; unfold interpolate; fold lo; fold hi; nra.
Qed.

Lemma interpolate_monotone (xs : list Q) (d h h' : Q) :
  Sorted Qle xs -> (0 < List.length xs)%nat ->
  0 <= h -> h <= h' -> h' <= Qnat (List.length xs - 1) ->
  interpolate xs d h <= interpolate xs d h'.
Proof.
  intros Hs Hlen H0 Hhh Hn.
  assert (H0' : 0 <= h') by lra.
  assert (Hn' : h <= Qnat (List.length xs - 1)) by lra.
  destruct (interpolate_between xs d h Hs H0 Hn' Hlen) as [Hlh [Hhi [Ha Hb]]].
  destruct (interpolate_between xs d h' Hs H0' Hn Hlen)
    as [Hlh' [Hhi' [Ha' Hb']]].
  destruct (position_bounds h (List.length xs) H0 Hn') as [Hlo [Hf0 Hf1]].
  destruct (position_bounds h' (List.length xs) H0' Hn) as [Hlo' [Hf0' Hf1']].
  set (lo := Z.to_nat (Qfloor h)) in *.
  set (lo' := Z.to_nat (Qfloor h')) in *.
  assert (Hll : (lo <= lo')%nat).
  { unfold lo, lo'. apply Z2Nat.inj_le.
    - change 0%Z with (Qfloor 0). now apply Qfloor_resp_le.
    - change 0%Z with (Qfloor 0). now apply Qfloor_resp_le.
    - now apply Qfloor_resp_le. }
  destruct (Nat.eq_dec lo lo') as [Heq | Hne].
  - unfold interpolate. fold lo. fold lo'. rewrite <- Heq.
    set (hi := Nat.min (lo + 1) (List.length xs - 1)) in *.
    pose proof (sorted_nth_le xs d lo hi Hs Hlh Hhi) as Hab.
    rewrite <- Heq in Hf0', Hf1'. nra.
  - assert (Hmid : nth (Nat.min (lo + 1) (List.length xs - 1)) xs d
                   <= nth lo' xs d).
    { apply sorted_nth_le; auto; lia. }
    lra.
Qed.

Lemma dropna_In (s : float_series) (v : Q) :
  In v (dropna s) <-> In (Some v) s.
Proof.
  induction s as [|[a|] s IH]; simpl.
  - tauto.
  - rewrite IH. split; intros [H | H]; auto; left; congruence.
  - rewrite IH. split; [auto | intros [H | H]; [discriminate | auto]].
Qed.

(** The facts about a quantile that the properties below share. *)
Lemma quantile_facts (s : float_series) (p q : Q) :
  0 <= p -> p <= 1 -> quantile s p = Some q ->
  exists xs d,
    Sorted Qle xs /\ (0 < List.length xs)%nat /\
    (forall v, In v xs <-> In (Some v) s) /\
    0 <= p * Qnat (List.length xs - 1) <= Qnat (List.length xs - 1) /\
    (forall p', quantile s p' =
                Some (interpolate xs d (p' * Qnat (List.length xs - 1)))).
Proof.
  intros Hp0 Hp1 Hq.
  destruct (sort_values (dropna s)) as [|x0 rest] eqn:E.
  - unfold quantile in Hq. rewrite E in Hq. discriminate.
  - exists (x0 :: rest), x0.
    pose proof (sort_values_sorted (dropna s)) as Hs. rewrite E in Hs.
    pose proof (sort_values_perm (dropna s)) as Hperm. rewrite E in Hperm.
    split; [exact Hs |]. split; [simpl; lia |]. split.
    + intros v. rewrite <- dropna_In. split; intros H.
      * eapply Permutation_in; [apply Permutation_sym; exact Hperm | exact H].
      * eapply Permutation_in; eauto.
    + cbn [List.length]. rewrite Nat.sub_succ, Nat.sub_0_r.
      pose proof (Qnat_nonneg (List.length rest)). split; [nra |].
      intros p'. now apply quantile_sorted.
Qed.

Lemma quantile_range (s : float_series) (p q : Q) :
  0 <= p -> p <= 1 -> quantile s p = Some q ->
  exists a b, In (Some a) s /\ In (Some b) s /\ a <= q /\ q <= b.
Proof.
  intros Hp0 Hp1 Hq.
  destruct (quantile_facts s p q Hp0 Hp1 Hq)
    as [xs [d [Hs [Hlen [Hin [[Hh0 Hh1] Hval]]]]]].
  rewrite Hval in Hq. injection Hq as <-.
  destruct (interpolate_between xs d _ Hs Hh0 Hh1 Hlen)
    as [Hlh [Hhi [Ha Hb]]].
  eexists. eexists. split; [| split; [| split; [exact Ha | exact Hb]]].
  - apply Hin. apply nth_In. lia.
  - apply Hin. apply nth_In. lia.
Qed.

Lemma quantile_order (s : float_series) (p p' q q' : Q) :
  0 <= p -> p <= p' -> p' <= 1 ->
  quantile s p = Some q -> quantile s p' = Some q' -> q <= q'.
Proof.
  intros Hp0 Hpp Hp1 Hq Hq'.
  destruct (quantile_facts s p q Hp0 ltac:(lra) Hq)
    as [xs [d [Hs [Hlen [Hin [[Hh0 Hh1] Hval]]]]]].
  rewrite Hval in Hq, Hq'. injection Hq as <-. injection Hq' as <-.
  pose proof (Qnat_nonneg (List.length xs - 1)).
  apply interpolate_monotone; auto; nra.
Qed.










(** X1.  A quantile of a column, and so each quartile and the median,
    lies between two values of the column: never below the smallest
    non-missing value nor above the largest. *)
Theorem quantile_within_values (s : float_series) (p q : Q) :
  0 <= p -> p <= 1 -> quantile s p = Some q ->
  exists a b, In (Some a) s /\ In (Some b) s /\ a <= q /\ q <= b.
Proof. apply quantile_range. Qed.

Lemma quantile_within_values_witness :
  exists a b, In (Some a) glucose_values /\ In (Some b) glucose_values /\
              a <= 390 # 4 /\ 390 # 4 <= b.
Proof.
  apply (quantile_within_values glucose_values (1 # 4) (390 # 4)).
  - vm_compute; discriminate.
  - vm_compute; discriminate.
  - vm_compute. reflexivity.
Defined.

(** X2.  Quantiles grow with the probability: the first quartile is at
    most the median, which is at most the third quartile, so the
    interquartile range is never negative and the fence always contains
    both quartiles. *)
Theorem quartiles_are_ordered (s : float_series) (q1 q2 q3 : Q) :
  quantile s (1 # 4) = Some q1 ->
  quantile s (1 # 2) = Some q2 ->
  quantile s (3 # 4) = Some q3 ->
  q1 <= q2 /\ q2 <= q3 /\ 0 <= q3 - q1 /\
  fence_lower q1 q3 <= q1 /\ q3 <= fence_upper q1 q3.
Proof.
  intros H1 H2 H3.
  assert (H12 : q1 <= q2)
    by (apply (quantile_order s (1 # 4) (1 # 2)); auto; lra).
  assert (H23 : q2 <= q3)
    by (apply (quantile_order s (1 # 2) (3 # 4)); auto; lra).
  unfold fence_lower, fence_upper. repeat split; lra.
Qed.

Lemma quartiles_are_ordered_witness :
  390 # 4 <= 205 # 2 /\ 205 # 2 <= 915 # 4 /\ 0 <= (915 # 4) - (390 # 4) /\
  fence_lower (390 # 4) (915 # 4) <= 390 # 4 /\
  915 # 4 <= fence_upper (390 # 4) (915 # 4).
Proof.
  apply (quartiles_are_ordered glucose_values); vm_compute; reflexivity.
Defined.

Lemma inner_value_unflagged (fs : float_series) (i : nat) (v q1 q3 : Q) :
  nth_error fs i = Some (Some v) ->
  quantile fs (1 # 4) = Some q1 -> quantile fs (3 # 4) = Some q3 ->
  q1 <= v -> v <= q3 ->
  nth_error (detect_outliers_iqr fs) i = Some false.
Proof.
  intros Hnth H1 H3 Hlo Hhi.
  assert (H13 : q1 <= q3) by lra.
  rewrite (detect_outliers_nth fs i (Some v) Hnth), H1, H3.
  cbn [lift2 between].
  assert (Ha : Qleb (q1 - (3 # 2) * (q3 - q1)) v = true)
    by (apply Qleb_true; lra).
  assert (Hb : Qleb v (q3 + (3 # 2) * (q3 - q1)) = true)
    by (apply Qleb_true; lra).
  now rewrite Ha, Hb.
Qed.

(** X3.  A value between the first and the third quartile of its column
    is never flagged as an outlier. *)
Theorem interquartile_values_are_not_outliers (fs : float_series) (i : nat)
  (v q1 q3 : Q) :
  nth_error fs i = Some (Some v) ->
  quantile fs (1 # 4) = Some q1 ->
  quantile fs (3 # 4) = Some q3 ->
  q1 <= v -> v <= q3 ->
  nth_error (detect_outliers_iqr fs) i = Some false.
Proof. apply inner_value_unflagged. Qed.

Lemma interquartile_values_are_not_outliers_witness :
  nth_error (detect_outliers_iqr glucose_values) 1 = Some false.
Proof.
  apply (interquartile_values_are_not_outliers glucose_values 1 100
           (390 # 4) (915 # 4)).
  - reflexivity.
  - vm_compute; reflexivity.
  - vm_compute; reflexivity.
  - vm_compute; discriminate.
  - vm_compute; discriminate.
Defined.

(** X4.  In a column whose non-missing values are all equal, no value is
    flagged as an outlier: the quartiles coincide with the value and the
    fence shrinks to it.  A column with a single value is the least
    case. *)
Theorem constant_column_has_no_outliers (fs : float_series) (c : Q)
  (i : nat) (v : Q) :
  (forall w, In (Some w) fs -> w == c) ->
  nth_error fs i = Some (Some v) ->
  nth_error (detect_outliers_iqr fs) i = Some false.
Proof.
  intros Hconst Hnth.
  destruct (quantile_defined fs (1 # 4) i v Hnth) as [q1 H1].
  destruct (quantile_defined fs (3 # 4) i v Hnth) as [q3 H3].
  destruct (quantile_range fs (1 # 4) q1 ltac:(lra) ltac:(lra) H1)
    as [a [b [Ha [Hb [Haq Hqb]]]]].
  destruct (quantile_range fs (3 # 4) q3 ltac:(lra) ltac:(lra) H3)
    as [a' [b' [Ha' [Hb' [Haq' Hqb']]]]].
  pose proof (Hconst a Ha). pose proof (Hconst b Hb).
  pose proof (Hconst a' Ha'). pose proof (Hconst b' Hb').
  pose proof (Hconst v (nth_error_In fs i Hnth)).
  apply (inner_value_unflagged fs i v q1 q3); auto; lra.
Qed.

Lemma constant_column_has_no_outliers_witness :
  nth_error (detect_outliers_iqr [Some 7; None; Some (14 # 2)]) 2
  = Some false.
Proof.
  apply (constant_column_has_no_outliers [Some 7; None; Some (14 # 2)] 7 2
           (14 # 2)).
  - intros w [H | [H | [H | []]]]; try discriminate;
      injection H as <-; reflexivity.
  - reflexivity.
Defined.

(* ------------------------------------------------------------------ *)
(** *** Median imputation *)

Lemma fill_median_nth (s : float_series) (i : nat) :
  nth_error (fill_median s) i =
  match nth_error s i with
  | Some (Some v) => Some (Some v)
  | Some None => Some (quantile s (1 # 2))
  | None => None
  end.
Proof.
  unfold fill_median. rewrite nth_error_map.
  destruct (nth_error s i) as [[v|]|]; reflexivity.
Qed.

(** X5.  The imputation of the isolation forest keeps every value that
    is present and puts the column's median in the place of each missing
    one; in a column that has a value no cell is left missing, and what
    is filled in lies between two values of the column. *)
Theorem median_imputation (s : float_series) (i j : nat) (v : Q) :
  nth_error s i = Some (Some v) ->
  nth_error s j = Some None ->
  List.length (fill_median s) = List.length s /\
  nth_error (fill_median s) i = Some (Some v) /\
  (forall k x, nth_error (fill_median s) k = Some x -> x <> None) /\
  exists m a b,
    nth_error (fill_median s) j = Some (Some m) /\
    quantile s (1 # 2) = Some m /\
    In (Some a) s /\ In (Some b) s /\ a <= m /\ m <= b.
Proof.
  intros Hi Hj.
  destruct (quantile_defined s (1 # 2) i v Hi) as [m Hm].
  split; [unfold fill_median; apply length_map |].
  split; [now rewrite fill_median_nth, Hi |].
  split.
  - intros k x Hk. rewrite fill_median_nth in Hk.
    destruct (nth_error s k) as [[w|]|]; try discriminate;
      injection Hk as <-; congruence.
  - destruct (quantile_range s (1 # 2) m ltac:(lra) ltac:(lra) Hm)
      as [a [b [Ha [Hb [Ham Hmb]]]]].
    exists m, a, b. rewrite fill_median_nth, Hj, Hm. repeat split; auto.
Qed.

Lemma median_imputation_witness :
  List.length (fill_median glucose_values) = List.length glucose_values /\
  nth_error (fill_median glucose_values) 0 = Some (Some 90) /\
  (forall k x, nth_error (fill_median glucose_values) k = Some x ->
               x <> None) /\
  exists m a b,
    nth_error (fill_median glucose_values) 2 = Some (Some m) /\
    quantile glucose_values (1 # 2) = Some m /\
    In (Some a) glucose_values /\ In (Some b) glucose_values /\
    a <= m /\ m <= b.
Proof.
  apply (median_imputation glucose_values 0 2 90); reflexivity.
Defined.

(* ================================================================== *)
(** ** More on the missing-value analyzer *)

Lemma analysis_other_columns (df : DataFrame) (zs : list string)
  (amv : option (list string)) (name : string) :
  ends_with missing_suffix name = false -> name <> completeness_column ->
  get_col (fst (missing_value_analysis df zs amv)) name
  = get_col (replace_frame (markers_of amv) df) name.
Proof.
  intros Hsuf Hname. unfold missing_value_analysis. fold (markers_of amv).
  set (df0 := replace_frame (markers_of amv) df).
  destruct (flag_zeros_derive zs df0 (null_counts df0)) as [Hfst _].
  assert (Hother : get_col (fst (flag_zeros zs df0 (null_counts df0))) name
                   = get_col df0 name).
  { rewrite Hfst. apply derive_other_columns.
    intros z _ Heq. rewrite Heq, ends_with_append in Hsuf. discriminate. }
  destruct (flag_zeros zs df0 (null_counts df0)) as [df' [summary | e]];
    simpl in *; auto.
  rewrite get_set_col_other by assumption. exact Hother.
Qed.

(** X6.  The analyzer removes no value: whether it returns or raises,
    every column that is neither a [_Missing] flag nor the completeness
    score holds afterwards what it held before, cell by cell, except that
    a placeholder text has become NaN; the number of records is
    unchanged. *)
Theorem analysis_keeps_values (df : DataFrame) (zero_as_missing_cols : list string)
  (additional_missing_values : option (list string)) (name : string) :
  let frame :=
    fst (missing_value_analysis df zero_as_missing_cols
           additional_missing_values) in
  let markers := markers_of additional_missing_values in
  nrows frame = nrows df /\
  (ends_with missing_suffix name = false -> name <> completeness_column ->
   (forall i c, get_cell df name i = Some c ->
      get_cell frame name i
      = Some (match c with
              | VStr s => if mem s markers then VNaN else c
              | _ => c
              end)) /\
   (get_col df name = None -> get_col frame name = None)).
Proof.
  cbv zeta. split.
  - unfold missing_value_analysis.
    fold (markers_of additional_missing_values).
    set (df0 := replace_frame (markers_of additional_missing_values) df).
    destruct (flag_zeros_derive zero_as_missing_cols df0 (null_counts df0))
      as [Hfst _].
    pose proof (derive_nrows (fun z => z) missing_suffix zero_flags false
                  zero_as_missing_cols df0) as Hn.
    rewrite <- Hfst in Hn.
    destruct (flag_zeros zero_as_missing_cols df0 (null_counts df0))
      as [df' [summary | e]]; simpl in *; exact Hn.
  - intros Hsuf Hname. split.
    + intros i c Hc. unfold get_cell in *.
      rewrite analysis_other_columns, replace_frame_get by assumption.
      destruct (get_col df name) as [s|]; [| discriminate].
      rewrite nth_error_map, Hc. reflexivity.
    + intros Hnone.
      rewrite analysis_other_columns, replace_frame_get by assumption.
      now rewrite Hnone.
Qed.

Lemma not_placeholder_replaced (markers : list string) (c : cell) :
  is_placeholder markers (replace_missing markers c) = false.
Proof.
  destruct c; simpl; auto.
  destruct (mem s markers) eqn:E; simpl; auto.
Qed.

Lemma not_placeholder_number (markers : list string) (x : cell) (k : Q) :
  is_placeholder markers (fscale (fsub_from 1 x) k) = false.
Proof. destruct x; reflexivity. Qed.

(** X7.  After the analyzer no cell of the frame holds a placeholder:
    none of the texts given as [additional_missing_values] (by default the
    empty text, [N/A] and [Unknown]) is left in any column, whether the call
    returned or raised. *)
Theorem analysis_leaves_no_placeholder (df : DataFrame)
  (zero_as_missing_cols : list string)
  (additional_missing_values : option (list string))
  (name : string) (i : nat) (text : string) :
  get_cell (fst (missing_value_analysis df zero_as_missing_cols
                   additional_missing_values)) name i = Some (VStr text) ->
  mem text (markers_of additional_missing_values) = false.
Proof.
  set (markers := markers_of additional_missing_values).
  set (P := fun s : Series =>
              Forall (fun c => is_placeholder markers c = false) s).
  assert (Hall : Forall (fun c => P (snd c))
                   (cols (fst (missing_value_analysis df zero_as_missing_cols
                                 additional_missing_values)))).
  { unfold missing_value_analysis.
    fold (markers_of additional_missing_values). fold markers.
    set (df0 := replace_frame markers df).
    destruct (flag_zeros_derive zero_as_missing_cols df0 (null_counts df0))
      as [Hfst _].
    assert (H0 : Forall (fun c => P (snd c)) (cols df0)).
    { apply Forall_forall. intros c Hc. unfold df0, replace_frame in Hc.
      simpl in Hc. apply in_map_iff in Hc. destruct Hc as [c0 [<- _]].
      simpl. apply Forall_forall. intros x Hx. apply in_map_iff in Hx.
      destruct Hx as [x0 [<- _]]. apply not_placeholder_replaced. }
    pose proof (derive_all_columns (fun z => z) missing_suffix zero_flags
                  false P zero_as_missing_cols df0) as Hd.
    rewrite <- Hfst in Hd.
    assert (H1 : Forall (fun c => P (snd c))
                   (cols (fst (flag_zeros zero_as_missing_cols df0
                                 (null_counts df0))))).
    { apply Hd; auto. intros k s v _ Hf. unfold zero_flags in Hf.
      injection Hf as <-.
      apply Forall_forall. intros x Hx. apply in_map_iff in Hx.
      destruct Hx as [b [<- _]]. reflexivity. }
    destruct (flag_zeros zero_as_missing_cols df0 (null_counts df0))
      as [df' [summary | e]]; simpl in *; auto.
    apply assign_Forall; auto. intros k'. simpl.
    apply Forall_forall. intros x Hx. unfold apply_rows in Hx.
    apply in_map_iff in Hx. destruct Hx as [r [<- _]].
    unfold completeness. apply not_placeholder_number. }
  intros Hcell. unfold get_cell in Hcell.
  destruct (get_col _ name) as [s|] eqn:Es; [| discriminate].
  apply lookup_Some_In in Es. rewrite Forall_forall in Hall.
  specialize (Hall _ Es). simpl in Hall. unfold P in Hall.
  rewrite Forall_forall in Hall.
  apply nth_error_In in Hcell. exact (Hall _ Hcell).
Qed.

Lemma analysis_leaves_no_placeholder_witness :
  mem "Unknown" (markers_of (Some ["?"])) = false.
Proof.
  apply (analysis_leaves_no_placeholder
           (mkDF 2 [("Sex", [VStr "?"; VStr "Unknown"])]) [] (Some ["?"])
           "Sex" 1 "Unknown").
  reflexivity.
Defined.

Lemma flag_zeros_raises (zs : list string) (z : string) :
  In z zs -> ends_with missing_suffix z = false ->
  forall (df : DataFrame) (summary : list (string * nat)),
    get_col df z = None ->
    snd (flag_zeros zs df summary) = Raised KeyError.
Proof.
  intros Hz Hsuf. induction zs as [|z0 zs IH]; intros df summary Hnone;
    [destruct Hz |].
  simpl. destruct (get_col df z0) as [s|] eqn:E0; [| reflexivity].
  destruct Hz as [-> | Hz]; [congruence |].
  apply IH; auto.
  rewrite get_set_col_other; auto.
  intros Heq. rewrite Heq in Hsuf.
  change (z0 ++ "_Missing") with (z0 ++ missing_suffix) in Hsuf.
  rewrite ends_with_append in Hsuf. discriminate.
Qed.

(** X8.  A zero-as-missing field that the frame lacks makes the analyzer
    raise [KeyError]; by then the placeholders are replaced, but no
    completeness score has been computed. *)
Theorem analysis_raises_on_absent_field (df : DataFrame)
  (zero_as_missing_cols : list string)
  (additional_missing_values : option (list string)) (z : string) :
  In z zero_as_missing_cols ->
  mem z (columns df) = false ->
  ends_with missing_suffix z = false ->
  let run := missing_value_analysis df zero_as_missing_cols
               additional_missing_values in
  snd run = Raised KeyError /\
  get_col (fst run) completeness_column
  = get_col (replace_frame (markers_of additional_missing_values) df)
            completeness_column.
Proof.
  intros Hz Hmem Hsuf. cbv zeta.
  unfold missing_value_analysis.
  fold (markers_of additional_missing_values).
  set (df0 := replace_frame (markers_of additional_missing_values) df).
  assert (Hnone : get_col df0 z = None).
  { unfold df0. rewrite replace_frame_get.
    unfold get_col. unfold columns in Hmem. rewrite lookup_mem in Hmem.
    destruct (lookup z (cols df)); [discriminate | reflexivity]. }
  pose proof (flag_zeros_raises zero_as_missing_cols z Hz Hsuf df0
                (null_counts df0) Hnone) as Hr.
  destruct (flag_zeros_derive zero_as_missing_cols df0 (null_counts df0))
    as [Hfst _].
  destruct (flag_zeros zero_as_missing_cols df0 (null_counts df0))
    as [df' [summary | e]]; simpl in *; [discriminate |].
  injection Hr as ->. split; [reflexivity |].
  rewrite Hfst. apply derive_other_columns.
  intros k _ Heq.
  assert (Hc : ends_with missing_suffix completeness_column = true)
    by (rewrite Heq; apply ends_with_append).
  discriminate Hc.
Qed.

Lemma analysis_raises_on_absent_field_witness :
  let run := missing_value_analysis raw_sample ["Glucose"; "Insulin"] None in
  snd run = Raised KeyError /\
  get_col (fst run) completeness_column
  = get_col (replace_frame (markers_of None) raw_sample) completeness_column.
Proof.
  apply (analysis_raises_on_absent_field raw_sample ["Glucose"; "Insulin"]
           None "Insulin").
  - simpl; auto.
  - reflexivity.
  - reflexivity.
Defined.

(** X9.  The flag [<Field>_Missing] of a record is true exactly when the
    value of the field equals zero.  A value that is missing (NaN or a
    placeholder) is not zero, so no cell is counted both as a missing
    marker and as a zero. *)
Theorem zero_flag_means_zero (df : DataFrame) (zero_as_missing_cols : list string)
  (additional_missing_values : option (list string)) (z : string) (i : nat) :
  auditable df zero_as_missing_cols = true ->
  In z zero_as_missing_cols ->
  (i < nrows df)%nat ->
  exists c,
    get_cell df z i = Some c /\
    get_cell (fst (missing_value_analysis df zero_as_missing_cols
                     additional_missing_values))
             (z ++ missing_suffix) i = Some (VBool (is_zero c)) /\
    (forall v, c = VNum v -> (is_zero c = true <-> v == 0)) /\
    (is_missing_marker (markers_of additional_missing_values) c = true ->
     is_zero c = false).
Proof.
  intros Haud Hz Hi.
  destruct (analysis_returns df zero_as_missing_cols
              additional_missing_values Haud)
    as [df' [table [Hrun [_ [_ [_ [_ Hflags]]]]]]].
  destruct (Hflags z Hz) as [s [Hs [Hlen Hcol]]].
  exists (nth i s VNaN). split; [| split; [| split]].
  - unfold get_cell. rewrite Hs. apply nth_error_nth_default. lia.
  - rewrite Hrun. simpl fst. unfold get_cell.
    rewrite get_set_col_other.
    + rewrite Hcol. rewrite (nth_error_nth_default _ i VNaN)
        by (rewrite !length_map; lia).
      now rewrite nth_flags by lia.
    + intros Heq.
      assert (Hc : ends_with missing_suffix completeness_column = true)
        by (rewrite <- Heq; apply ends_with_append).
      discriminate Hc.
  - intros v ->. simpl. unfold Qeqb. apply Qeq_bool_iff.
  - apply marker_not_zero.
Qed.

Lemma zero_flag_means_zero_witness :
  exists c,
    get_cell raw_sample "Glucose" 0 = Some c /\
    get_cell (fst (missing_value_analysis raw_sample ["Glucose"] None))
             ("Glucose" ++ missing_suffix) 0 = Some (VBool (is_zero c)) /\
    (forall v, c = VNum v -> (is_zero c = true <-> v == 0)) /\
    (is_missing_marker (markers_of None) c = true -> is_zero c = false).
Proof.
  apply (zero_flag_means_zero raw_sample ["Glucose"] None "Glucose" 0).
  - reflexivity.
  - simpl; auto.
  - simpl; lia.
Defined.

Lemma Qnat_eq (a b : nat) : Qnat a == Qnat b <-> a = b.
Proof.
  unfold Qnat. rewrite inject_Z_injective. split; [apply Nat2Z.inj | congruence].
Qed.

(** X10.  The completeness score is 100 exactly for a record without any
    missing marker and without any zero-as-missing flag, and 0 exactly
    when markers and flags together are as many as the data fields. *)
Theorem completeness_extremes (df : DataFrame) (zero_as_missing_cols : list string)
  (additional_missing_values : option (list string)) (i : nat) :
  auditable df zero_as_missing_cols = true ->
  (i < nrows df)%nat ->
  (0 < List.length (data_fields df))%nat ->
  let markers := missing_markers (markers_of additional_missing_values) df i in
  let zeros := zero_flags_true df zero_as_missing_cols i in
  exists q,
    get_cell (fst (missing_value_analysis df zero_as_missing_cols
                     additional_missing_values)) completeness_column i
      = Some (VNum q) /\
    (q == 100 <-> markers = 0%nat /\ zeros = 0%nat) /\
    (q == 0 <-> (markers + zeros)%nat = List.length (data_fields df)).
Proof.
  intros Haud Hi HD. cbv zeta.
  destruct (completeness_cell df zero_as_missing_cols
              additional_missing_values i Haud Hi) as [_ Hcell].
  pose proof (Qnat_pos _ HD) as HDq.
  rewrite Hcell. unfold fdiv, Qeqb.
  destruct (Qeq_bool (Qnat (List.length (data_fields df))) 0) eqn:E;
    [apply Qeq_bool_eq in E; lra |].
  simpl. eexists. split; [reflexivity |].
  set (N := (missing_markers (markers_of additional_missing_values) df i
             + zero_flags_true df zero_as_missing_cols i)%nat).
  set (D := List.length (data_fields df)) in *.
  pose proof (Qnat_nonneg N) as HN.
  assert (Hdiv : Qnat N / Qnat D * Qnat D == Qnat N)
    by (field; lra).
  split; split.
  - intros H. assert (H0 : Qnat N == Qnat 0).
    { change (Qnat 0) with 0. nra. }
    apply Qnat_eq in H0. unfold N in H0. lia.
  - intros [Hm Hz]. unfold N. rewrite Hm, Hz.
    change (Qnat (0 + 0)) with 0. field. lra.
  - intros H. apply Qnat_eq. nra.
  - intros H. fold N in H. rewrite H. field. lra.
Qed.

Lemma completeness_extremes_witness :
  let markers := missing_markers (markers_of None) raw_sample 1 in
  let zeros := zero_flags_true raw_sample ["Glucose"] 1 in
  exists q,
    get_cell (fst (missing_value_analysis raw_sample ["Glucose"] None))
             completeness_column 1 = Some (VNum q) /\
    (q == 100 <-> markers = 0%nat /\ zeros = 0%nat) /\
    (q == 0 <-> (markers + zeros)%nat = List.length (data_fields raw_sample)).
Proof.
  apply (completeness_extremes raw_sample ["Glucose"] None 1).
  - reflexivity.
  - simpl; lia.
  - simpl; lia.
Defined.

(* ------------------------------------------------------------------ *)
(** *** The missing-value summary *)

Lemma fold_assign_absent {A B} (g : A -> B) (k : string)
  (l : list (string * A)) (init : list (string * B)) :
  ~ In k (map fst l) ->
  lookup k (fold_left (fun summary c => assign (fst c) (g (snd c)) summary)
                      l init)
  = lookup k init.
Proof.
  revert init. induction l as [|[k0 a0] l IH]; intros init Hk; simpl; auto.
  simpl in Hk. rewrite IH by tauto.
  apply lookup_assign_other. intros ->. tauto.
Qed.

Lemma fold_assign_present {A B} (g : A -> B) (k : string) (a : A)
  (l : list (string * A)) (init : list (string * B)) :
  NoDup (map fst l) -> lookup k l = Some a ->
  lookup k (fold_left (fun summary c => assign (fst c) (g (snd c)) summary)
                      l init)
  = Some (g a).
Proof.
  revert init. induction l as [|[k0 a0] l IH]; intros init Hnd Hl;
    simpl in *; [discriminate |].
  inversion Hnd as [|? ? Hk0 Hnd']; subst.
  destruct (String.eqb k k0) eqn:E.
  - apply String.eqb_eq in E. subst k0. injection Hl as ->.
    rewrite fold_assign_absent by assumption.
    apply lookup_assign_same.
  - now apply IH.
Qed.

Lemma flag_zeros_summary (zs : list string) :
  (forall z, In z zs -> ends_with missing_suffix z = false) ->
  forall (df df' : DataFrame) (summary out : list (string * nat)),
    flag_zeros zs df summary = (df', Returned out) ->
    (forall k, (forall z, In z zs -> k <> z ++ "_Zeros_as_Missing") ->
       lookup k out = lookup k summary) /\
    (forall z, In z zs ->
       exists s, get_col df z = Some s /\
         lookup (z ++ "_Zeros_as_Missing") out
         = Some (count_true (map is_zero s))).
Proof.
  induction zs as [|z0 zs IH]; intros Hsuf df df' summary out Hrun.
  - simpl in Hrun. injection Hrun as <- <-. split; [auto | intros z []].
  - simpl in Hrun. destruct (get_col df z0) as [s0|] eqn:E0;
      [| discriminate].
    destruct (IH (fun z Hz => Hsuf z (or_intror Hz)) _ _ _ _ Hrun)
      as [Hkeep Hcount].
    split.
    + intros k Hk. rewrite Hkeep by (intros z Hz; apply Hk; now right).
      apply lookup_assign_other. apply Hk. now left.
    + intros z Hz.
      destruct (in_dec string_dec z zs) as [Hin | Hnin].
      * destruct (Hcount z Hin) as [s [Hs Hl]]. exists s. split; auto.
        rewrite get_set_col_other in Hs; auto.
        intros Heq. specialize (Hsuf z (or_intror Hin)).
        rewrite Heq in Hsuf.
        change (z0 ++ "_Missing") with (z0 ++ missing_suffix) in Hsuf.
        rewrite ends_with_append in Hsuf. discriminate.
      * destruct Hz as [-> | Hz]; [| contradiction].
        exists s0. split; auto.
        rewrite Hkeep.
        -- apply lookup_assign_same.
        -- intros z' Hz' Heq. apply append_cancel_r in Heq. congruence.
Qed.

Lemma count_markers_replace (markers : list string) (s : Series) :
  count_true (map isnull (map (replace_missing markers) s))
  = count_true (map (is_missing_marker markers) s).
Proof.
  rewrite map_map. f_equal. apply map_ext. intros c. apply isnull_replace.
Qed.

Lemma count_zeros_replace (markers : list string) (s : Series) :
  count_true (map is_zero (map (replace_missing markers) s))
  = count_true (map is_zero s).
Proof.
  rewrite map_map. f_equal. apply map_ext. intros c. apply is_zero_replace.
Qed.

(** X11.  The summary the analyzer returns counts, for every field of
    the frame, the records whose value is a missing marker and, under the
    key [<Field>_Zeros_as_Missing] of every zero-as-missing field, the
    records whose value is zero; [Missing_%] is that count as a
    percentage of the number of records. *)
Theorem missing_summary_counts (df : DataFrame)
  (zero_as_missing_cols : list string)
  (additional_missing_values : option (list string)) :
  auditable df zero_as_missing_cols = true ->
  distinct (columns df) = true ->
  (0 < nrows df)%nat ->
  let markers := markers_of additional_missing_values in
  exists table,
    snd (missing_value_analysis df zero_as_missing_cols
           additional_missing_values) = Returned table /\
    (forall field s,
       get_col df field = Some s ->
       ends_with "_Zeros_as_Missing" field = false ->
       exists pct,
         lookup field table
           = Some (count_true (map (is_missing_marker markers) s),
                   VNum pct) /\
         pct == 100 * Qnat (count_true (map (is_missing_marker markers) s))
                / Qnat (nrows df)) /\
    (forall z sz,
       In z zero_as_missing_cols ->
       get_col df z = Some sz ->
       exists pctz,
         lookup (z ++ "_Zeros_as_Missing") table
           = Some (count_true (map is_zero sz), VNum pctz) /\
         pctz == 100 * Qnat (count_true (map is_zero sz))
                 / Qnat (nrows df)).
Proof.
  intros Haud Hdist Hn. cbv zeta.
  pose proof Haud as Haud'. unfold auditable in Haud'.
  rewrite !andb_true_iff in Haud'. destruct Haud' as [[_ Hzs] _].
  rewrite forallb_forall in Hzs.
  assert (Hsuf : forall z', In z' zero_as_missing_cols ->
                   ends_with missing_suffix z' = false).
  { intros z' Hz'. specialize (Hzs z' Hz'). rewrite andb_true_iff in Hzs.
    destruct Hzs as [_ H]. now apply negb_true_iff in H. }
  destruct (analysis_returns df zero_as_missing_cols
              additional_missing_values Haud)
    as [df' [table [Hrun _]]].
  unfold missing_value_analysis in *.
  fold (markers_of additional_missing_values) in *.
  remember (markers_of additional_missing_values) as markers eqn:Em.
  set (df0 := replace_frame markers df) in *.
  destruct (flag_zeros zero_as_missing_cols df0 (null_counts df0))
    as [df1 [out | e]] eqn:Efz; [| discriminate].
  destruct (flag_zeros_summary zero_as_missing_cols Hsuf _ _ _ _ Efz)
    as [Hkeep Hcount].
  assert (Hpos : ~ Qnat (nrows df) == 0).
  { pose proof (Qnat_pos _ Hn). lra. }
  assert (Hn1 : nrows (set_col df1 "Completeness_Score (%)"
                         (apply_rows df1
                            (completeness zero_as_missing_cols
                               (data_cols_count df1)))) = nrows df).
  { simpl. pose proof (flag_zeros_derive zero_as_missing_cols df0
                         (null_counts df0)) as [Hfst _].
    rewrite Efz in Hfst. simpl in Hfst. rewrite Hfst.
    apply (derive_nrows (fun z => z) missing_suffix zero_flags false
             zero_as_missing_cols df0). }
  assert (Hentry : forall k n, lookup k out = Some n ->
            lookup k (missing_table
                        (set_col df1 "Completeness_Score (%)"
                           (apply_rows df1
                              (completeness zero_as_missing_cols
                                 (data_cols_count df1)))) out)
            = Some (n, VNum (100 * Qnat n / Qnat (nrows df)))).
  { intros k n Hl. unfold missing_table. rewrite Hn1.
    clear - Hl Hpos. induction out as [|[k' n'] out IH]; simpl in *;
      [discriminate |].
    destruct (String.eqb k k'); auto.
    injection Hl as ->. unfold fdiv, Qeqb.
    destruct (Qeq_bool (Qnat (nrows df)) 0) eqn:E;
      [apply Qeq_bool_eq in E; contradiction | reflexivity]. }
  eexists. split; [reflexivity |]. split.
  - intros field s Hs Hfield. eexists. split; [| reflexivity].
    apply Hentry. rewrite Hkeep.
    + unfold null_counts.
      rewrite (fold_assign_present (fun x => count_true (map isnull x))
                 field (map (replace_missing markers) s)).
      * now rewrite count_markers_replace.
      * unfold df0, replace_frame. simpl. rewrite map_map. simpl.
        apply distinct_NoDup. exact Hdist.
      * change (lookup field (cols df0)) with (get_col df0 field).
        unfold df0. now rewrite replace_frame_get, Hs.
    + intros z' _ Heq.
      rewrite Heq in Hfield.
      rewrite (ends_with_append "_Zeros_as_Missing" z') in Hfield.
      discriminate.
  - intros z sz Hz Hsz. eexists. split; [| reflexivity].
    apply Hentry. destruct (Hcount z Hz) as [s' [Hs' Hl]].
    unfold df0 in Hs'. rewrite replace_frame_get, Hsz in Hs'.
    injection Hs' as <-. rewrite Hl. now rewrite count_zeros_replace.
Qed.

Lemma missing_summary_counts_witness :
  exists table,
    snd (missing_value_analysis raw_sample ["Glucose"] None) = Returned table /\
    (forall field s,
       get_col raw_sample field = Some s ->
       ends_with "_Zeros_as_Missing" field = false ->
       exists pct,
         lookup field table
           = Some (count_true (map (is_missing_marker (markers_of None)) s),
                   VNum pct) /\
         pct == 100 * Qnat (count_true
                              (map (is_missing_marker (markers_of None)) s))
                / Qnat (nrows raw_sample)) /\
    (forall z sz,
       In z ["Glucose"] ->
       get_col raw_sample z = Some sz ->
       exists pctz,
         lookup (z ++ "_Zeros_as_Missing") table
           = Some (count_true (map is_zero sz), VNum pctz) /\
         pctz == 100 * Qnat (count_true (map is_zero sz))
                 / Qnat (nrows raw_sample)).
Proof.
  apply (missing_summary_counts raw_sample ["Glucose"] None).
  - reflexivity.
  - reflexivity.
  - simpl; lia.
Defined.

(* ================================================================== *)
(** ** The detectors and the frame *)

Lemma anomaly_other_columns (sk : IsolationForest) (global : generator sk)
  (df : DataFrame) (cols : list string) (contamination : Q)
  (random_state : option Z) (name : string) :
  name <> "Row_AnomalyIF" ->
  get_col (fst (fst (anomaly_detection_isolation_forest sk global df cols
                       contamination random_state))) name
  = get_col df name.
Proof.
  intros Hname. unfold anomaly_detection_isolation_forest.
  destruct (select_floats df cols) as [X | e]; [| reflexivity].
  destruct random_state as [seed |].
  - destruct (fst (fit_predict sk (seeded sk seed) contamination
                     (map fill_median X))); simpl; auto.
    now apply get_set_col_other.
  - destruct (fit_predict sk global contamination (map fill_median X))
      as [[preds | e] g]; simpl; auto.
    now apply get_set_col_other.
Qed.

Lemma format_other_columns (df : DataFrame) (name : string) :
  name <> "Age_FormatError" ->
  get_col (fst (pattern_and_format_checks df)) name = get_col df name.
Proof.
  intros Hname. unfold pattern_and_format_checks.
  destruct (get_col df "Age"); simpl; auto.
  now apply get_set_col_other.
Qed.

Lemma outlier_other_columns (df : DataFrame) (cols : list string)
  (name : string) :
  ends_with outlier_suffix name = false ->
  get_col (fst (outlier_detection df cols)) name = get_col df name.
Proof.
  intros Hname. destruct (outlier_detection_derive cols df) as [-> _].
  apply derive_other_columns. intros k _ Heq.
  rewrite Heq, ends_with_append in Hname. discriminate.
Qed.

Lemma range_other_columns (df : DataFrame)
  (ranges : list (string * (Q * Q))) (name : string) :
  ends_with range_suffix name = false ->
  get_col (fst (clinical_range_check df ranges)) name = get_col df name.
Proof.
  intros Hname. destruct (clinical_range_check_derive ranges df) as [-> _].
  apply derive_other_columns. intros k _ Heq.
  rewrite Heq, ends_with_append in Hname. discriminate.
Qed.

(** X12.  The four detectors have no effect on the frame beyond their
    own flag columns: whether they return or raise, the univariate
    detector leaves every column not named [..._Outlier] as it was, the
    range validator every column not named [..._RangeError], the
    isolation forest every column but [Row_AnomalyIF] (its median
    imputation never reaches the stored values) and the format validator
    every column but [Age_FormatError]. *)
Theorem detectors_only_write_flags (sk : IsolationForest)
  (global : generator sk) (df : DataFrame) (cols : list string)
  (ranges : list (string * (Q * Q))) (contamination : Q)
  (random_state : option Z) (name : string) :
  (ends_with outlier_suffix name = false ->
   get_col (fst (outlier_detection df cols)) name = get_col df name) /\
  (ends_with range_suffix name = false ->
   get_col (fst (clinical_range_check df ranges)) name = get_col df name) /\
  (name <> "Row_AnomalyIF" ->
   get_col (fst (fst (anomaly_detection_isolation_forest sk global df cols
                        contamination random_state))) name
   = get_col df name) /\
  (name <> "Age_FormatError" ->
   get_col (fst (pattern_and_format_checks df)) name = get_col df name).
Proof.
  split; [apply outlier_other_columns |].
  split; [apply range_other_columns |].
  split; [apply anomaly_other_columns | apply format_other_columns].
Qed.

(* ------------------------------------------------------------------ *)
(** *** The range validator *)

(** X13.  For a field of [ranges] that the frame has, a record with the
    number [v] in it gets [<Field>_RangeError] false when
    [low <= v <= high], bounds included, and true when [v] is below [low]
    or above [high]. *)
Theorem range_flag_of_value (df : DataFrame)
  (ranges : list (string * (Q * Q))) (field : string) (low high : Q)
  (i : nat) (v : Q) :
  range_inputs df ranges = true ->
  In (field, (low, high)) ranges ->
  get_cell df field i = Some (VNum v) ->
  let run := clinical_range_check df ranges in
  returned (snd run) = true /\
  (low <= v /\ v <= high ->
   get_cell (fst run) (field ++ range_suffix) i = Some (VBool false)) /\
  (v < low \/ high < v ->
   get_cell (fst run) (field ++ range_suffix) i = Some (VBool true)).
Proof.
  intros Hin Hfield Hcell. cbv zeta.
  unfold get_cell in Hcell.
  destruct (get_col df field) as [s|] eqn:Hs; [| discriminate].
  destruct (range_column df ranges field low high s Hin Hfield Hs)
    as [Hret [flags [Hflags Hget]]].
  split; [exact Hret |].
  unfold get_cell. rewrite Hget.
  rewrite (range_errors_nth low high s flags i Hflags), Hcell.
  cbn [cell_between]. split.
  - intros [Hlo Hhi]. apply Qleb_true in Hlo, Hhi. now rewrite Hlo, Hhi.
  - intros [Hlo | Hhi].
    + apply Qleb_false in Hlo. now rewrite Hlo.
    + apply Qleb_false in Hhi. rewrite Hhi. now rewrite andb_false_r.
Qed.

Lemma range_flag_of_value_witness :
  let run := clinical_range_check glucose_frame [("BMI", (10, 60))] in
  returned (snd run) = true /\
  (10 <= 80 /\ 80 <= 60 ->
   get_cell (fst run) ("BMI" ++ range_suffix) 0 = Some (VBool false)) /\
  (80 < 10 \/ 60 < 80 ->
   get_cell (fst run) ("BMI" ++ range_suffix) 0 = Some (VBool true)).
Proof.
  apply (range_flag_of_value glucose_frame [("BMI", (10, 60))] "BMI" 10 60
           0 80).
  - reflexivity.
  - simpl; auto.
  - reflexivity.
Defined.

Lemma mem_columns_set_col (df : DataFrame) (col k : string) (v : Series) :
  mem k (columns (set_col df col v))
  = String.eqb k col || mem k (columns df).
Proof. unfold columns, set_col. simpl. apply mem_assign. Qed.

Lemma range_check_skips (ranges : list (string * (Q * Q))) :
  (forall e, In e ranges -> ends_with range_suffix (fst e) = false) ->
  forall df df0 : DataFrame,
    (forall e, In e ranges ->
       mem (fst e) (columns df) = mem (fst e) (columns df0)) ->
    clinical_range_check df ranges
    = clinical_range_check df
        (filter (fun e => mem (fst e) (columns df0)) ranges).
Proof.
  induction ranges as [|[col [low high]] ranges IH]; intros Hsuf df df0 Hmem;
    [reflexivity |].
  assert (Hsuf' : forall e, In e ranges ->
                    ends_with range_suffix (fst e) = false)
    by (intros e He; apply Hsuf; now right).
  assert (Hmem' : forall e, In e ranges ->
                    mem (fst e) (columns df) = mem (fst e) (columns df0))
    by (intros e He; apply Hmem; now right).
  pose proof (Hmem (col, (low, high)) (or_introl eq_refl)) as Hcol.
  simpl in Hcol. cbn [filter fst]. rewrite <- Hcol.
  unfold columns at 1. rewrite lookup_mem.
  cbn [clinical_range_check]. unfold get_col.
  destruct (lookup col (cols df)) as [s|] eqn:Es.
  - cbn [clinical_range_check]. unfold get_col. rewrite Es.
    destruct (range_errors low high s) as [flags|]; [| reflexivity].
    apply IH; auto.
    intros e He. rewrite mem_columns_set_col, <- (Hmem' e He).
    destruct (String.eqb (fst e) (col ++ "_RangeError")) eqn:E; auto.
    apply String.eqb_eq in E. specialize (Hsuf' e He).
    rewrite E in Hsuf'.
    change (col ++ "_RangeError") with (col ++ range_suffix) in Hsuf'.
    rewrite ends_with_append in Hsuf'. discriminate.
  - now apply IH.
Qed.

(** X14.  The range validator skips the fields of [ranges] that the
    frame lacks: it does what it would do with those entries left out,
    and never raises [KeyError].  Given only fields the frame lacks, it
    returns the frame untouched. *)
Theorem range_check_skips_absent_fields (df : DataFrame)
  (ranges : list (string * (Q * Q))) :
  forallb (fun e => negb (ends_with range_suffix (fst e))) ranges = true ->
  clinical_range_check df ranges
  = clinical_range_check df
      (filter (fun e => mem (fst e) (columns df)) ranges) /\
  snd (clinical_range_check df ranges) <> Raised KeyError /\
  (forallb (fun e => negb (mem (fst e) (columns df))) ranges = true ->
   clinical_range_check df ranges = (df, Returned tt)).
Proof.
  intros Hsuf. rewrite forallb_forall in Hsuf.
  assert (Hskip : clinical_range_check df ranges
                  = clinical_range_check df
                      (filter (fun e => mem (fst e) (columns df)) ranges)).
  { apply range_check_skips; auto.
    intros e He. specialize (Hsuf e He). now apply negb_true_iff in Hsuf. }
  split; [exact Hskip |]. split.
  - clear. revert df.
    induction ranges as [|[col [low high]] ranges IH]; intros df; simpl;
      [discriminate |].
    destruct (get_col df col) as [s|]; auto.
    destruct (range_errors low high s); simpl; auto. discriminate.
  - intros Habs. rewrite Hskip.
    assert (Hnil : filter (fun e => mem (fst e) (columns df)) ranges = []).
    { rewrite forallb_forall in Habs. clear - Habs.
      induction ranges as [|e ranges IH]; simpl; auto.
      pose proof (Habs e (or_introl eq_refl)) as He.
      apply negb_true_iff in He. rewrite He. apply IH.
      intros e' He'. apply Habs. now right. }
    now rewrite Hnil.
Qed.

Lemma range_check_skips_absent_fields_witness :
  clinical_range_check glucose_frame [("Insulin", (0, 900)); ("BMI", (10, 60))]
  = clinical_range_check glucose_frame
      (filter (fun e => mem (fst e) (columns glucose_frame))
              [("Insulin", (0, 900)); ("BMI", (10, 60))]) /\
  snd (clinical_range_check glucose_frame
         [("Insulin", (0, 900)); ("BMI", (10, 60))]) <> Raised KeyError /\
  (forallb (fun e => negb (mem (fst e) (columns glucose_frame)))
           [("Insulin", (0, 900)); ("BMI", (10, 60))] = true ->
   clinical_range_check glucose_frame
     [("Insulin", (0, 900)); ("BMI", (10, 60))]
   = (glucose_frame, Returned tt)).
Proof.
  apply (range_check_skips_absent_fields glucose_frame
           [("Insulin", (0, 900)); ("BMI", (10, 60))]).
  reflexivity.
Defined.

(* ------------------------------------------------------------------ *)
(** *** A configured column that the frame lacks *)

Lemma outlier_detection_raises (cols : list string) (c : string) :
  In c cols -> ends_with outlier_suffix c = false ->
  forall df : DataFrame,
    get_col df c = None ->
    snd (outlier_detection df cols) = Raised KeyError \/
    snd (outlier_detection df cols) = Raised TypeError.
Proof.
  intros Hc Hsuf. induction cols as [|c0 cols IH]; intros df Hnone;
    [destruct Hc |].
  simpl. destruct (get_col df c0) as [s|] eqn:E0; [| now left].
  destruct (as_floats s) as [fs|]; [| now right].
  destruct Hc as [-> | Hc]; [congruence |].
  apply IH; auto.
  rewrite get_set_col_other; auto.
  intros Heq. rewrite Heq in Hsuf.
  change (c0 ++ "_Outlier") with (c0 ++ outlier_suffix) in Hsuf.
  rewrite ends_with_append in Hsuf. discriminate.
Qed.

Lemma select_floats_raises (df : DataFrame) (cols : list string)
  (c : string) :
  In c cols -> get_col df c = None ->
  select_floats df cols = Raised KeyError.
Proof.
  intros Hc Hnone. induction cols as [|c0 cols IH]; [destruct Hc |].
  simpl. destruct (get_col df c0) as [s|] eqn:E0; [| reflexivity].
  destruct Hc as [-> | Hc]; [congruence |].
  rewrite (IH Hc). now destruct (as_floats s).
Qed.

Lemma get_col_absent (df : DataFrame) (c : string) :
  mem c (columns df) = false -> get_col df c = None.
Proof.
  unfold columns, get_col. rewrite lookup_mem.
  destruct (lookup c (cols df)); [discriminate | reflexivity].
Qed.

(** X15.  Unlike the range validator, the two outlier detectors do not
    skip a configured column that the frame lacks: the univariate
    detector raises, and the isolation forest raises [KeyError] before it
    touches the frame or draws from any generator. *)
Theorem absent_column_stops_outlier_detectors (sk : IsolationForest)
  (global : generator sk) (df : DataFrame) (cols : list string)
  (contamination : Q) (random_state : option Z) (c : string) :
  In c cols ->
  mem c (columns df) = false ->
  ends_with outlier_suffix c = false ->
  (snd (outlier_detection df cols) = Raised KeyError \/
   snd (outlier_detection df cols) = Raised TypeError) /\
  anomaly_detection_isolation_forest sk global df cols contamination
    random_state = (df, global, Raised KeyError).
Proof.
  intros Hc Hmem Hsuf. apply get_col_absent in Hmem. split.
  - now apply (outlier_detection_raises cols c).
  - unfold anomaly_detection_isolation_forest.
    now rewrite (select_floats_raises df cols c Hc Hmem).
Qed.

Lemma absent_column_stops_outlier_detectors_witness :
  (snd (outlier_detection glucose_frame ["Glucose"; "Insulin"])
   = Raised KeyError \/
   snd (outlier_detection glucose_frame ["Glucose"; "Insulin"])
   = Raised TypeError) /\
  anomaly_detection_isolation_forest constant_forest tt glucose_frame
    ["Glucose"; "Insulin"] default_contamination None
  = (glucose_frame, tt, Raised KeyError).
Proof.
  apply (absent_column_stops_outlier_detectors constant_forest tt
           glucose_frame ["Glucose"; "Insulin"] default_contamination None
           "Insulin").
  - simpl; auto.
  - reflexivity.
  - reflexivity.
Defined.

(* ------------------------------------------------------------------ *)
(** *** The format validator *)

(** X16.  [Age_FormatError] of a record is false exactly when its [Age]
    is a number [v] with [0 <= v <= 120]; a missing age and an age given
    as text are flagged.  Without an [Age] column the validator raises
    [KeyError] and leaves the frame as it was. *)
Theorem age_format_flag (df : DataFrame) :
  (get_col df "Age" = None ->
   pattern_and_format_checks df = (df, Raised KeyError)) /\
  (forall i c, get_cell df "Age" i = Some c ->
     snd (pattern_and_format_checks df) = Returned tt /\
     exists flag,
       get_cell (fst (pattern_and_format_checks df)) "Age_FormatError" i
         = Some (VBool flag) /\
       (forall v, c = VNum v -> (flag = false <-> 0 <= v /\ v <= 120)) /\
       (c = VNaN -> flag = true) /\
       (forall s, c = VStr s -> flag = true)).
Proof.
  unfold pattern_and_format_checks. split.
  - intros ->. reflexivity.
  - intros i c Hcell. unfold get_cell in Hcell.
    destruct (get_col df "Age") as [s|] eqn:Es; [| discriminate].
    simpl. split; [reflexivity |].
    exists (negb (age_plausible c)). split.
    + unfold get_cell. rewrite get_set_col_same, nth_error_map, Hcell.
      reflexivity.
    + split; [| split; [intros ->; reflexivity | intros t ->; reflexivity]].
      intros v ->. simpl. rewrite negb_false_iff, andb_true_iff.
      now rewrite !Qleb_true.
Qed.

(* ================================================================== *)
(** ** More on the scoring engine *)



(** The frame a call on a scorable frame leaves, spelled out. *)
Lemma classify_frame (str_of_value : cell -> string) (df : DataFrame)
  (ew : option dict) :
  scorable df = true ->
  exists we totals,
    List.length we = nrows df /\
    let df3 :=
      set_col (set_col (set_col df "Weighted_Errors" (map VNum we))
                       "Total_Errors" totals)
              "Quality_Score (%)"
              (map (quality_score
                      (sum_values (effective_weights (error_columns df) ew)))
                   we) in
    let name := if mem "index" (columns df) then "level_0" else "index" in
    let df4 := rename_column "index" "Row_Index"
                 (mkDF (nrows df) ((name, positions (nrows df)) :: cols df3)) in
    frame_after (classify_errors_and_score str_of_value df ew)
    = set_col df4 "Error_Log"
              (apply_rows df4 (error_log str_of_value (error_columns df))).
Proof.
  intros Hsc.
  set (E := error_columns df). set (W := effective_weights E ew).
  destruct (weighted_errors_spec df W Hsc E (repeat 0 (nrows df)))
    as [we [Hwe [Hlen _]]].
  - auto.
  - intros c Hc. unfold W. rewrite lookup_effective.
    destruct (mem c E) eqn:Em; [discriminate |].
    apply mem_false_In in Em. contradiction.
  - apply repeat_length.
  - exists we. eexists. split; [exact Hlen |]. cbv zeta.
    unfold classify_errors_and_score. fold E. fold W. rewrite Hwe.
    unfold reset_index.
    unfold scorable in Hsc. rewrite !andb_true_iff in Hsc.
    destruct Hsc as [_ Hreset]. unfold can_reset_index in Hreset.
    destruct (mem "index" (columns df)) eqn:Ei.
    + assert (H3 : mem "index"
                     (columns
                        (set_col
                           (set_col (set_col df "Weighted_Errors" (map VNum we))
                              "Total_Errors"
                              (apply_rows
                                 (set_col df "Weighted_Errors" (map VNum we))
                                 (fun r => VNum (total_errors E r))))
                           "Quality_Score (%)"
                           (map (quality_score (sum_values W)) we))) = true).
      { rewrite !mem_columns_set_col, Ei. reflexivity. }
      rewrite H3.
      assert (H0 : mem "level_0"
                     (columns
                        (set_col
                           (set_col (set_col df "Weighted_Errors" (map VNum we))
                              "Total_Errors"
                              (apply_rows
                                 (set_col df "Weighted_Errors" (map VNum we))
                                 (fun r => VNum (total_errors E r))))
                           "Quality_Score (%)"
                           (map (quality_score (sum_values W)) we))) = false).
      { rewrite !mem_columns_set_col.
        destruct (mem "level_0" (columns df)); [discriminate | reflexivity]. }
      rewrite H0. reflexivity.
    + assert (H3 : mem "index"
                     (columns
                        (set_col
                           (set_col (set_col df "Weighted_Errors" (map VNum we))
                              "Total_Errors"
                              (apply_rows
                                 (set_col df "Weighted_Errors" (map VNum we))
                                 (fun r => VNum (total_errors E r))))
                           "Quality_Score (%)"
                           (map (quality_score (sum_values W)) we))) = false).
      { rewrite !mem_columns_set_col, Ei. reflexivity. }
      rewrite !H3. reflexivity.
Qed.

Lemma frame_after_other (str_of_value : cell -> string) (df : DataFrame)
  (ew : option dict) (k : string) :
  scorable df = true -> mem k scoring_names = false ->
  get_col (frame_after (classify_errors_and_score str_of_value df ew)) k
  = get_col df k.
Proof.
  intros Hsc Hk.
  destruct (classify_frame str_of_value df ew Hsc) as [we [totals [_ Hf]]].
  cbv zeta in Hf. rewrite Hf.
  unfold scoring_names in Hk.
  apply mem_cons_false in Hk. destruct Hk as [K1 Hk].
  apply mem_cons_false in Hk. destruct Hk as [K2 Hk].
  apply mem_cons_false in Hk. destruct Hk as [K3 Hk].
  assert (Hn : forall b : bool,
             (if b then "level_0" else "index") = "index" \/
             (if b then "level_0" else "index") = "level_0")
    by (intros []; auto).
  match goal with
  | |- get_col (set_col (rename_column _ _ (mkDF _ ((?name, ?rng) :: cols ?d3)))
                        _ ?log) _ = _ =>
      transitivity (get_col d3 k);
        [exact (get_col_after_index d3 name k rng log (Hn _) Hk) |]
  end.
  now rewrite !get_set_col_other.
Qed.

(** X17.  Besides the columns it writes ([Weighted_Errors],
    [Total_Errors], [Quality_Score (%)], [Error_Log]) and the index it
    turns into a column ([index], [level_0], [Row_Index]), the scoring
    engine alters nothing: every flag and every data field of the frame
    is afterwards what it was. *)
Theorem scoring_keeps_other_columns (str_of_value : cell -> string)
  (df : DataFrame) (error_weights : option dict) (k : string) :
  scorable df = true ->
  mem k scoring_names = false ->
  let run := classify_errors_and_score str_of_value df error_weights in
  get_col (frame_after run) k = get_col df k /\
  nrows (frame_after run) = nrows df.
Proof.
  intros Hsc Hk. cbv zeta. split; [now apply frame_after_other |].
  destruct (classify_frame str_of_value df error_weights Hsc)
    as [we [totals [_ Hf]]].
  cbv zeta in Hf. now rewrite Hf.
Qed.

Lemma scoring_keeps_other_columns_witness :
  let run := classify_errors_and_score plain_str sample_frame None in
  get_col (frame_after run) "Glucose" = get_col sample_frame "Glucose" /\
  nrows (frame_after run) = nrows sample_frame.
Proof.
  apply (scoring_keeps_other_columns plain_str sample_frame None "Glucose");
    reflexivity.
Defined.





(* ------------------------------------------------------------------ *)
(** *** The error log *)








(* ------------------------------------------------------------------ *)
(** *** Scores compared *)

Lemma weighted_monotone (f g : string -> bool) (w : dict)
  (E : list string) :
  nonnegative w = true ->
  (forall c, f c = true -> g c = true) ->
  Qsum (map (fun c => if f c then weight_of w c else 0) E)
  <= Qsum (map (fun c => if g c then weight_of w c else 0) E).
Proof.
  intros Hw Hfg. induction E as [|c E IH]; simpl; [lra |].
  pose proof (weight_of_nonneg w c Hw) as Hc.
  specialize (Hfg c).
  destruct (f c), (g c); try lra; try discriminate (Hfg eq_refl).
Qed.

(** X21.  More flags never score better: under non-negative weights of
    positive total, at most [2^53], a record that has every flag true
    that another record has, has a [Quality_Score] no higher than that
    record's.  When the weights are whole numbers the [int64] column
    [Weighted_Errors] is ordered the same way: no addition wraps. *)
Theorem more_flags_lower_score (str_of_value : cell -> string)
  (df : DataFrame) (error_weights : option dict) (i j : nat) :
  scorable df = true ->
  nonnegative (supplied error_weights) = true ->
  weights_fit df (supplied error_weights) = true ->
  0 < spec_total_weight df (supplied error_weights) ->
  (i < nrows df)%nat ->
  (j < nrows df)%nat ->
  (forall col, flag_true df col i = true -> flag_true df col j = true) ->
  let run := classify_errors_and_score str_of_value df error_weights in
  (exists qi qj,
     get_cell (frame_after run) quality_column i = Some (VNum qi) /\
     get_cell (frame_after run) quality_column j = Some (VNum qj) /\
     qj <= qi) /\
  (forallb (fun e => whole (snd e)) (supplied error_weights) = true ->
   exists we qs xi xj,
     scores_int64 df error_weights = Returned (we, qs) /\
     nth_error we i = Some xi /\ nth_error we j = Some xj /\
     (0 <= xi <= xj)%Z).
Proof.
  intros Hsc Hnn Hfit HT Hi Hj Hsub. cbv zeta.
  assert (Hle : spec_weighted_errors df (supplied error_weights) i
                <= spec_weighted_errors df (supplied error_weights) j).
  { unfold spec_weighted_errors. now apply weighted_monotone. }
  split.
  - destruct (quality_cell_value str_of_value df error_weights i Hsc Hi HT)
      as [_ [qi [Hqi Hvi]]].
    destruct (quality_cell_value str_of_value df error_weights j Hsc Hj HT)
      as [_ [qj [Hqj Hvj]]].
    exists qi, qj. split; [exact Hqi |]. split; [exact Hqj |].
    rewrite Hvi, Hvj.
    set (T := spec_total_weight df (supplied error_weights)) in *.
    assert (Hdiv : spec_weighted_errors df (supplied error_weights) i / T
                   <= spec_weighted_errors df (supplied error_weights) j / T).
    { unfold Qdiv. apply Qmult_le_compat_r; [exact Hle |].
      apply Qlt_le_weak. now apply Qinv_lt_0_compat. }
    lra.
  - intros Hwhole.
    assert (Hw : whole_weights df (supplied error_weights) = true)
      by (unfold whole_weights; now rewrite Hwhole, Hfit).
    destruct (scores_int64_cell df error_weights i Hsc Hi Hw)
      as [we [qs [xi [Hs [Hxi [Hxiv _]]]]]].
    destruct (scores_int64_cell df error_weights j Hsc Hj Hw)
      as [we' [qs' [xj [Hs' [Hxj [Hxjv _]]]]]].
    rewrite Hs in Hs'. injection Hs' as <- <-.
    exists we, qs, xi, xj. repeat (split; [assumption |]).
    pose proof (spec_weighted_bounds df (supplied error_weights) i
                  (scorable_NoDup df Hsc) Hnn) as [Hb _].
    split; rewrite Zle_Qle.
    + now rewrite Hxiv.
    + now rewrite Hxiv, Hxjv.
Qed.

Lemma more_flags_lower_score_witness :
  let run := classify_errors_and_score plain_str sample_frame None in
  (exists qi qj,
     get_cell (frame_after run) quality_column 1 = Some (VNum qi) /\
     get_cell (frame_after run) quality_column 0 = Some (VNum qj) /\
     qj <= qi) /\
  (forallb (fun e => whole (snd e)) (supplied None) = true ->
   exists we qs xi xj,
     scores_int64 sample_frame None = Returned (we, qs) /\
     nth_error we 1 = Some xi /\ nth_error we 0 = Some xj /\
     (0 <= xi <= xj)%Z).
Proof.
  apply (more_flags_lower_score plain_str sample_frame None 1 0).
  - reflexivity.
  - reflexivity.
  - vm_compute; reflexivity.
  - vm_compute; reflexivity.
  - simpl; lia.
  - simpl; lia.
  - intros col H. unfold flag_true, get_cell, get_col in *. simpl in *.
    destruct (String.eqb col "Glucose"); [discriminate |].
    destruct (String.eqb col "Glucose_Missing"); [discriminate |].
    destruct (String.eqb col "Glucose_Outlier"); discriminate.
Defined.

Lemma spec_weighted_default (df : DataFrame) (i : nat) :
  spec_weighted_errors df [] i == Qnat (true_flags df i).
Proof.
  unfold spec_weighted_errors, true_flags.
  induction (error_columns df) as [|c E IH]; simpl.
  - reflexivity.
  - rewrite IH. destruct (flag_true df c i); cbn [List.length].
    + rewrite Qnat_S. unfold weight_of. simpl. ring.
    + ring.
Qed.

Lemma spec_total_default (df : DataFrame) :
  spec_total_weight df [] == Qnat (List.length (error_columns df)).
Proof.
  unfold spec_total_weight. cbn [map].
  assert (H : filter (fun col : string => negb (mem col []))
                     (error_columns df) = error_columns df).
  { apply forallb_filter_id. apply forallb_forall. reflexivity. }
  rewrite H. cbn [Qsum fold_right]. ring.
Qed.

(** X22.  With no weight table, or an empty one, every flag weighs 1:
    [Weighted_Errors] equals [Total_Errors], the total weight is the
    number of flag columns, and the [Quality_Score] of a record is 100
    times the share of its flags that are false. *)
Theorem default_weights_count_flags (str_of_value : cell -> string)
  (df : DataFrame) (error_weights : option dict) (i : nat) :
  scorable df = true ->
  supplied error_weights = [] ->
  (0 < List.length (error_columns df))%nat ->
  (i < nrows df)%nat ->
  let run := classify_errors_and_score str_of_value df error_weights in
  exists x t q,
    get_cell (frame_after run) "Weighted_Errors" i = Some (VNum x) /\
    get_cell (frame_after run) "Total_Errors" i = Some (VNum t) /\
    get_cell (frame_after run) quality_column i = Some (VNum q) /\
    x == t /\ t == Qnat (true_flags df i) /\
    q == 100 * (1 - Qnat (true_flags df i)
                    / Qnat (List.length (error_columns df))).
Proof.
  intros Hsc Hempty HE Hi. cbv zeta.
  assert (HT : 0 < spec_total_weight df (supplied error_weights)).
  { rewrite Hempty, spec_total_default. now apply Qnat_pos. }
  destruct (weighted_cell str_of_value df error_weights i Hsc Hi)
    as [x [Hx [Hxv _]]].
  destruct (quality_cell_value str_of_value df error_weights i Hsc Hi HT)
    as [_ [q [Hq Hqv]]].
  exists x, (total_errors (error_columns df) (row df i)), q.
  split; [exact Hx |].
  split; [now apply total_errors_cell |].
  split; [exact Hq |].
  assert (Ht : total_errors (error_columns df) (row df i)
               == Qnat (true_flags df i))
    by (apply total_errors_count; auto).
  rewrite Hempty in *.
  split; [| split; [exact Ht |]].
  - now rewrite Hxv, spec_weighted_default, Ht.
  - rewrite Hqv, spec_weighted_default, spec_total_default. reflexivity.
Qed.

Lemma default_weights_count_flags_witness :
  let run := classify_errors_and_score plain_str sample_frame (Some []) in
  exists x t q,
    get_cell (frame_after run) "Weighted_Errors" 0 = Some (VNum x) /\
    get_cell (frame_after run) "Total_Errors" 0 = Some (VNum t) /\
    get_cell (frame_after run) quality_column 0 = Some (VNum q) /\
    x == t /\ t == Qnat (true_flags sample_frame 0) /\
    q == 100 * (1 - Qnat (true_flags sample_frame 0)
                    / Qnat (List.length (error_columns sample_frame))).
Proof.
  apply (default_weights_count_flags plain_str sample_frame (Some []) 0).
  - reflexivity.
  - reflexivity.
  - simpl; lia.
  - simpl; lia.
Defined.

(* ------------------------------------------------------------------ *)
(** *** A flag column that is not complete *)





(* ================================================================== *)
(** ** The stages of [main] composed *)

Lemma assign_keys {A} (k : string) (v : A) (l : list (string * A)) :
  map fst (assign k v l)
  = if mem k (map fst l) then map fst l else (map fst l ++ [k])%list.
Proof.
  induction l as [|[k' v'] l IH]; simpl; auto.
  destruct (String.eqb k k') eqn:E; simpl; auto.
  rewrite IH. unfold mem. destruct (existsb _ _); auto.
Qed.

Lemma forallb_assign {A} (P : string * A -> bool) (k : string) (v : A)
  (l : list (string * A)) :
  forallb P l = true -> P (k, v) = true -> forallb P (assign k v l) = true.
Proof.
  intros Hl Hv. induction l as [|[k' v'] l IH]; simpl in *.
  - now rewrite Hv.
  - rewrite andb_true_iff in Hl. destruct Hl as [H1 H2].
    destruct (String.eqb k k') eqn:E; simpl.
    + apply String.eqb_eq in E. subst k'. now rewrite Hv, H2.
    + now rewrite H1, IH.
Qed.

Lemma distinct_set_col (df : DataFrame) (k : string) (v : Series) :
  distinct (columns df) = true -> distinct (columns (set_col df k v)) = true.
Proof.
  intros H. unfold columns, set_col. simpl. rewrite assign_keys.
  destruct (mem k (map fst (cols df))) eqn:E; auto.
  apply distinct_NoDup. apply distinct_NoDup in H.
  apply NoDup_app; auto.
  - repeat constructor. intros [].
  - intros x Hx [<- | []]. apply mem_false_In in E. contradiction.
Qed.

(** Storing a column of the right length, boolean if it is named like a
    flag, keeps a frame scorable. *)
Lemma scorable_set_col (df : DataFrame) (k : string) (v : Series) :
  scorable df = true ->
  List.length v = nrows df ->
  (is_error_col k = true -> forallb is_bool v = true) ->
  k <> "index" -> k <> "level_0" ->
  scorable (set_col df k v) = true.
Proof.
  unfold scorable. rewrite !andb_true_iff.
  intros [[[Hd Hr] Hf] Hc] Hlen Hbool Hi Hl.
  repeat split.
  - now apply distinct_set_col.
  - unfold rectangularb, set_col in *. simpl.
    apply forallb_assign; auto. simpl. now apply Nat.eqb_eq.
  - unfold flags_boolean, set_col in *. simpl.
    apply forallb_assign; auto. simpl.
    destruct (is_error_col k); auto.
  - now rewrite can_reset_set_col.
Qed.

Lemma scorable_column_length (df : DataFrame) (k : string) (s : Series) :
  scorable df = true -> get_col df k = Some s -> List.length s = nrows df.
Proof.
  unfold scorable. rewrite !andb_true_iff. intros [[[_ Hr] _] _] Hs.
  apply lookup_Some_In in Hs. eapply rectangular_length; eauto.
Qed.

Lemma suffix_not_index (suffix k : string) :
  ends_with suffix "index" = false -> ends_with suffix "level_0" = false ->
  k ++ suffix <> "index" /\ k ++ suffix <> "level_0".
Proof.
  intros H1 H2. split; intros Heq;
    pose proof (ends_with_append suffix k) as H; rewrite Heq in H; congruence.
Qed.

Lemma scorable_derive {K : Type} (key : K -> string) (suffix : string)
  (f : K -> Series -> option Series) (skip : bool) :
  ends_with suffix "index" = false -> ends_with suffix "level_0" = false ->
  (forall k s v, f k s = Some v ->
     List.length v = List.length s /\ forallb is_bool v = true) ->
  forall (ks : list K) (df : DataFrame),
    scorable df = true ->
    scorable (fst (derive key suffix f skip ks df)) = true.
Proof.
  intros H1 H2 Hf. induction ks as [|k ks IH]; intros df Hsc; simpl; auto.
  destruct (get_col df (key k)) as [s|] eqn:Es.
  - destruct (f k s) as [v|] eqn:Ef; simpl; auto.
    destruct (Hf k s v Ef) as [Hlen Hbool].
    destruct (suffix_not_index suffix (key k) H1 H2) as [Hi Hl].
    apply IH. apply scorable_set_col; auto.
    rewrite Hlen. eapply scorable_column_length; eauto.
  - destruct skip; simpl; auto.
Qed.

Lemma forallb_bool_flags (l : list bool) :
  forallb is_bool (map VBool l) = true.
Proof. induction l; simpl; auto. Qed.

Lemma as_floats_length (s : Series) (fs : float_series) :
  as_floats s = Some fs -> List.length fs = List.length s.
Proof.
  revert fs. induction s as [|c s IH]; intros fs H; simpl in H.
  - now injection H as <-.
  - destruct c; try discriminate;
      destruct (as_floats s) as [fs'|]; try discriminate;
      injection H as <-; simpl; f_equal; now apply IH.
Qed.

Lemma range_errors_shape (low high : Q) (s flags : Series) :
  range_errors low high s = Some flags ->
  List.length flags = List.length s /\ forallb is_bool flags = true.
Proof.
  revert flags. induction s as [|c s IH]; intros flags H; simpl in H.
  - injection H as <-. auto.
  - destruct (cell_between low high c); [| discriminate].
    destruct (range_errors low high s) as [fl|]; [| discriminate].
    injection H as <-. destruct (IH fl eq_refl) as [Hl Hb].
    simpl. split; [now f_equal | exact Hb].
Qed.

Lemma scorable_replace (markers : list string) (df : DataFrame) :
  scorable df = true -> scorable (replace_frame markers df) = true.
Proof.
  unfold scorable. rewrite !andb_true_iff.
  intros [[[Hd Hr] Hf] Hc].
  assert (Hcols : columns (replace_frame markers df) = columns df).
  { unfold columns, replace_frame. simpl. rewrite map_map. reflexivity. }
  repeat split.
  - now rewrite Hcols.
  - unfold rectangularb, replace_frame in *. simpl.
    rewrite forallb_forall in *. intros c Hin.
    apply in_map_iff in Hin. destruct Hin as [c0 [<- Hc0]]. simpl.
    rewrite length_map. now apply Hr.
  - unfold flags_boolean, replace_frame in *. simpl.
    rewrite forallb_forall in *. intros c Hin.
    apply in_map_iff in Hin. destruct Hin as [c0 [<- Hc0]]. simpl.
    specialize (Hf c0 Hc0). destruct (is_error_col (fst c0)); auto.
    simpl in *. rewrite forallb_forall in *. intros x Hx.
    apply in_map_iff in Hx. destruct Hx as [x0 [<- Hx0]].
    rewrite is_bool_replace. now apply Hf.
  - unfold can_reset_index in *. now rewrite Hcols.
Qed.

Lemma scorable_analysis (df : DataFrame) (zs : list string)
  (amv : option (list string)) :
  scorable df = true ->
  scorable (fst (missing_value_analysis df zs amv)) = true.
Proof.
  intros Hsc. unfold missing_value_analysis. fold (markers_of amv).
  set (df0 := replace_frame (markers_of amv) df).
  assert (H0 : scorable df0 = true) by now apply scorable_replace.
  destruct (flag_zeros_derive zs df0 (null_counts df0)) as [Hfst _].
  assert (H1 : scorable (fst (flag_zeros zs df0 (null_counts df0))) = true).
  { rewrite Hfst. apply scorable_derive; auto.
    intros k s v Hv. unfold zero_flags in Hv. injection Hv as <-.
    rewrite !length_map. split; [reflexivity | apply forallb_bool_flags]. }
  destruct (flag_zeros zs df0 (null_counts df0)) as [df' [summary | e]];
    simpl in *; auto.
  apply scorable_set_col; auto; try discriminate.
  unfold apply_rows. now rewrite length_map, length_seq.
Qed.

Lemma scorable_outliers (df : DataFrame) (cols : list string) :
  scorable df = true -> scorable (fst (outlier_detection df cols)) = true.
Proof.
  intros Hsc. destruct (outlier_detection_derive cols df) as [-> _].
  apply scorable_derive; auto.
  intros k s v Hv. unfold outlier_flags in Hv.
  destruct (as_floats s) as [fs|] eqn:E; [| discriminate].
  injection Hv as <-. unfold detect_outliers_iqr. rewrite !length_map.
  split; [now apply as_floats_length | apply forallb_bool_flags].
Qed.

Lemma scorable_ranges (df : DataFrame) (ranges : list (string * (Q * Q))) :
  scorable df = true ->
  scorable (fst (clinical_range_check df ranges)) = true.
Proof.
  intros Hsc. destruct (clinical_range_check_derive ranges df) as [-> _].
  apply scorable_derive; auto.
  intros k s v Hv. unfold range_flags in Hv.
  now apply range_errors_shape in Hv.
Qed.

Lemma scorable_format (df : DataFrame) :
  scorable df = true ->
  scorable (fst (pattern_and_format_checks df)) = true.
Proof.
  intros Hsc. unfold pattern_and_format_checks.
  destruct (get_col df "Age") as [s|] eqn:Es; simpl; auto.
  apply scorable_set_col; auto; try discriminate.
  - rewrite length_map. eapply scorable_column_length; eauto.
  - intros _. rewrite <- (map_map (fun c => negb (age_plausible c)) VBool).
    apply forallb_bool_flags.
Qed.

Lemma select_floats_lengths (df : DataFrame) (cols : list string)
  (X : list float_series) :
  scorable df = true -> select_floats df cols = Returned X ->
  Forall (fun x => List.length x = nrows df) X.
Proof.
  intros Hsc. revert X. induction cols as [|c cols IH]; intros X H;
    simpl in H.
  - injection H as <-. constructor.
  - destruct (get_col df c) as [s|] eqn:Es; [| discriminate].
    destruct (as_floats s) as [fs|] eqn:Ef;
      destruct (select_floats df cols) as [X'|e]; try discriminate.
    injection H as <-. constructor; auto.
    rewrite (as_floats_length s fs Ef).
    eapply scorable_column_length; eauto.
Qed.

Lemma scorable_anomaly (sk : IsolationForest) (global : generator sk)
  (df : DataFrame) (cols : list string) (contamination : Q)
  (random_state : option Z) :
  scorable df = true ->
  predicts_each_record sk (nrows df) ->
  scorable (fst (fst (anomaly_detection_isolation_forest sk global df cols
                        contamination random_state))) = true.
Proof.
  intros Hsc Hsk. unfold anomaly_detection_isolation_forest.
  destruct (select_floats df cols) as [X | e] eqn:EX; [| exact Hsc].
  assert (HX : Forall (fun x => List.length x = nrows df)
                      (map fill_median X)).
  { pose proof (select_floats_lengths df cols X Hsc EX) as H.
    rewrite Forall_forall in *. intros x Hx.
    apply in_map_iff in Hx. destruct Hx as [x0 [<- Hx0]].
    unfold fill_median. rewrite length_map. now apply H. }
  destruct random_state as [seed |].
  - destruct (fit_predict sk (seeded sk seed) contamination
                (map fill_median X)) as [[preds | e] g] eqn:Ep;
      simpl; auto.
    apply scorable_set_col; auto; try discriminate.
    + rewrite length_map. eapply Hsk; eauto.
    + intros _. rewrite <- (map_map (fun p => Z.eqb p (-1)) VBool).
      apply forallb_bool_flags.
  - destruct (fit_predict sk global contamination (map fill_median X))
      as [[preds | e] g] eqn:Ep; simpl; auto.
    apply scorable_set_col; auto; try discriminate.
    + rewrite length_map. eapply Hsk; eauto.
    + intros _. rewrite <- (map_map (fun p => Z.eqb p (-1)) VBool).
      apply forallb_bool_flags.
Qed.

Lemma derive_keeps_names {K : Type} (key : K -> string) (suffix : string)
  (f : K -> Series -> option Series) (skip : bool) (name : string) :
  forall (ks : list K) (df : DataFrame),
    mem name (columns df) = true ->
    mem name (columns (fst (derive key suffix f skip ks df))) = true.
Proof.
  induction ks as [|k ks IH]; intros df H; simpl; auto.
  destruct (get_col df (key k)) as [s|].
  - destruct (f k s) as [v|]; simpl; auto.
    apply IH. rewrite mem_columns_set_col, H. apply orb_true_r.
  - destruct skip; simpl; auto.
Qed.

Lemma nrows_analysis (df : DataFrame) (zs : list string)
  (amv : option (list string)) :
  nrows (fst (missing_value_analysis df zs amv)) = nrows df.
Proof.
  unfold missing_value_analysis. fold (markers_of amv).
  set (df0 := replace_frame (markers_of amv) df).
  destruct (flag_zeros_derive zs df0 (null_counts df0)) as [Hfst _].
  pose proof (derive_nrows (fun z => z) missing_suffix zero_flags false
                zs df0) as Hn.
  rewrite <- Hfst in Hn.
  destruct (flag_zeros zs df0 (null_counts df0)) as [df' [summary | e]];
    simpl in *; exact Hn.
Qed.

Lemma nrows_outliers (df : DataFrame) (cols : list string) :
  nrows (fst (outlier_detection df cols)) = nrows df.
Proof.
  destruct (outlier_detection_derive cols df) as [-> _].
  apply derive_nrows.
Qed.

Lemma nrows_ranges (df : DataFrame) (ranges : list (string * (Q * Q))) :
  nrows (fst (clinical_range_check df ranges)) = nrows df.
Proof.
  destruct (clinical_range_check_derive ranges df) as [-> _].
  apply derive_nrows.
Qed.

Lemma ranges_keep_names (df : DataFrame) (ranges : list (string * (Q * Q)))
  (name : string) :
  mem name (columns df) = true ->
  mem name (columns (fst (clinical_range_check df ranges))) = true.
Proof.
  destruct (clinical_range_check_derive ranges df) as [-> _].
  apply derive_keeps_names.
Qed.

Lemma detection_stages_generator (sk : IsolationForest)
  (global : generator sk) (df : DataFrame) (zs cols : list string)
  (contamination : Q) :
  snd (fst (detection_stages sk global df zs cols contamination)) = global.
Proof.
  unfold detection_stages, default_random_state.
  destruct (missing_value_analysis df zs None) as [df1 [t | e]]; auto.
  destruct (outlier_detection df1 cols) as [df2 [u | e]]; auto.
  destruct (seeded_detection sk global df2 cols contamination 42%Z)
    as [frame [result H]].
  now rewrite H.
Qed.

(** The frame after the first three stages. *)
Lemma detection_stages_frame (sk : IsolationForest) (global : generator sk)
  (df : DataFrame) (zs cols : list string) (contamination : Q) :
  scorable df = true ->
  predicts_each_record sk (nrows df) ->
  let d := detection_stages sk global df zs cols contamination in
  scorable (fst (fst d)) = true /\
  nrows (fst (fst d)) = nrows df /\
  (returned (snd d) = true ->
   mem "Row_AnomalyIF" (columns (fst (fst d))) = true).
Proof.
  intros Hsc Hsk. unfold detection_stages. cbv zeta.
  pose proof (scorable_analysis df zs None Hsc) as H1.
  pose proof (nrows_analysis df zs None) as N1.
  destruct (missing_value_analysis df zs None) as [df1 [t | e]];
    simpl in H1, N1; [| simpl; repeat split; auto; discriminate].
  pose proof (scorable_outliers df1 cols H1) as H2.
  pose proof (nrows_outliers df1 cols) as N2.
  destruct (outlier_detection df1 cols) as [df2 [u | e]];
    simpl in H2, N2; [| simpl; repeat split; auto; try congruence;
                        discriminate].
  assert (Hsk2 : predicts_each_record sk (nrows df2))
    by (rewrite N2, N1; exact Hsk).
  pose proof (scorable_anomaly sk global df2 cols contamination
                default_random_state H2 Hsk2) as H3.
  split; [exact H3 |]. split.
  - unfold anomaly_detection_isolation_forest, default_random_state.
    destruct (select_floats df2 cols) as [X | e]; simpl; [| congruence].
    destruct (fit_predict sk (seeded sk 42%Z) contamination
                (map fill_median X)) as [[preds | e] g]; simpl; congruence.
  - unfold anomaly_detection_isolation_forest, default_random_state.
    destruct (select_floats df2 cols) as [X | e]; simpl; [| discriminate].
    destruct (fit_predict sk (seeded sk 42%Z) contamination
                (map fill_median X)) as [[preds | e] g]; simpl;
      [| discriminate].
    intros _. rewrite mem_columns_set_col. reflexivity.
Qed.

(** The frame the detectors hand to the scoring engine. *)
Lemma detectors_frame (sk : IsolationForest) (global : generator sk)
  (df : DataFrame) (config : Config) :
  scorable df = true ->
  predicts_each_record sk (nrows df) ->
  let d := detectors sk global df config in
  scorable (fst (fst d)) = true /\
  nrows (fst (fst d)) = nrows df /\
  snd (fst d) = global /\
  (returned (snd d) = true ->
   mem "Row_AnomalyIF" (columns (fst (fst d))) = true /\
   mem "Age_FormatError" (columns (fst (fst d))) = true).
Proof.
  intros Hsc Hsk. unfold detectors. cbv zeta.
  set (zs := config_get (cfg_zero_as_missing_cols config) []).
  set (ranges := config_get (cfg_clinical_ranges config) []).
  set (ocols := config_get (cfg_outlier_columns config) []).
  set (cont := config_get (cfg_contamination config) default_contamination).
  destruct (detection_stages_frame sk global df zs ocols cont Hsc Hsk)
    as [H1 [N1 R1]].
  pose proof (detection_stages_generator sk global df zs ocols cont) as G1.
  destruct (detection_stages sk global df zs ocols cont)
    as [[df1 g1] [t | e]]; simpl in H1, N1, R1, G1;
    [| simpl; repeat split; auto; discriminate].
  pose proof (scorable_ranges df1 ranges H1) as H2.
  pose proof (nrows_ranges df1 ranges) as N2.
  pose proof (ranges_keep_names df1 ranges "Row_AnomalyIF" (R1 eq_refl))
    as R2.
  destruct (clinical_range_check df1 ranges) as [df2 [u | e]];
    simpl in H2, N2, R2;
    [| simpl; repeat split; auto; try congruence; discriminate].
  pose proof (scorable_format df2 H2) as H3.
  unfold pattern_and_format_checks in *.
  destruct (get_col df2 "Age") as [s|]; simpl in *.
  - repeat split; auto; try congruence.
    + rewrite mem_columns_set_col, R2. apply orb_true_r.
    + rewrite mem_columns_set_col. reflexivity.
  - repeat split; auto; try congruence; discriminate.
Qed.

Lemma flag_column_listed (df : DataFrame) (name : string) :
  is_error_col name = true -> mem name (columns df) = true ->
  In name (error_columns df).
Proof.
  intros He Hm. unfold error_columns. apply filter_In.
  split; [now apply mem_In | exact He].
Qed.

Lemma constant_forest_predicts (n : nat) :
  predicts_each_record constant_forest n.
Proof.
  intros g g' c X preds H HX. simpl in H.
  destruct X as [|x X]; [discriminate |].
  injection H as <- _. rewrite length_map.
  now inversion HX.
Qed.



Lemma flag_weight_le_total (df : DataFrame) (w : dict) (c : string) :
  NoDup (error_columns df) -> nonnegative w = true ->
  In c (error_columns df) ->
  weight_of w c <= spec_total_weight df w.
Proof.
  intros Hnd Hw Hin. unfold spec_total_weight.
  apply Qle_trans with
    (Qsum (map (fun c0 => if String.eqb c c0 then weight_of w c0 else 0)
               (error_columns df))).
  - clear Hnd. induction (error_columns df) as [|c0 E IH]; [destruct Hin |].
    simpl.
    pose proof (weighted_nonneg (String.eqb c) E w Hw) as Hrest.
    destruct Hin as [-> | Hin].
    + rewrite String.eqb_refl. lra.
    + specialize (IH Hin).
      pose proof (weight_of_nonneg w c0 Hw).
      destruct (String.eqb c c0); lra.
  - now apply weighted_le_total.
Qed.

(** X25.  In [main] the score is always a number.  The detectors add
    [Age_FormatError] to every frame they return, so under a table of
    non-negative whole weights, at most [2^53] in total, that gives this
    flag a positive weight or no entry (it then weighs 1, as under the
    default, empty table), the total weight is positive: every
    [Quality_Score] of the audited frame is finite and lies between 0
    and 100, and [Weighted_Errors] is a whole number between 0 and the
    total weight that the [int64] column holds as it is. *)
Theorem audit_scores_are_numbers (str_of_value : cell -> string)
  (sk : IsolationForest) (global : generator sk) (raw : DataFrame)
  (config : Config) (i : nat) :
  scorable raw = true ->
  predicts_each_record sk (nrows raw) ->
  returned (snd (detectors sk global raw config)) = true ->
  let detected := fst (fst (detectors sk global raw config)) in
  let weights := Some (config_get (cfg_error_weights config) []) in
  nonnegative (supplied weights) = true ->
  whole_weights detected (supplied weights) = true ->
  0 < weight_of (supplied weights) "Age_FormatError" ->
  (i < nrows raw)%nat ->
  exists q,
    get_cell (audited (audit str_of_value sk global raw config))
             quality_column i = Some (VNum q) /\
    0 <= q <= 100 /\
    exists we qs x q',
      scores_int64 detected weights = Returned (we, qs) /\
      nth_error we i = Some x /\
      (0 <= x)%Z /\
      inject_Z x <= spec_total_weight detected (supplied weights) /\
      spec_total_weight detected (supplied weights) <= exact_limit /\
      nth_error qs i = Some (VNum q') /\ q' == q.
Proof.
  intros Hsc Hsk Hret. cbv zeta. intros Hnn Hwhole Hage Hi.
  destruct (detectors_frame sk global raw config Hsc Hsk)
    as [Hd [Hn [_ Hr]]].
  unfold audit.
  destruct (detectors sk global raw config) as [[df g] [t | e]];
    simpl in Hd, Hn, Hr, Hret, Hwhole |- *; [| discriminate].
  destruct (Hr eq_refl) as [_ Hf].
  set (w := config_get (cfg_error_weights config) []) in *.
  pose proof (scorable_NoDup df Hd) as Hnd.
  assert (HT : 0 < spec_total_weight df (supplied (Some w))).
  { simpl. eapply Qlt_le_trans; [exact Hage |].
    apply flag_weight_le_total; auto.
    apply flag_column_listed; auto. }
  rewrite <- Hn in Hi.
  exact (whole_score_in_range str_of_value df (Some w) i Hd Hnn Hwhole HT Hi).
Qed.

Lemma audit_scores_are_numbers_witness :
  let detected :=
    fst (fst (detectors constant_forest tt patients patients_config)) in
  let weights := Some (config_get (cfg_error_weights patients_config) []) in
  exists q,
    get_cell (audited (audit plain_str constant_forest tt patients
                         patients_config))
             quality_column 1 = Some (VNum q) /\
    0 <= q <= 100 /\
    exists we qs x q',
      scores_int64 detected weights = Returned (we, qs) /\
      nth_error we 1 = Some x /\
      (0 <= x)%Z /\
      inject_Z x <= spec_total_weight detected (supplied weights) /\
      spec_total_weight detected (supplied weights) <= exact_limit /\
      nth_error qs 1 = Some (VNum q') /\ q' == q.
Proof.
  apply (audit_scores_are_numbers plain_str constant_forest tt patients
           patients_config 1).
  - reflexivity.
  - apply constant_forest_predicts.
  - reflexivity.
  - reflexivity.
  - vm_compute; reflexivity.
  - reflexivity.
  - simpl. lia.
Defined.
